(** * Despacho log processor: parsing, day-rollover sequencing and export

    A shallow embedding of [src/processor.py]: the line grammar
    [LOG_PATTERN], [_normalize_clock], the loop of [parse_records],
    [DispatchRecord.adjusted_iso], [_record_blocks], [export_to_excel] and
    the core of [main], together with the pieces of the Python runtime
    they call ([str.strip], [str.splitlines], [re.match], [int],
    [datetime.strptime], [date] and [datetime] arithmetic, [strftime],
    [range], slices, the conversion of an integer to a float) and of
    openpyxl ([Worksheet.cell], the value of a cell, [get_column_letter],
    the width of a column, the numbers that [Workbook.save] writes).

    Python strings are sequences of Unicode code points; exceptions are
    modelled by a result type; the worksheet is the list of the
    assignments made to it. *)

From Stdlib Require Import List NArith ZArith Bool Lia String Ascii.
Import ListNotations.

Set Implicit Arguments.

(** ** Text *)

Module Text.

Local Open Scope N_scope.

(** A character is a Unicode code point, a [str] a sequence of them. *)
Definition char : Type := N.
Definition str : Type := list char.

(** The characters the program names. *)
Abbreviation LINE_FEED := 0xa%N (only parsing).
Abbreviation SPACE := 0x20%N (only parsing).
Abbreviation PERCENT_SIGN := 0x25%N (only parsing).
Abbreviation HYPHEN := 0x2d%N (only parsing).
Abbreviation DIGIT_0 := 0x30%N (only parsing).
Abbreviation DIGIT_1 := 0x31%N (only parsing).
Abbreviation DIGIT_2 := 0x32%N (only parsing).
Abbreviation DIGIT_3 := 0x33%N (only parsing).
Abbreviation DIGIT_5 := 0x35%N (only parsing).
Abbreviation DIGIT_9 := 0x39%N (only parsing).
Abbreviation COLON := 0x3a%N (only parsing).
Abbreviation LETTER_A := 0x41%N (only parsing).
Abbreviation LETTER_Z := 0x5a%N (only parsing).
Abbreviation LETTER_h := 0x68%N (only parsing).
Abbreviation EN_DASH := 0x2013%N (only parsing).

(** ASCII literals of the source, as code points. *)
Definition lit (s : string) : str :=
  map N_of_ascii (list_ascii_of_string s).

Definition in_ranges (rs : list (N * N)) (c : char) : bool :=
  existsb (fun r => (fst r <=? c) && (c <=? snd r)) rs.

(** The characters [str.strip()], [str.isspace()] and the pattern escape
    [\s] treat as whitespace (one table in the interpreter). *)
Definition whitespace_ranges : list (N * N) :=
  [ (0x9, 0xd); (0x1c, 0x20); (0x85, 0x85); (0xa0, 0xa0); (0x1680, 0x1680);
    (0x2000, 0x200a); (0x2028, 0x2029); (0x202f, 0x202f); (0x205f, 0x205f);
    (0x3000, 0x3000) ].

Definition is_space (c : char) : bool := in_ranges whitespace_ranges c.

(** The decimal digits of the Unicode database (category Nd, Unicode 14):
    each entry is the code point of a digit zero, followed by the digits
    one to nine of the same script. The pattern escape [\d] and [int]
    accept all of them. *)
Definition decimal_zeros : list N :=
  [ 0x30; 0x660; 0x6f0; 0x7c0; 0x966; 0x9e6; 0xa66; 0xae6; 0xb66; 0xbe6;
    0xc66; 0xce6; 0xd66; 0xde6; 0xe50; 0xed0; 0xf20; 0x1040; 0x1090; 0x17e0;
    0x1810; 0x1946; 0x19d0; 0x1a80; 0x1a90; 0x1b50; 0x1bb0; 0x1c40; 0x1c50;
    0xa620; 0xa8d0; 0xa900; 0xa9d0; 0xa9f0; 0xaa50; 0xabf0; 0xff10; 0x104a0;
    0x10d30; 0x11066; 0x110f0; 0x11136; 0x111d0; 0x112f0; 0x11450; 0x114d0;
    0x11650; 0x116c0; 0x11730; 0x118e0; 0x11950; 0x11c50; 0x11d50; 0x11da0;
    0x16a60; 0x16ac0; 0x16b50; 0x1d7ce; 0x1d7d8; 0x1d7e2; 0x1d7ec; 0x1d7f6;
    0x1e140; 0x1e2f0; 0x1e950; 0x1fbf0 ].

Definition decimal_ranges : list (N * N) :=
  map (fun z => (z, z + 9)) decimal_zeros.

Definition is_decimal (c : char) : bool := in_ranges decimal_ranges c.

(** The value of a decimal digit ([unicodedata.decimal]). *)
Definition decimal_value (c : char) : N :=
  match find (fun z => (z <=? c) && (c <=? z + 9)) decimal_zeros with
  | Some z => c - z
  | None => 0
  end.

Definition is_ascii_upper (c : char) : bool :=
  (LETTER_A <=? c) && (c <=? LETTER_Z).

(** [str.lower()]. Only the ASCII letters are lowered here: in the Unicode
    database [H] is the only code point, besides [h] itself, whose lower
    case contains [h], and digits and the colon are the lower case of
    nothing but themselves, so the one caller, [_normalize_clock], which
    tests the lowered text against [\d{2}:\d{2}] and reports the original
    text otherwise, cannot tell the difference. *)
Definition lower (s : str) : str :=
  map (fun c => if is_ascii_upper c then c + 0x20 else c) s.

Fixpoint lstrip (s : str) : str :=
  match s with
  | c :: s' => if is_space c then lstrip s' else s
  | [] => []
  end.

(** [str.strip()] with no argument. *)
Definition strip (s : str) : str := rev (lstrip (rev (lstrip s))).

(** [s.endswith(c)] for a one-character suffix. *)
Definition endswith (s : str) (c : char) : bool :=
  match rev s with
  | x :: _ => x =? c
  | [] => false
  end.

(** [s.replace(a, b)] for one-character [a] and [b]. *)
Definition replace (a b : char) (s : str) : str :=
  map (fun c => if c =? a then b else c) s.

End Text.

Import Text.

(** ** Regular expressions

    A backtracking matcher with the priorities of Python's [re]: the first
    alternative and the longest repetition are tried first, and given up
    only when the rest of the pattern fails. *)

Module Re.

Inductive regex : Type :=
| Eps                                    (* the empty pattern *)
| Bol                                    (* ^ *)
| Eol                                    (* $ *)
| Cls (p : char -> bool)                 (* a character, class or escape *)
| Cat (r1 r2 : regex)                    (* r1 r2 *)
| Alt (r1 r2 : regex)                    (* r1|r2 *)
| Star (r : regex)                       (* r*, greedy *)
| Grp (name : string) (r : regex).       (* (?P<name>r) *)

(** The groups recorded so far, latest first. *)
Definition groups : Type := list (string * str).

Record Match : Type := { m_end : nat; m_groups : groups }.

Section Matcher.
Variable A : Type.

(** The loop of a greedy repetition: [body] matches the repeated pattern
    once more when it can, provided it moves forward, and only then is the
    rest of the pattern, [k], tried from here. [fuel] bounds the number of
    rounds; the length of the remaining text is enough, since each round
    consumes a character. *)
Fixpoint star_loop
    (body : nat -> str -> groups -> (nat -> str -> groups -> option A)
            -> option A)
    (k : nat -> str -> groups -> option A)
    (fuel : nat) (pos : nat) (s : str) (g : groups) : option A :=
  match fuel with
  | O => k pos s g
  | S fuel' =>
      match body pos s g
              (fun pos' s' g' =>
                 if Nat.ltb pos pos' then star_loop body k fuel' pos' s' g'
                 else None) with
      | Some x => Some x
      | None => k pos s g
      end
  end.

(** [run r pos s g k] matches [r] against [s], the text that starts at
    offset [pos] of the subject, and hands the offset, text and groups
    after the match to [k]; when [k] fails the next way of matching [r]
    is tried. *)
Fixpoint run (r : regex) (pos : nat) (s : str) (g : groups)
    (k : nat -> str -> groups -> option A) {struct r} : option A :=
  match r with
  | Eps => k pos s g
  | Bol => if Nat.eqb pos 0 then k pos s g else None
  | Eol =>
      match s with
      | [] => k pos s g
      | [c] => if N.eqb c LINE_FEED then k pos s g else None
      | _ => None
      end
  | Cls p =>
      match s with
      | c :: s' => if p c then k (S pos) s' g else None
      | [] => None
      end
  | Cat r1 r2 => run r1 pos s g (fun pos' s' g' => run r2 pos' s' g' k)
  | Alt r1 r2 =>
      match run r1 pos s g k with
      | Some x => Some x
      | None => run r2 pos s g k
      end
  | Star r1 => star_loop (run r1) k (List.length s) pos s g
  | Grp name r1 =>
      run r1 pos s g
        (fun pos' s' g' => k pos' s' ((name, firstn (pos' - pos) s) :: g'))
  end.

End Matcher.

(** [pattern.match(s)]: the pattern must match at the start of [s]. *)
Definition re_match (r : regex) (s : str) : option Match :=
  run r 0 s [] (fun pos _ g => Some {| m_end := pos; m_groups := g |}).


(** [re.fullmatch(pattern, s)]: the match must reach the end of [s]. *)
Definition re_fullmatch (r : regex) (s : str) : option Match :=
  run r 0 s []
    (fun pos s' g =>
       match s' with
       | [] => Some {| m_end := pos; m_groups := g |}
       | _ => None
       end).

(** [m.group(name)]. *)
Fixpoint lookup (name : string) (g : groups) : str :=
  match g with
  | (n, v) :: g' => if String.eqb n name then v else lookup name g'
  | [] => []
  end.

Definition group (m : Match) (name : string) : str :=
  lookup name (m_groups m).

(** Pattern syntax used by the program. *)
Definition chr (c : char) : regex := Cls (N.eqb c).
Definition digit : regex := Cls is_decimal.             (* \d *)
Definition space : regex := Cls is_space.               (* \s *)
Definition opt (r : regex) : regex := Alt r Eps.        (* r? *)
Definition plus (r : regex) : regex := Cat r (Star r).  (* r+ *)
Definition range (lo hi : char) : regex :=              (* [lo-hi] *)
  Cls (fun c => N.leb lo c && N.leb c hi).

Fixpoint times (n : nat) (r : regex) : regex :=         (* r{n} *)
  match n with
  | O => Eps
  | S n' => Cat r (times n' r)
  end.

Fixpoint text (s : str) : regex :=                      (* literal text *)
  match s with
  | [] => Eps
  | c :: s' => Cat (chr c) (text s')
  end.

Fixpoint seq (rs : list regex) : regex :=
  match rs with
  | [] => Eps
  | r :: rs' => Cat r (seq rs')
  end.

End Re.

Import Re.

(** ** The line grammar *)

Local Open Scope string_scope.
Local Open Scope list_scope.

(** [CLOCK_PATTERN = r"\d{2}(?::|h)\d{2}h?"] *)
Definition CLOCK_PATTERN : regex :=
  seq [ times 2 digit; Alt (chr COLON) (chr LETTER_h); times 2 digit;
        opt (chr LETTER_h) ].

(** The class [[-–]]: a hyphen or an en dash (U+2013). *)
Definition is_dash (c : char) : bool := N.eqb c HYPHEN || N.eqb c EN_DASH.
Definition dash : regex := Cls is_dash.

(** [LOG_PATTERN]:
    [^(?P<clock>CLOCK)\s*[-–]\s*Abertura da tela de Despacho\s*[-–]\s*]
    [(?P<company>[A-Z]{3})\s*[-–]\s*EXCEDIDO EM:\s*(?P<percent>\d+)\s*%\s*$] *)
Definition LOG_PATTERN : regex :=
  seq [ Bol; Grp "clock" CLOCK_PATTERN; Star space; dash; Star space;
        text (lit "Abertura da tela de Despacho"); Star space; dash;
        Star space; Grp "company" (times 3 (range LETTER_A LETTER_Z)); Star space;
        dash; Star space; text (lit "EXCEDIDO EM:"); Star space;
        Grp "percent" (plus digit); Star space; chr PERCENT_SIGN; Star space; Eol ].

(** ** Exceptions *)

(** The two messages of [ParseError], by the values their f-strings
    interpolate:
    [f"Linha {line_number} não corresponde ao padrão esperado: {raw_line!r}"]
    and [f"Horário inválido: {clock!r}"]. *)
Inductive message : Type :=
| Linha_nao_corresponde (line_number : nat) (raw_line : str)
| Horario_invalido (clock : str).

(** [ParseError] is the program's own subclass of [ValueError]; a plain
    [ValueError] comes from [int] or [datetime.strptime], an
    [OverflowError] from date arithmetic. *)
Inductive exn : Type :=
| ParseError (msg : message)
| ValueError_int (digits : nat)
| ValueError_strptime (data : str)
| OverflowError.

Definition is_ParseError (e : exn) : bool :=
  match e with
  | ParseError _ => true
  | _ => false
  end.

Inductive result (A : Type) : Type :=
| Ok (a : A)
| Raise (e : exn).

Arguments Ok {A} a.
Arguments Raise {A} e.

Definition bind {A B : Type} (r : result A) (f : A -> result B) : result B :=
  match r with
  | Ok a => f a
  | Raise e => Raise e
  end.

Notation "x <- r ;; k" := (bind r (fun x => k))
  (at level 61, r at next level, right associativity).

(** ** Integers from text *)

(** The integer written by a run of decimal digits. *)
Definition decimal_int (s : str) : Z :=
  fold_left (fun acc c => (10 * acc + Z.of_N (decimal_value c))%Z) s 0%Z.

(** [int(s)] for [s] a run of decimal digits, which is all that [\d+] can
    capture. [max_str_digits] is the interpreter's
    [sys.get_int_max_str_digits()]: 4300 by default from Python 3.11 on,
    0 when the guard is switched off or absent; texts of up to 640 digits
    are never refused. *)
Definition int (max_str_digits : nat) (s : str) : result Z :=
  let digits := List.length s in
  if Nat.ltb 640 digits && Nat.ltb 0 max_str_digits
     && Nat.ltb max_str_digits digits
  then Raise (ValueError_int digits)
  else Ok (decimal_int s).

(** ** Dates and times ([datetime])

    Dates are kept as year, month and day and converted through their
    ordinal, with the algorithms of the [datetime] module ([_ymd2ord],
    [_ord2ymd]). *)

Module Datetime.

Local Open Scope Z_scope.

Record date : Type := { year : Z; month : Z; day : Z }.

Record time : Type :=
  { hour : Z; minute : Z; second : Z; microsecond : Z }.

(** A naive [datetime]: a calendar date and a time of day. *)
Record datetime : Type := { dt_date : date; dt_time : time }.

(** [datetime.combine(d, t)] *)
Definition combine (d : date) (t : time) : datetime :=
  {| dt_date := d; dt_time := t |}.

(** A normalised [timedelta]. *)
Record timedelta : Type :=
  { td_days : Z; td_seconds : Z; td_microseconds : Z }.

Definition timedelta_days (n : Z) : timedelta :=
  {| td_days := n; td_seconds := 0; td_microseconds := 0 |}.

(** [timedelta(hours=n)] for [0 <= n < 24]. *)
Definition timedelta_hours (n : Z) : timedelta :=
  {| td_days := 0; td_seconds := n * 3600; td_microseconds := 0 |}.

Definition MAXORDINAL : Z := 3652059.   (* date.max.toordinal() *)

Definition is_leap (y : Z) : bool :=
  (y mod 4 =? 0) && (negb (y mod 100 =? 0) || (y mod 400 =? 0)).

Definition days_before_year (y : Z) : Z :=
  let y := y - 1 in
  y * 365 + y / 4 - y / 100 + y / 400.

(** [_DAYS_IN_MONTH] and [_DAYS_BEFORE_MONTH], indexed from 1. *)
Definition DAYS_IN_MONTH (m : Z) : Z :=
  nth (Z.to_nat m) [0; 31; 28; 31; 30; 31; 30; 31; 31; 30; 31; 30; 31] 0.

Definition DAYS_BEFORE_MONTH (m : Z) : Z :=
  nth (Z.to_nat m)
    [0; 0; 31; 59; 90; 120; 151; 181; 212; 243; 273; 304; 334] 0.

Definition days_in_month (y m : Z) : Z :=
  if (m =? 2) && is_leap y then 29 else DAYS_IN_MONTH m.

Definition days_before_month (y m : Z) : Z :=
  DAYS_BEFORE_MONTH m + (if (2 <? m) && is_leap y then 1 else 0).

(** The values a [date] object can hold. *)
Definition valid_date (d : date) : Prop :=
  1 <= year d <= 9999 /\ 1 <= month d <= 12 /\
  1 <= day d <= days_in_month (year d) (month d).

(** [d.toordinal()]: 1 for 0001-01-01. *)
Definition toordinal (d : date) : Z :=
  days_before_year (year d) + days_before_month (year d) (month d) + day d.

(** [date.fromordinal(n)] *)
Definition fromordinal (n : Z) : date :=
  let n := n - 1 in
  let n400 := n / 146097 in
  let n := n mod 146097 in
  let y := n400 * 400 + 1 in
  let n100 := n / 36524 in
  let n := n mod 36524 in
  let n4 := n / 1461 in
  let n := n mod 1461 in
  let n1 := n / 365 in
  let n := n mod 365 in
  let y := y + n100 * 100 + n4 * 4 + n1 in
  if (n1 =? 4) || (n100 =? 4) then
    {| year := y - 1; month := 12; day := 31 |}
  else
    let leapyear := (n1 =? 3) && (negb (n4 =? 24) || (n100 =? 3)) in
    let m := Z.shiftr (n + 50) 5 in
    let preceding :=
      DAYS_BEFORE_MONTH m + (if (2 <? m) && leapyear then 1 else 0) in
    if n <? preceding then
      let m := m - 1 in
      let preceding :=
        preceding
        - (DAYS_IN_MONTH m + (if (m =? 2) && leapyear then 1 else 0)) in
      {| year := y; month := m; day := n - preceding + 1 |}
    else
      {| year := y; month := m; day := n - preceding + 1 |}.

(** [d + delta] on dates: only the days of [delta] count. *)
Definition date_add (d : date) (delta : timedelta) : result date :=
  let o := toordinal d + td_days delta in
  if (0 <? o) && (o <=? MAXORDINAL) then Ok (fromordinal o)
  else Raise OverflowError.

(** [dt + delta] on datetimes. *)
Definition datetime_add (dt : datetime) (delta : timedelta)
  : result datetime :=
  let t := dt_time dt in
  let us := microsecond t + td_microseconds delta in
  let s := hour t * 3600 + minute t * 60 + second t + td_seconds delta
           + us / 1000000 in
  let days := toordinal (dt_date dt) + td_days delta + s / 86400 in
  let s := s mod 86400 in
  if (0 <? days) && (days <=? MAXORDINAL) then
    Ok (combine (fromordinal days)
          {| hour := s / 3600; minute := (s mod 3600) / 60;
             second := s mod 60; microsecond := us mod 1000000 |})
  else Raise OverflowError.

(** [t1 < t2] on naive times: the order of
    [(hour, minute, second, microsecond)]. *)
Definition time_lt (t1 t2 : time) : bool :=
  (hour t1 <? hour t2)
  || ((hour t1 =? hour t2)
      && ((minute t1 <? minute t2)
          || ((minute t1 =? minute t2)
              && ((second t1 <? second t2)
                  || ((second t1 =? second t2)
                      && (microsecond t1 <? microsecond t2)))))).

Definition time_le (t1 t2 : time) : bool := negb (time_lt t2 t1).

(** The pattern [_strptime] builds for the format ["%H:%M"]:
    [(?P<H>2[0-3]|[0-1]\d|\d):(?P<M>[0-5]\d|\d)]. *)
Definition HM_PATTERN : regex :=
  seq [ Grp "H" (Alt (Cat (chr DIGIT_2) (range DIGIT_0 DIGIT_3))
                   (Alt (Cat (range DIGIT_0 DIGIT_1) digit) digit));
        chr COLON;
        Grp "M" (Alt (Cat (range DIGIT_0 DIGIT_5) digit) digit) ].

(** [datetime.strptime(data, "%H:%M").time()]: the text must match the
    pattern of the format with nothing left over; the fields convert with
    [int] (two digits at most, below any conversion limit). *)
Definition strptime_HM (data : str) : result time :=
  match re_match HM_PATTERN data with
  | None => Raise (ValueError_strptime data)
  | Some found =>
      if Nat.eqb (List.length data) (m_end found) then
        Ok {| hour := decimal_int (group found "H");
              minute := decimal_int (group found "M");
              second := 0; microsecond := 0 |}
      else Raise (ValueError_strptime data)
  end.

(** Decimal numerals. *)
Fixpoint numeral_aux (fuel : nat) (n : N) (acc : str) : str :=
  match fuel with
  | O => acc
  | S fuel' =>
      let acc' := (DIGIT_0 + n mod 10)%N :: acc in
      if (n / 10 =? 0)%N then acc' else numeral_aux fuel' (n / 10)%N acc'
  end.

Definition numeral (n : Z) : str :=
  numeral_aux (S (N.size_nat (Z.to_N n))) (Z.to_N n) [].

(** A two-digit field ([%m], [%d], [%H], [%M]). *)
Definition two_digits (n : Z) : str :=
  [ (DIGIT_0 + Z.to_N (n / 10))%N; (DIGIT_0 + Z.to_N (n mod 10))%N ].

(** [dt.strftime("%Y-%m-%dT%H:%MZ")]. [%Y] is the numeral of the year as
    the C library prints it; from year 1000 on every platform prints the
    same four digits. *)
Definition strftime_minutes_Z (dt : datetime) : str :=
  numeral (year (dt_date dt)) ++ lit "-" ++ two_digits (month (dt_date dt))
  ++ lit "-" ++ two_digits (day (dt_date dt)) ++ lit "T"
  ++ two_digits (hour (dt_time dt)) ++ lit ":"
  ++ two_digits (minute (dt_time dt)) ++ lit "Z".

End Datetime.

Import Datetime.

(** ** The program *)

(** [DispatchRecord] *)
Record DispatchRecord : Type :=
  { timestamp : datetime; company : str; exceeded_percent : Z }.

(** [DispatchRecord.adjusted_iso] *)
Definition adjusted_iso (self : DispatchRecord) : result str :=
  adjusted <- datetime_add (timestamp self) (timedelta_hours 3) ;;
  Ok (strftime_minutes_Z adjusted).

(** The pattern [r"\d{2}:\d{2}"] of [_normalize_clock]. *)
Definition NORMALIZED_PATTERN : regex :=
  seq [ times 2 digit; chr COLON; times 2 digit ].

(** [_normalize_clock] *)
Definition _normalize_clock (clock : str) : result str :=
  let normalized := lower (strip clock) in
  let normalized :=
    if endswith normalized LETTER_h then removelast normalized
    else normalized in
  let normalized := replace LETTER_h COLON normalized in
  match re_fullmatch NORMALIZED_PATTERN normalized with
  | None => Raise (ParseError (Horario_invalido clock))
  | Some _ => Ok normalized
  end.

(** The variables of [parse_records] that live across iterations. *)
Record loop_state : Type :=
  { records : list DispatchRecord;
    current_date : date;
    previous_clock : option time }.

Section Interpreter.

(** [sys.get_int_max_str_digits()] of the interpreter that runs the
    program (see [int]). *)
Variable max_str_digits : nat.

(** One iteration of the loop of [parse_records]. A [time] object is true
    whatever its value (midnight too, since Python 3.5), so
    [previous_clock and ...] asks only whether a previous clock exists.
    [continue] ends the iteration with the state as it is. *)
Definition loop_body (st : loop_state) (line_number : nat) (raw_line : str)
  : result loop_state :=
  let line := strip raw_line in
  match line with
  | [] => Ok st
  | _ =>
      match re_match LOG_PATTERN line with
      | None => Raise (ParseError (Linha_nao_corresponde line_number raw_line))
      | Some m =>
          let clock_str := group m "clock" in
          let company := group m "company" in
          percent <- int max_str_digits (group m "percent") ;;
          normalized_clock <- _normalize_clock clock_str ;;
          clock_time <- strptime_HM normalized_clock ;;
          current_date <-
            match previous_clock st with
            | Some previous =>
                if time_lt clock_time previous
                then date_add (current_date st) (timedelta_days 1)
                else Ok (current_date st)
            | None => Ok (current_date st)
            end ;;
          let timestamp := combine current_date clock_time in
          Ok {| records :=
                  records st
                  ++ [ {| timestamp := timestamp; company := company;
                          exceeded_percent := percent |} ];
                current_date := current_date;
                previous_clock := Some clock_time |}
      end
  end.

(** [for line_number, raw_line in enumerate(lines, start=...)] *)
Fixpoint loop (line_number : nat) (lines : list str) (st : loop_state)
  : result loop_state :=
  match lines with
  | [] => Ok st
  | raw_line :: lines' =>
      st' <- loop_body st line_number raw_line ;;
      loop (S line_number) lines' st'
  end.

(** [parse_records] *)
Definition parse_records (lines : list str) (shift_date : date)
  : result (list DispatchRecord) :=
  st <- loop 1 lines
          {| records := []; current_date := shift_date;
             previous_clock := None |} ;;
  Ok (records st).

End Interpreter.

(** ** Lists, ranges and lines of text *)

(** [range(start, stop, step)], as the list of its values; [None] stands
    for the [ValueError] that a zero step raises. *)
Fixpoint range_up (fuel : nat) (start stop step : Z) : list Z :=
  match fuel with
  | O => []
  | S fuel' =>
      if (start <? stop)%Z
      then start :: range_up fuel' (start + step)%Z stop step
      else []
  end.

Fixpoint range_down (fuel : nat) (start stop step : Z) : list Z :=
  match fuel with
  | O => []
  | S fuel' =>
      if (stop <? start)%Z
      then start :: range_down fuel' (start + step)%Z stop step
      else []
  end.

Definition range_list (start stop step : Z) : option (list Z) :=
  if (step =? 0)%Z then None
  else if (0 <? step)%Z
       then Some (range_up (Z.to_nat (stop - start)) start stop step)
       else Some (range_down (Z.to_nat (start - stop)) start stop step).

(** How a slice bound is brought into a sequence of length [len]: a
    negative bound counts from the end, and both ends are clipped. *)
Definition slice_index (len i : Z) : Z :=
  if (i <? 0)%Z then Z.max (i + len) 0 else Z.min i len.

(** [l[a:b]] *)
Definition slice {A : Type} (l : list A) (a b : Z) : list A :=
  let len := Z.of_nat (List.length l) in
  let a' := slice_index len a in
  let b' := slice_index len b in
  firstn (Z.to_nat (b' - a')) (skipn (Z.to_nat a') l).

(** The line boundaries of [str.splitlines()]. *)
Definition is_linebreak (c : char) : bool :=
  in_ranges [ (0xa, 0xd); (0x1c, 0x1e); (0x85, 0x85); (0x2028, 0x2029) ]%N c.

(** [text.splitlines()]: [line] holds, last character first, the
    characters of the line being read; a carriage return followed by a
    line feed is one boundary, and a boundary at the very end opens no
    further line. *)
Fixpoint splitlines_from (line : str) (text : str) : list str :=
  match text with
  | [] =>
      match line with
      | [] => []
      | _ => [rev line]
      end
  | c :: text' =>
      if is_linebreak c then
        rev line
        :: match text' with
           | c' :: text'' =>
               if N.eqb c 0xd && N.eqb c' LINE_FEED
               then splitlines_from [] text''
               else splitlines_from [] text'
           | [] => splitlines_from [] text'
           end
      else splitlines_from (c :: line) text'
  end.

Definition splitlines (text : str) : list str := splitlines_from [] text.

(** ** The export *)

(** What the export can raise: one of the exceptions above, the
    [ValueError] of [range] for a zero step, and the exceptions of
    openpyxl: the [ValueError] for a cell outside the rows 1 to 1048576 or
    left of column 1, the [IllegalCharacterError] for a text with a control
    character, and the [ValueError] for a column index outside 1 to 18278
    (columns A to ZZZ). *)
Inductive export_exn : Type :=
| Raised (e : exn)
| ValueError_range_step
| ValueError_cell (row column : Z)
| IllegalCharacterError (value : str)
| ValueError_column (idx : Z).

Inductive outcome (E A : Type) : Type :=
| Returns (a : A)
| Raises (e : E).

Arguments Returns {E A} a.
Arguments Raises {E A} e.

Definition and_then {E A B : Type} (r : outcome E A)
    (f : A -> outcome E B) : outcome E B :=
  match r with
  | Returns a => f a
  | Raises e => Raises e
  end.

Notation "x <~ r ;; k" := (and_then r (fun x => k))
  (at level 61, r at next level, right associativity).

(** [for i, x in enumerate(xs, start=start): st = body(st, i, x)] *)
Fixpoint for_enumerate {E A S : Type} (start : Z) (xs : list A)
    (body : S -> Z -> A -> outcome E S) (st : S) : outcome E S :=
  match xs with
  | [] => Returns st
  | x :: xs' =>
      st' <~ body st start x ;;
      for_enumerate (start + 1)%Z xs' body st'
  end.

(** [_record_blocks]. The generator has no effect of its own, and the one
    exception it can raise, that of [range], comes when its first block
    is asked for; it is given here by the list of its blocks. *)
Definition _record_blocks {A : Type} (records : list A) (block_size : Z)
  : outcome export_exn (list (list A)) :=
  match range_list 0 (Z.of_nat (List.length records)) block_size with
  | None => Raises ValueError_range_step
  | Some starts =>
      Returns
        (map (fun start => slice records start (start + block_size)%Z)
           starts)
  end.

(** A worksheet of openpyxl, as far as the program uses one: its title,
    the values its cells were given, in the order of the assignments (a
    later assignment to the same cell wins), and the widths its columns
    were given, by column letters. *)
Inductive cell_value : Type :=
| Text (s : str)
| Number (n : Z).

Record worksheet : Type :=
  { ws_title : str;
    ws_cells : list (Z * Z * cell_value);
    ws_widths : list (str * Z) }.

(** The characters openpyxl refuses in a text: the control characters
    other than tab, line feed and carriage return. *)
Definition is_illegal_character (c : char) : bool :=
  in_ranges [ (0x0, 0x8); (0xb, 0xc); (0xe, 0x1f) ]%N c.

(** A text is cut to the 32767 characters a cell can hold and then
    checked. *)
Definition check_string (value : str) : outcome export_exn str :=
  let value := firstn (Z.to_nat 32767) value in
  if existsb is_illegal_character value
  then Raises (IllegalCharacterError value)
  else Returns value.

(** What a cell keeps of the value it is given. *)
Definition bind_value (value : cell_value) : outcome export_exn cell_value :=
  match value with
  | Text s => s' <~ check_string s ;; Returns (Text s')
  | Number n => Returns (Number n)
  end.

(** [sheet.cell(row=row, column=column).value = value], for a [value]
    already computed: the cell is looked up, or made, which openpyxl (3.1)
    refuses left of column 1 and outside the rows 1 to 1048576, and then
    given the value. *)
Definition set_cell (sheet : worksheet) (row column : Z) (value : cell_value)
  : outcome export_exn worksheet :=
  if (row <? 1)%Z || (column <? 1)%Z || (1048576 <? row)%Z
  then Raises (ValueError_cell row column)
  else
    kept <~ bind_value value ;;
    Returns {| ws_title := ws_title sheet;
               ws_cells := ws_cells sheet ++ [(row, column, kept)];
               ws_widths := ws_widths sheet |}.

(** The letters of a column, last letter first in the making. *)
Fixpoint column_letters (fuel : nat) (col_idx : Z) (letters : str) : str :=
  match fuel with
  | O => letters
  | S fuel' =>
      if (0 <? col_idx)%Z then
        let q := (col_idx / 26)%Z in
        let r := (col_idx mod 26)%Z in
        if (r =? 0)%Z
        then column_letters fuel' (q - 1)%Z (Z.to_N (26 + 64) :: letters)
        else column_letters fuel' q (Z.to_N (r + 64) :: letters)
      else letters
  end.

(** [get_column_letter(idx)] of openpyxl: the letters of columns 1 to
    18278, three at most. *)
Definition get_column_letter (idx : Z) : outcome export_exn str :=
  if (1 <=? idx)%Z && (idx <=? 18278)%Z
  then Returns (column_letters 3 idx [])
  else Raises (ValueError_column idx).

(** [sheet.column_dimensions[letter].width = width] *)
Definition set_width (sheet : worksheet) (letter : str) (width : Z)
  : worksheet :=
  {| ws_title := ws_title sheet; ws_cells := ws_cells sheet;
     ws_widths := ws_widths sheet ++ [(letter, width)] |}.

Definition lift {A : Type} (r : result A) : outcome export_exn A :=
  match r with
  | Ok a => Returns a
  | Raise e => Raises (Raised e)
  end.

Definition headers : list str :=
  [ lit "Data/Hora (UTC)"; lit "Empresa"; lit "Excedido (%)" ].

(** [float(n)] for an integer [n], the conversion that the number format
    ["%.16g"] makes first: it raises [OverflowError] from 2^1024 - 2^970
    on, where rounding to the 53 bits of a double leaves its range. *)
Definition converts_to_float (n : Z) : bool :=
  (Z.abs n <? 2 ^ 1024 - 2 ^ 970)%Z.

(** [workbook.save(output_path)], as far as it depends on the cells:
    openpyxl writes the number of a cell with the format ["%.16g"]. The
    texts are taken to be of ASCII characters, as are the headers, the
    adjusted texts and the companies that parsing gives; such texts are
    written as they are. Failures of the file system are left out. *)
Definition save (sheet : worksheet) : outcome export_exn unit :=
  if forallb
       (fun cell =>
          match snd cell with
          | Number n => converts_to_float n
          | Text _ => true
          end)
       (ws_cells sheet)
  then Returns tt
  else Raises (Raised OverflowError).

(** [export_to_excel]: the worksheet that is saved, or the exception that
    ends the export. *)
Definition export_to_excel (records : list DispatchRecord)
    (max_per_table : Z) : outcome export_exn worksheet :=
  let sheet :=
    {| ws_title := lit "Despacho"; ws_cells := []; ws_widths := [] |} in
  let table_width := Z.of_nat (List.length headers) in
  blocks <~ _record_blocks records max_per_table ;;
  sheet <~
    for_enumerate 0 blocks
      (fun sheet block_index block =>
         let start_column := (block_index * (table_width + 1) + 1)%Z in
         sheet <~ for_enumerate 0 headers
                    (fun sheet offset header =>
                       set_cell sheet 1 (start_column + offset)%Z
                         (Text header))
                    sheet ;;
         sheet <~ for_enumerate 2 block
                    (fun sheet row_offset record =>
                       value <~ lift (adjusted_iso record) ;;
                       sheet <~ set_cell sheet row_offset start_column
                                  (Text value) ;;
                       sheet <~ set_cell sheet row_offset
                                  (start_column + 1)%Z
                                  (Text (company record)) ;;
                       set_cell sheet row_offset (start_column + 2)%Z
                         (Number (exceeded_percent record)))
                    sheet ;;
         spacer_column <~ get_column_letter (start_column + table_width)%Z ;;
         Returns (set_width sheet spacer_column 2))
      sheet ;;
  done <~ save sheet ;;
  Returns sheet.

(** ** The command line *)

Inductive main_exn : Type :=
| In_parse (e : exn)
| In_export (e : export_exn).

(** [main], once [argparse] has delivered the shift date and the table
    size and the text of the input file or of STDIN is read: the worksheet
    saved and the number of records the last message reports, or the
    exception that ends the program. *)
Definition main (max_str_digits : nat) (text : str) (shift_date : date)
    (max_per_table : Z) : outcome main_exn (worksheet * nat) :=
  let lines := splitlines text in
  match parse_records max_str_digits lines shift_date with
  | Raise e => Raises (In_parse e)
  | Ok records =>
      match export_to_excel records max_per_table with
      | Raises e => Raises (In_export e)
      | Returns sheet => Returns (sheet, List.length records)
      end
  end.

(** ** Vocabulary of the properties *)

(** *** The two halves of an iteration

    An iteration first reads the line (lines 87 to 102 of the source) and
    then moves the date cursor and appends the record (lines 103 to 108).
    [loop_body_split] below shows that [loop_body] is the one after the
    other. *)

(** What a line contributes: the specification's [DispatchEvent]. *)
Record event : Type :=
  { clock_time : time; ev_company : str; ev_percent : Z }.

(** Reading a line: [None] for a blank line. *)
Definition decode_line (max_str_digits : nat) (line_number : nat)
    (raw_line : str) : result (option event) :=
  match strip raw_line with
  | [] => Ok None
  | line =>
      match re_match LOG_PATTERN line with
      | None => Raise (ParseError (Linha_nao_corresponde line_number raw_line))
      | Some m =>
          percent <- int max_str_digits (group m "percent") ;;
          normalized_clock <- _normalize_clock (group m "clock") ;;
          t <- strptime_HM normalized_clock ;;
          Ok (Some {| clock_time := t; ev_company := group m "company";
                      ev_percent := percent |})
      end
  end.

Definition record_on (d : date) (e : event) : DispatchRecord :=
  {| timestamp := combine d (clock_time e); company := ev_company e;
     exceeded_percent := ev_percent e |}.

(** Moving the cursor and appending the record. *)
Definition advance (st : loop_state) (e : event) : result loop_state :=
  d <- match previous_clock st with
       | Some previous =>
           if time_lt (clock_time e) previous
           then date_add (current_date st) (timedelta_days 1)
           else Ok (current_date st)
       | None => Ok (current_date st)
       end ;;
  Ok {| records := records st ++ [record_on d e]; current_date := d;
        previous_clock := Some (clock_time e) |}.

(** The events of an input, in order, when every line can be read. *)
Fixpoint decode_lines (max_str_digits : nat) (line_number : nat)
    (lines : list str) : result (list event) :=
  match lines with
  | [] => Ok []
  | raw_line :: lines' =>
      e <- decode_line max_str_digits line_number raw_line ;;
      es <- decode_lines max_str_digits (S line_number) lines' ;;
      Ok (match e with Some e => e :: es | None => es end)
  end.

Definition event_of (r : DispatchRecord) : event :=
  {| clock_time := dt_time (timestamp r); ev_company := company r;
     ev_percent := exceeded_percent r |}.

Definition is_blank (raw_line : str) : bool :=
  match strip raw_line with
  | [] => true
  | _ => false
  end.

(** No clock time is earlier than the one before it. *)
Fixpoint nondecreasing (ts : list time) : Prop :=
  match ts with
  | t1 :: ((t2 :: _) as ts') => time_lt t2 t1 = false /\ nondecreasing ts'
  | _ => True
  end.

(** The clock times of a run: the last one seen, then those of the events
    to come. *)
Definition trail (previous : option time) (es : list event) : list time :=
  match previous with
  | Some t => t :: map clock_time es
  | None => map clock_time es
  end.

(** *** Dates and times in range *)

Definition ymd (y m d : Z) : date := {| year := y; month := m; day := d |}.

Definition hm (h m : Z) : time :=
  {| hour := h; minute := m; second := 0; microsecond := 0 |}.

Definition valid_time (t : time) : Prop :=
  (0 <= hour t <= 23 /\ 0 <= minute t <= 59 /\ 0 <= second t <= 59
   /\ 0 <= microsecond t <= 999999)%Z.

Definition valid_datetime (dt : datetime) : Prop :=
  valid_date (dt_date dt) /\ valid_time (dt_time dt).

(** The minute a datetime falls in, counted from the start of day 0. *)
Definition minute_index (dt : datetime) : Z :=
  ((toordinal (dt_date dt) * 24 + hour (dt_time dt)) * 60
   + minute (dt_time dt))%Z.

(** The datetime at the start of minute [k] (see [minute_index]). *)
Definition minute_datetime (k : Z) : datetime :=
  combine (fromordinal (k / 1440)) (hm ((k mod 1440) / 60) (k mod 60)).

(** The day of the year. *)

Module DayOfYear.

Local Open Scope Z_scope.

(** Month and day of the [n]-th day of a year, counted from 0: the tail of
    [fromordinal]. *)
Definition yday_month (leap : bool) (n : Z) : Z * Z :=
  let m := Z.shiftr (n + 50) 5 in
  let preceding :=
    DAYS_BEFORE_MONTH m + (if (2 <? m) && leap then 1 else 0) in
  if n <? preceding then
    let m := m - 1 in
    let preceding :=
      preceding - (DAYS_IN_MONTH m + (if (m =? 2) && leap then 1 else 0)) in
    (m, n - preceding + 1)
  else (m, n - preceding + 1).

Definition yday_ok (leap : bool) (n : Z) : bool :=
  let (m, d) := yday_month leap n in
  (1 <=? m) && (m <=? 12) && (1 <=? d)
  && (d <=? (if (m =? 2) && leap then 29 else DAYS_IN_MONTH m))
  && (DAYS_BEFORE_MONTH m + (if (2 <? m) && leap then 1 else 0) + d =? n + 1).

End DayOfYear.

Import DayOfYear.

(** *** Clocks *)

(** The text [_normalize_clock] tests: [clock] stripped, lowered, without a
    trailing [h], and with every [h] turned into a colon. *)
Definition trimmed_clock (clock : str) : str :=
  let normalized := lower (strip clock) in
  let normalized :=
    if endswith normalized LETTER_h then removelast normalized
    else normalized in
  replace LETTER_h COLON normalized.

(** Two digits, a colon, two digits: [\d{2}:\d{2}] and nothing else. *)
Definition is_HH_MM (s : str) : bool :=
  match s with
  | [a; b; sep; c; d] =>
      is_decimal a && is_decimal b && N.eqb COLON sep && is_decimal c
      && is_decimal d
  | _ => false
  end.

(** The hour and the minute a normalised clock writes. *)
Definition clock_hour (normalized : str) : Z :=
  decimal_int (firstn 2 normalized).

Definition clock_minute (normalized : str) : Z :=
  decimal_int (skipn 3 normalized).

(** The hour field is [2] and a digit [0]-[3], or [0] or [1] and any
    digit. *)
Definition hour_field_ok (a b : char) : bool :=
  (N.eqb DIGIT_2 a && (N.leb DIGIT_0 b && N.leb b DIGIT_3))
  || (N.leb DIGIT_0 a && N.leb a DIGIT_1).

(** The minute field starts with a digit [0]-[5]. *)
Definition minute_field_ok (c : char) : bool :=
  N.leb DIGIT_0 c && N.leb c DIGIT_5.

(** *** The shape of the lines of the grammar *)

Definition is_upper (c : char) : bool := N.leb LETTER_A c && N.leb c LETTER_Z.

(** The characters the grammar spells out: white space, the dashes, the
    colon, the percent sign and the ASCII letters. None is a digit. *)
Definition non_digit_ranges : list (N * N) :=
  whitespace_ranges
  ++ [ (0x25, 0x25); (0x2d, 0x2d); (0x3a, 0x3a); (0x41, 0x5a); (0x61, 0x7a);
       (0x2013, 0x2013) ]%N.

(** A clock as the grammar writes it: two digits, a colon or an [h], two
    digits and an optional [h]. *)
Inductive clock_token : str -> Prop :=
| clock_token_intro (a b sep c d : char) (tail : str) :
    is_decimal a = true -> is_decimal b = true ->
    sep = COLON \/ sep = LETTER_h ->
    is_decimal c = true -> is_decimal d = true ->
    tail = [] \/ tail = [LETTER_h] ->
    clock_token ([a; b; sep; c; d] ++ tail).

(** A line made of the three tokens with the fixed words, dashes and
    optional white space of the grammar between them. *)
Inductive line_shape (clock company percent : str) : str -> Prop :=
| line_shape_intro (ws1 ws2 ws3 ws4 ws5 ws6 ws7 ws8 ws9 : str)
    (d1 d2 d3 : char) :
    clock_token clock ->
    List.length company = 3%nat -> forallb is_upper company = true ->
    percent <> [] -> forallb is_decimal percent = true ->
    forallb is_space (ws1 ++ ws2 ++ ws3 ++ ws4 ++ ws5 ++ ws6 ++ ws7 ++ ws8
                      ++ ws9) = true ->
    is_dash d1 = true -> is_dash d2 = true -> is_dash d3 = true ->
    line_shape clock company percent
      (clock ++ ws1 ++ [d1] ++ ws2 ++ lit "Abertura da tela de Despacho"
       ++ ws3 ++ [d2] ++ ws4 ++ company ++ ws5 ++ [d3] ++ ws6
       ++ lit "EXCEDIDO EM:" ++ ws7 ++ percent ++ ws8 ++ [PERCENT_SIGN] ++ ws9).

(** [line] writes the event [e]: it has the shape of the grammar, with the
    company of [e], a clock that normalises to the clock time of [e] and a
    percent that converts to the percent of [e]. *)
Definition writes (max_str_digits : nat) (line : str) (e : event) : Prop :=
  exists clock percent normalized,
    line_shape clock (ev_company e) percent line
    /\ int max_str_digits percent = Ok (ev_percent e)
    /\ _normalize_clock clock = Ok normalized
    /\ strptime_HM normalized = Ok (clock_time e).

(** The events a line can write. *)
Definition valid_event (e : event) : Prop :=
  (0 <= hour (clock_time e) <= 23 /\ 0 <= minute (clock_time e) <= 59
   /\ second (clock_time e) = 0 /\ microsecond (clock_time e) = 0)%Z
  /\ List.length (ev_company e) = 3%nat
  /\ forallb is_upper (ev_company e) = true
  /\ (0 <= ev_percent e)%Z.

(** The line that writes an event in the plainest way: colon clock, single
    spaces, hyphens, the percent without leading zeros. *)
Definition render (e : event) : str :=
  two_digits (hour (clock_time e)) ++ lit ":"
  ++ two_digits (minute (clock_time e))
  ++ lit " - Abertura da tela de Despacho - " ++ ev_company e
  ++ lit " - EXCEDIDO EM: " ++ numeral (ev_percent e) ++ lit "%".

(** Following the specification's words, "modulo normalization of the clock
    separator": the line with its leading clock replaced by the normal form
    of that clock; two lines are equal up to the clock separator when this
    gives the same text. *)
Definition clock_normal_form (line : str) : str :=
  match re_match (Grp "clock" CLOCK_PATTERN) line with
  | Some m =>
      match _normalize_clock (group m "clock") with
      | Ok normalized => normalized ++ skipn (m_end m) line
      | Raise _ => line
      end
  | None => line
  end.

(** *** Matching *)

(** What it means for a pattern to match.
    [matches r pos g w s g']: at offset [pos], with groups [g] recorded,
    [r] can consume [w] in front of [s] and leave the groups [g']. *)
Inductive matches : regex -> nat -> groups -> str -> str -> groups -> Prop :=
| M_Eps pos g s : matches Eps pos g [] s g
| M_Bol g s : matches Bol 0 g [] s g
| M_Eol pos g s : s = [] \/ s = [LINE_FEED] -> matches Eol pos g [] s g
| M_Cls p pos g c s : p c = true -> matches (Cls p) pos g [c] s g
| M_Cat r1 r2 pos g w1 w2 s g1 g2 :
    matches r1 pos g w1 (w2 ++ s) g1 ->
    matches r2 (pos + List.length w1) g1 w2 s g2 ->
    matches (Cat r1 r2) pos g (w1 ++ w2) s g2
| M_AltL r1 r2 pos g w s g' :
    matches r1 pos g w s g' -> matches (Alt r1 r2) pos g w s g'
| M_AltR r1 r2 pos g w s g' :
    matches r2 pos g w s g' -> matches (Alt r1 r2) pos g w s g'
| M_Star0 r pos g s : matches (Star r) pos g [] s g
| M_StarS r pos g w1 w2 s g1 g2 :
    matches r pos g w1 (w2 ++ s) g1 ->
    matches (Star r) (pos + List.length w1) g1 w2 s g2 ->
    matches (Star r) pos g (w1 ++ w2) s g2
| M_Grp name r pos g w s g' :
    matches r pos g w s g' ->
    matches (Grp name r) pos g w s ((name, w) :: g').

Definition sound_at (A : Type) (r : regex)
    (f : nat -> str -> groups -> (nat -> str -> groups -> option A)
         -> option A) : Prop :=
  forall pos s g k x,
    f pos s g k = Some x ->
    exists w s' g',
      s = w ++ s' /\ matches r pos g w s' g'
      /\ k (pos + List.length w)%nat s' g' = Some x.

(** [finds r pos w s g g']: run on [w ++ s], the matcher's first way of
    matching [r] consumes exactly [w], as long as the rest of the pattern
    accepts what follows. *)
Definition finds (r : regex) (pos : nat) (w s : str) (g g' : groups) : Prop :=
  forall (A : Type) (k : nat -> str -> groups -> option A) (x : A),
    k (pos + List.length w)%nat s g' = Some x ->
    run r pos (w ++ s) g k = Some x.

(** The text [s] does not go on with a character of the class [p]. *)
Definition stops (p : char -> bool) (s : str) : Prop :=
  match s with
  | [] => True
  | c :: _ => p c = false
  end.

(** *** The examples of the specification *)

(** A line of the log for company ABC, 10 % exceeded, at the given clock. *)
Definition example_line (clock : string) : str :=
  lit (clock ++ " - Abertura da tela de Despacho - ABC - EXCEDIDO EM: 10 %").

(** The same line without the space before the percent sign. *)
Definition example_line_tight (clock : string) : str :=
  lit (clock ++ " - Abertura da tela de Despacho - ABC - EXCEDIDO EM: 10%").

Definition example_record (d : date) (t : time) : DispatchRecord :=
  {| timestamp := combine d t; company := lit "ABC";
     exceeded_percent := 10 |}.

(** *** Runs of events *)

(** The second half of the iterations, for a list of events. *)
Fixpoint sequence_events (st : loop_state) (es : list event)
  : result loop_state :=
  match es with
  | [] => Ok st
  | e :: es' => st' <- advance st e ;; sequence_events st' es'
  end.

(** Each element is related to the next. *)
Fixpoint chained {A : Type} (R : A -> A -> Prop) (l : list A) : Prop :=
  match l with
  | a :: ((b :: _) as l') => R a b /\ chained R l'
  | _ => True
  end.

(** [dt2] is at or after [dt1] and less than a day after it. *)
Definition within_a_day (dt1 dt2 : datetime) : Prop :=
  (0 <= minute_index dt2 - minute_index dt1 < 1440)%Z.

(** The number of times a clock time is earlier than the one before. *)
Fixpoint descents (ts : list time) : Z :=
  match ts with
  | t1 :: ((t2 :: _) as ts') =>
      ((if time_lt t2 t1 then 1 else 0) + descents ts')%Z
  | _ => 0%Z
  end.

(** A time of day on the minute. *)
Definition on_the_minute (t : time) : Prop :=
  (0 <= hour t <= 23 /\ 0 <= minute t <= 59 /\ second t = 0
   /\ microsecond t = 0)%Z.

(** The datetime of the cursor, once a line has been read. *)
Definition cursor (st : loop_state) : list datetime :=
  match previous_clock st with
  | Some previous => [combine (current_date st) previous]
  | None => []
  end.

(** Two outcomes of parsing that differ at most in the message of a
    [ParseError]. *)
Definition same_but_message {A : Type} (r1 r2 : result A) : Prop :=
  match r1, r2 with
  | Ok a1, Ok a2 => a1 = a2
  | Raise (ParseError _), Raise (ParseError _) => True
  | Raise e1, Raise e2 => e1 = e2
  | _, _ => False
  end.

(** *** Tables *)

(** The number of blocks of [block_size] that [len] records fill. *)
Definition block_count (len : nat) (block_size : Z) : nat :=
  Z.to_nat ((Z.of_nat len + block_size - 1) / block_size).

(** The [j]-th run of [block_size] records, counted from 0. *)
Definition block_at {A : Type} (records : list A) (block_size : Z) (j : nat)
  : list A :=
  firstn (Z.to_nat block_size) (skipn (j * Z.to_nat block_size) records).

(** *** The worksheet, table by table

    [export_to_excel] gives each block a table: the loop under
    [# Write headers], the loop under [# Write rows] and the spacer column.
    [export_to_excel_split] below shows that [export_to_excel] is
    [write_block] for each block in turn, and then [save]. *)

Definition add_cells (sheet : worksheet) (cells : list (Z * Z * cell_value))
  : worksheet :=
  {| ws_title := ws_title sheet; ws_cells := ws_cells sheet ++ cells;
     ws_widths := ws_widths sheet |}.

Definition write_headers (sheet : worksheet) (start_column : Z)
  : outcome export_exn worksheet :=
  for_enumerate 0 headers
    (fun sheet offset header =>
       set_cell sheet 1 (start_column + offset)%Z (Text header))
    sheet.

Definition write_row (start_column : Z) (sheet : worksheet) (row_offset : Z)
    (record : DispatchRecord) : outcome export_exn worksheet :=
  value <~ lift (adjusted_iso record) ;;
  sheet <~ set_cell sheet row_offset start_column (Text value) ;;
  sheet <~ set_cell sheet row_offset (start_column + 1)%Z
             (Text (company record)) ;;
  set_cell sheet row_offset (start_column + 2)%Z
    (Number (exceeded_percent record)).

Definition write_block (sheet : worksheet) (block_index : Z)
    (block : list DispatchRecord) : outcome export_exn worksheet :=
  let table_width := Z.of_nat (List.length headers) in
  let start_column := (block_index * (table_width + 1) + 1)%Z in
  sheet <~ write_headers sheet start_column ;;
  sheet <~ for_enumerate 2 block (write_row start_column) sheet ;;
  spacer_column <~ get_column_letter (start_column + table_width)%Z ;;
  Returns (set_width sheet spacer_column 2).

(** What a cell keeps of a text, and the texts a cell takes. *)
Definition kept (s : str) : str := firstn (Z.to_nat 32767) s.

Definition legal_text (s : str) : bool :=
  negb (existsb is_illegal_character (kept s)).

(** The adjusted text of a record that has one. *)
Definition adjusted_text (r : DispatchRecord) : str :=
  match adjusted_iso r with
  | Ok value => value
  | Raise _ => []
  end.

(** A record whose three fields a row can take. *)
Definition exportable (r : DispatchRecord) : Prop :=
  (exists value, adjusted_iso r = Ok value /\ legal_text value = true)
  /\ legal_text (company r) = true.

(** The cells of a table: its headers in row 1, and under them one row
    for each record of the block. *)
Definition header_cells (start_column : Z) : list (Z * Z * cell_value) :=
  [ (1, start_column, Text (lit "Data/Hora (UTC)"));
    (1, start_column + 1, Text (lit "Empresa"));
    (1, start_column + 2, Text (lit "Excedido (%)")) ]%Z.

Definition data_cells (row start_column : Z) (r : DispatchRecord)
  : list (Z * Z * cell_value) :=
  [ (row, start_column, Text (kept (adjusted_text r)));
    (row, start_column + 1, Text (kept (company r)));
    (row, start_column + 2, Number (exceeded_percent r)) ]%Z.

Fixpoint rows_cells (row start_column : Z) (block : list DispatchRecord)
  : list (Z * Z * cell_value) :=
  match block with
  | [] => []
  | r :: block' =>
      data_cells row start_column r
      ++ rows_cells (row + 1) start_column block'
  end.

Definition table_cells (block_index : Z) (block : list DispatchRecord)
  : list (Z * Z * cell_value) :=
  header_cells (4 * block_index + 1)
  ++ rows_cells 2 (4 * block_index + 1) block.

Fixpoint tables_cells (block_index : Z) (blocks : list (list DispatchRecord))
  : list (Z * Z * cell_value) :=
  match blocks with
  | [] => []
  | block :: blocks' =>
      table_cells block_index block
      ++ tables_cells (block_index + 1) blocks'
  end.

(** The widths of the spacer columns of [n] tables, from the table
    [block_index] on. *)
Fixpoint spacer_widths (block_index : Z) (n : nat) : list (str * Z) :=
  match n with
  | O => []
  | S n' =>
      (column_letters 3 (4 * block_index + 4) [], 2%Z)
      :: spacer_widths (block_index + 1) n'
  end.

(** The sheet before the first table. *)
Definition empty_sheet : worksheet :=
  {| ws_title := lit "Despacho"; ws_cells := []; ws_widths := [] |}.

(** The sheet after the table of a block, and after the tables of the
    blocks of a list. *)
Definition with_table (sheet : worksheet) (j : Z)
    (block : list DispatchRecord) : worksheet :=
  set_width (add_cells sheet (table_cells j block))
    (column_letters 3 (4 * j + 4) []) 2.

Definition with_tables (sheet : worksheet) (j : Z)
    (blocks : list (list DispatchRecord)) : worksheet :=
  {| ws_title := ws_title sheet;
     ws_cells := ws_cells sheet ++ tables_cells j blocks;
     ws_widths := ws_widths sheet ++ spacer_widths j (List.length blocks) |}.

(** *** Lines of text *)

Definition no_linebreak (line : str) : Prop :=
  forallb (fun c => negb (is_linebreak c)) line = true.

(** The text of lines that each end with [eol]. *)
Definition join_lines (eol : str) (lines : list str) : str :=
  List.concat (map (fun line => line ++ eol) lines).

(** A last line without a line end, if there is one. *)
Definition tail_line (last : str) : list str :=
  match last with
  | [] => []
  | _ => [last]
  end.

(** *** What the save takes *)




(** *** A line with a long percent *)

(** A line for company ABC at the clock 25:00, with a percent of 4301
    digits. *)
Definition long_percent_line : str :=
  lit "25:00 - Abertura da tela de Despacho - ABC - EXCEDIDO EM: "
  ++ repeat 0x31%N 4301 ++ lit "%".

(** * Properties *)

(** ** The matcher finds only what the pattern describes *)

Section Soundness.
Variable A : Type.

Lemma star_loop_sound (r : regex) body :
  @sound_at A r body ->
  forall k fuel pos s g x,
    star_loop body k fuel pos s g = Some x ->
    exists w s' g',
      s = w ++ s' /\ matches (Star r) pos g w s' g'
      /\ k (pos + List.length w)%nat s' g' = Some x.
Proof.
  intros Hbody k fuel.
  assert (Hstop : forall pos s g x, k pos s g = Some x ->
            exists w s' g', s = w ++ s' /\ matches (Star r) pos g w s' g'
              /\ k (pos + List.length w)%nat s' g' = Some x).
  { intros pos s g x Hk. exists [], s, g. simpl. rewrite Nat.add_0_r.
    repeat split; [constructor | exact Hk]. }
  induction fuel as [|fuel IH]; intros pos s g x H; simpl in H.
  - auto.
  - destruct (body pos s g _) as [y|] eqn:Hb.
    + injection H as ->.
      apply Hbody in Hb. destruct Hb as (w1 & s1 & g1 & -> & Hm & Hk).
      destruct (Nat.ltb pos (pos + List.length w1)); [|discriminate].
      apply IH in Hk. destruct Hk as (w2 & s2 & g2 & -> & Hm2 & Hk).
      exists (w1 ++ w2), s2, g2. rewrite <- app_assoc, length_app, Nat.add_assoc.
      repeat split; [econstructor; eassumption | exact Hk].
    + auto.
Qed.

Lemma run_sound (r : regex) : @sound_at A r (run (A := A) r).
Proof.
  induction r; intros pos s g k x H; simpl in H.
  - exists [], s, g. simpl. rewrite Nat.add_0_r.
    repeat split; [constructor | exact H].
  - destruct pos; [|discriminate]. exists [], s, g.
    repeat split; [constructor | exact H].
  - exists [], s, g. simpl. rewrite Nat.add_0_r.
    destruct s as [|c [|c' s]]; try discriminate.
    + repeat split; [constructor; auto | exact H].
    + destruct (N.eqb_spec c LINE_FEED); [subst|discriminate].
      repeat split; [constructor; auto | exact H].
  - destruct s as [|c s]; [discriminate|].
    destruct (p c) eqn:Hp; [|discriminate].
    exists [c], s, g. simpl. rewrite Nat.add_1_r.
    repeat split; [constructor; exact Hp | exact H].
  - apply IHr1 in H. destruct H as (w1 & s1 & g1 & -> & Hm1 & H).
    apply IHr2 in H. destruct H as (w2 & s2 & g2 & -> & Hm2 & H).
    exists (w1 ++ w2), s2, g2. rewrite <- app_assoc, length_app, Nat.add_assoc.
    repeat split; [econstructor; eassumption | exact H].
  - destruct (run r1 pos s g k) as [y|] eqn:H1.
    + injection H as ->. apply IHr1 in H1.
      destruct H1 as (w & s' & g' & -> & Hm & Hk).
      exists w, s', g'. repeat split; [apply M_AltL; exact Hm | exact Hk].
    + apply IHr2 in H. destruct H as (w & s' & g' & -> & Hm & Hk).
      exists w, s', g'. repeat split; [apply M_AltR; exact Hm | exact Hk].
  - eapply star_loop_sound; eassumption.
  - apply IHr in H. destruct H as (w & s' & g' & -> & Hm & Hk).
    replace (pos + List.length w - pos)%nat with (List.length w) in Hk by lia.
    rewrite firstn_app, Nat.sub_diag, firstn_all in Hk. simpl in Hk.
    rewrite app_nil_r in Hk.
    exists w, s', ((name, w) :: g').
    repeat split; [constructor; exact Hm | exact Hk].
Qed.

End Soundness.

(** ** Reading off a match *)

Lemma matches_eps_inv pos g w s g' :
  matches Eps pos g w s g' -> w = [] /\ g' = g.
Proof. inversion 1; auto. Qed.

Lemma matches_cls_inv p pos g w s g' :
  matches (Cls p) pos g w s g' -> exists c, w = [c] /\ p c = true /\ g' = g.
Proof. inversion 1; subst; eauto. Qed.

Lemma matches_chr_inv c pos g w s g' :
  matches (chr c) pos g w s g' -> w = [c] /\ g' = g.
Proof.
  intros H. apply matches_cls_inv in H. destruct H as (x & -> & Hx & ->).
  apply N.eqb_eq in Hx. subst. auto.
Qed.

Lemma matches_cat_inv r1 r2 pos g w s g' :
  matches (Cat r1 r2) pos g w s g' ->
  exists w1 w2 g1,
    w = w1 ++ w2 /\ matches r1 pos g w1 (w2 ++ s) g1
    /\ matches r2 (pos + List.length w1)%nat g1 w2 s g'.
Proof. inversion 1; subst; eauto 7. Qed.

Lemma matches_alt_inv r1 r2 pos g w s g' :
  matches (Alt r1 r2) pos g w s g' ->
  matches r1 pos g w s g' \/ matches r2 pos g w s g'.
Proof. inversion 1; subst; auto. Qed.

Lemma matches_grp_inv name r pos g w s g' :
  matches (Grp name r) pos g w s g' ->
  exists g1, matches r pos g w s g1 /\ g' = (name, w) :: g1.
Proof. inversion 1; subst; eauto. Qed.

Lemma matches_eol_inv pos g w s g' :
  matches Eol pos g w s g' -> w = [] /\ g' = g /\ (s = [] \/ s = [LINE_FEED]).
Proof. inversion 1; subst; auto. Qed.

Lemma matches_star_cls_inv p pos g w s g' :
  matches (Star (Cls p)) pos g w s g' -> forallb p w = true /\ g' = g.
Proof.
  intros H. remember (Star (Cls p)) as r eqn:Hr.
  induction H; try discriminate; injection Hr as ->.
  - auto.
  - apply matches_cls_inv in H. destruct H as (c & -> & Hc & ->).
    destruct (IHmatches2 eq_refl) as [Hw ->].
    simpl. rewrite Hc, Hw. auto.
Qed.

Lemma matches_text_inv l pos g w s g' :
  matches (text l) pos g w s g' -> w = l /\ g' = g.
Proof.
  revert pos g w s g'. induction l as [|c l IH]; intros pos g w s g' H;
    simpl in H.
  - apply matches_eps_inv in H. exact H.
  - apply matches_cat_inv in H. destruct H as (w1 & w2 & g1 & -> & H1 & H2).
    apply matches_chr_inv in H1. destruct H1 as [-> ->].
    apply IH in H2. destruct H2 as [-> ->]. auto.
Qed.

Lemma matches_times_cls_inv p n pos g w s g' :
  matches (times n (Cls p)) pos g w s g' ->
  List.length w = n /\ forallb p w = true /\ g' = g.
Proof.
  revert pos g w s g'. induction n as [|n IH]; intros pos g w s g' H;
    simpl in H.
  - apply matches_eps_inv in H. destruct H as [-> ->]. auto.
  - apply matches_cat_inv in H. destruct H as (w1 & w2 & g1 & -> & H1 & H2).
    apply matches_cls_inv in H1. destruct H1 as (c & -> & Hc & ->).
    apply IH in H2. destruct H2 as (<- & Hw & ->).
    simpl. rewrite Hc, Hw. auto.
Qed.

(** Taking a [seq] pattern apart: [w] is what the first piece consumed,
    [H] keeps the rest of the pattern. *)
Ltac split_seq H w g1 Hw :=
  let w2 := fresh "rest" in
  apply matches_cat_inv in H; destruct H as (w & w2 & g1 & -> & Hw & H).

Lemma matches_clock pos g w s g' :
  matches CLOCK_PATTERN pos g w s g' -> clock_token w /\ g' = g.
Proof.
  intros H. unfold CLOCK_PATTERN in H. cbn [seq] in H.
  split_seq H hh g_hh Hhh.
  apply matches_times_cls_inv in Hhh. destruct Hhh as (Hl1 & Hd1 & ->).
  split_seq H sp g_sp Hsp.
  assert (Hsep : exists sep, sp = [sep] /\ (sep = COLON \/ sep = LETTER_h)
                             /\ g_sp = g).
  { apply matches_alt_inv in Hsp. destruct Hsp as [Hs|Hs];
      apply matches_chr_inv in Hs; destruct Hs as [-> ->]; eauto. }
  destruct Hsep as (sep & -> & Hsep & ->). clear Hsp.
  split_seq H mm g_mm Hmm.
  apply matches_times_cls_inv in Hmm. destruct Hmm as (Hl2 & Hd2 & ->).
  split_seq H opt_h g_opt_h Htl.
  assert (Htail : (opt_h = [] \/ opt_h = [LETTER_h]) /\ g_opt_h = g).
  { unfold opt in Htl. apply matches_alt_inv in Htl. destruct Htl as [Hs|Hs].
    - apply matches_chr_inv in Hs. destruct Hs as [-> ->]. auto.
    - apply matches_eps_inv in Hs. destruct Hs as [-> ->]. auto. }
  destruct Htail as [Htail ->]. clear Htl.
  apply matches_eps_inv in H. destruct H as [-> ->].
  destruct hh as [|a [|b [|? ?]]]; try discriminate.
  destruct mm as [|c [|d [|? ?]]]; try discriminate.
  simpl in Hd1, Hd2.
  apply andb_prop in Hd1, Hd2. destruct Hd1 as [Ha Hb], Hd2 as [Hc Hd].
  rewrite andb_true_r in Hb, Hd.
  split; [|reflexivity].
  rewrite app_nil_r. simpl.
  apply (clock_token_intro a b c d (tail := opt_h)); auto.
Qed.

Lemma forallb_app_true (p : char -> bool) (l1 l2 : str) :
  forallb p l1 = true -> forallb p l2 = true -> forallb p (l1 ++ l2) = true.
Proof. intros H1 H2. rewrite forallb_app, H1, H2. reflexivity. Qed.

Ltac read_star H Hw :=
  apply matches_star_cls_inv in H; destruct H as [Hw ->].
Ltac read_dash H d Hd :=
  apply matches_cls_inv in H; destruct H as (d & -> & Hd & ->).
Ltac read_text H :=
  apply matches_text_inv in H; destruct H as [-> ->].

(** Every line [LOG_PATTERN] matches has the shape of the grammar, and the
    three groups are its three tokens. *)
Lemma LOG_PATTERN_sound line m :
  re_match LOG_PATTERN line = Some m ->
  line_shape (group m "clock") (group m "company") (group m "percent") line.
Proof.
  unfold re_match. intros H. apply run_sound in H.
  destruct H as (w & s' & g' & -> & H & Hm). injection Hm as <-.
  unfold LOG_PATTERN in H. cbn [seq] in H.
  split_seq H w0 g_w0 Hbol. inversion Hbol; subst; clear Hbol.
  split_seq H ck g_ck Hck.
  apply matches_grp_inv in Hck. destruct Hck as (gk & Hck & ->).
  apply matches_clock in Hck. destruct Hck as [Hck ->].
  split_seq H ws1 g_ws1 Hws1. read_star Hws1 Hs1.
  split_seq H x1 g_x1 Hd1. read_dash Hd1 d1 Hdash1.
  split_seq H ws2 g_ws2 Hws2. read_star Hws2 Hs2.
  split_seq H t1 g_t1 Ht1. read_text Ht1.
  split_seq H ws3 g_ws3 Hws3. read_star Hws3 Hs3.
  split_seq H x2 g_x2 Hd2. read_dash Hd2 d2 Hdash2.
  split_seq H ws4 g_ws4 Hws4. read_star Hws4 Hs4.
  split_seq H co g_co Hco.
  apply matches_grp_inv in Hco. destruct Hco as (gc & Hco & ->).
  apply matches_times_cls_inv in Hco. destruct Hco as (Hlen & Hup & ->).
  split_seq H ws5 g_ws5 Hws5. read_star Hws5 Hs5.
  split_seq H x3 g_x3 Hd3. read_dash Hd3 d3 Hdash3.
  split_seq H ws6 g_ws6 Hws6. read_star Hws6 Hs6.
  split_seq H t2 g_t2 Ht2. read_text Ht2.
  split_seq H ws7 g_ws7 Hws7. read_star Hws7 Hs7.
  split_seq H pc g_pc Hpc.
  apply matches_grp_inv in Hpc. destruct Hpc as (gp & Hpc & ->).
  unfold plus in Hpc. apply matches_cat_inv in Hpc.
  destruct Hpc as (p1 & p2 & g1 & -> & Hp1 & Hp2).
  apply matches_cls_inv in Hp1. destruct Hp1 as (c1 & -> & Hc1 & ->).
  apply matches_star_cls_inv in Hp2. destruct Hp2 as [Hp2 ->].
  split_seq H ws8 g_ws8 Hws8. read_star Hws8 Hs8.
  split_seq H x4 g_x4 Hpct. apply matches_chr_inv in Hpct. destruct Hpct as [-> ->].
  split_seq H ws9 g_ws9 Hws9. read_star Hws9 Hs9.
  split_seq H w1 g_w1 Heol. apply matches_eol_inv in Heol.
  destruct Heol as (-> & -> & Hrest).
  apply matches_eps_inv in H. destruct H as [-> ->].
  unfold group. cbn [m_groups lookup String.eqb Ascii.eqb Bool.eqb].
  rewrite !app_nil_r.
  repeat (rewrite <- app_assoc || rewrite <- app_comm_cons). cbn [app].
  assert (Hs' : forallb is_space s' = true)
    by (simpl in Hrest; destruct Hrest as [-> | ->]; reflexivity).
  assert (Hws : forallb is_space
                  (ws1 ++ ws2 ++ ws3 ++ ws4 ++ ws5 ++ ws6 ++ ws7 ++ ws8
                   ++ ws9 ++ s') = true)
    by (repeat apply forallb_app_true; assumption).
  assert (Hpc : forallb is_decimal (c1 :: p2) = true)
    by (simpl; rewrite Hc1; exact Hp2).
  assert (Hne : c1 :: p2 <> []) by discriminate.
  pose proof (@line_shape_intro ck co (c1 :: p2)
                ws1 ws2 ws3 ws4 ws5 ws6 ws7 ws8 (ws9 ++ s') d1 d2 d3
                Hck Hlen Hup Hne Hpc Hws Hdash1 Hdash2 Hdash3) as Hshape.
  repeat rewrite <- app_assoc in Hshape. cbn [app] in Hshape.
  exact Hshape.
Qed.

(** ** The matcher finds what a greedy reading of the pattern describes *)

Lemma finds_eps pos s g : finds Eps pos [] s g g.
Proof. intros A k x H. simpl in *. rewrite Nat.add_0_r in H. exact H. Qed.

Lemma finds_bol s g : finds Bol 0 [] s g g.
Proof. intros A k x H. exact H. Qed.

Lemma finds_eol pos g : finds Eol pos [] [] g g.
Proof. intros A k x H. simpl in *. rewrite Nat.add_0_r in H. exact H. Qed.

Lemma finds_cls p pos c s g : p c = true -> finds (Cls p) pos [c] s g g.
Proof.
  intros Hp A k x H. simpl in *. rewrite Hp. rewrite Nat.add_1_r in H. exact H.
Qed.

Lemma finds_chr pos c s g : finds (chr c) pos [c] s g g.
Proof. apply finds_cls. apply N.eqb_refl. Qed.

Lemma finds_cat r1 r2 pos w1 w2 s g g1 g2 :
  finds r1 pos w1 (w2 ++ s) g g1 ->
  finds r2 (pos + List.length w1)%nat w2 s g1 g2 ->
  finds (Cat r1 r2) pos (w1 ++ w2) s g g2.
Proof.
  intros H1 H2 A k x H. simpl. rewrite <- app_assoc. apply H1. apply H2.
  rewrite length_app, Nat.add_assoc in H. exact H.
Qed.

Lemma finds_alt_l r1 r2 pos w s g g' :
  finds r1 pos w s g g' -> finds (Alt r1 r2) pos w s g g'.
Proof. intros H1 A k x H. simpl. rewrite (H1 A k x H). reflexivity. Qed.

Lemma finds_alt_r r1 r2 pos w s g g' :
  (forall (A : Type) (k : nat -> str -> groups -> option A),
      run r1 pos (w ++ s) g k = None) ->
  finds r2 pos w s g g' -> finds (Alt r1 r2) pos w s g g'.
Proof. intros H1 H2 A k x H. simpl. rewrite H1. apply H2. exact H. Qed.

Lemma finds_grp name r pos w s g g' :
  finds r pos w s g g' -> finds (Grp name r) pos w s g ((name, w) :: g').
Proof.
  intros H1 A k x H. simpl. apply H1.
  replace (pos + List.length w - pos)%nat with (List.length w) by lia.
  rewrite firstn_app, Nat.sub_diag, firstn_all. simpl. rewrite app_nil_r.
  exact H.
Qed.

Lemma star_loop_S (A : Type) body (k : nat -> str -> groups -> option A)
    fuel pos s g :
  star_loop body k (S fuel) pos s g
  = match body pos s g
            (fun pos' s' g' =>
               if Nat.ltb pos pos' then star_loop body k fuel pos' s' g'
               else None) with
    | Some x => Some x
    | None => k pos s g
    end.
Proof. reflexivity. Qed.

Lemma run_cls_cons (A : Type) p pos c s g
    (k : nat -> str -> groups -> option A) :
  run (Cls p) pos (c :: s) g k = if p c then k (S pos) s g else None.
Proof. reflexivity. Qed.

Lemma star_cls_greedy (A : Type) p (k : nat -> str -> groups -> option A) x
    w s g :
  forallb p w = true -> stops p s ->
  forall fuel pos,
    (List.length w <= fuel)%nat ->
    k (pos + List.length w)%nat s g = Some x ->
    star_loop (run (Cls p)) k fuel pos (w ++ s) g = Some x.
Proof.
  intros Hw Hs. induction w as [|c w IH]; intros fuel pos Hfuel H.
  - simpl in *. rewrite Nat.add_0_r in H.
    destruct fuel as [|fuel]; simpl; [exact H|].
    destruct s as [|c s]; [exact H|]. simpl in Hs. rewrite Hs. exact H.
  - simpl in Hw. apply andb_prop in Hw. destruct Hw as [Hc Hw].
    destruct fuel as [|fuel]; simpl in Hfuel; [lia|].
    cbn [app]. rewrite star_loop_S, run_cls_cons, Hc.
    replace (Nat.ltb pos (S pos)) with true
      by (symmetry; apply Nat.ltb_lt; lia).
    rewrite (IH Hw fuel (S pos)); [reflexivity | lia |].
    simpl in H. rewrite Nat.add_succ_r in H. exact H.
Qed.

Lemma finds_star_cls p pos w s g :
  forallb p w = true -> stops p s -> finds (Star (Cls p)) pos w s g g.
Proof.
  intros Hw Hs A k x H. simpl. apply star_cls_greedy; auto.
  rewrite length_app. lia.
Qed.

Lemma finds_text l pos s g : finds (text l) pos l s g g.
Proof.
  revert pos. induction l as [|c l IH]; intros pos; simpl.
  - apply finds_eps.
  - apply (@finds_cat (chr c) (text l) pos [c] l s g g g).
    + apply finds_chr.
    + apply IH.
Qed.

Lemma finds_times_cls p n pos w s g :
  List.length w = n -> forallb p w = true ->
  finds (times n (Cls p)) pos w s g g.
Proof.
  revert pos w. induction n as [|n IH]; intros pos w Hlen Hw.
  - destruct w; [|discriminate]. apply finds_eps.
  - destruct w as [|c w]; [discriminate|]. simpl in Hw.
    apply andb_prop in Hw. destruct Hw as [Hc Hw]. simpl.
    apply (@finds_cat (Cls p) (times n (Cls p)) pos [c] w s g g g).
    + apply finds_cls. exact Hc.
    + apply IH; [simpl in Hlen; lia | exact Hw].
Qed.

Lemma stops_app (p q : char -> bool) (w s : str) :
  (forall c, q c = true -> p c = false) ->
  forallb q w = true -> stops p s -> stops p (w ++ s).
Proof.
  intros Hpq Hw Hs. destruct w as [|c w]; [exact Hs|].
  simpl in *. apply andb_prop in Hw. apply Hpq. tauto.
Qed.

(** ** Character classes *)

Lemma in_ranges_disjoint (rs1 rs2 : list (N * N)) (c : char) :
  forallb (fun r1 =>
             forallb (fun r2 => N.ltb (snd r1) (fst r2)
                                || N.ltb (snd r2) (fst r1)) rs2) rs1 = true ->
  in_ranges rs1 c = true -> in_ranges rs2 c = false.
Proof.
  unfold in_ranges. intros Hdis H1.
  apply existsb_exists in H1. destruct H1 as (r1 & Hin1 & Hc1).
  rewrite forallb_forall in Hdis. specialize (Hdis r1 Hin1).
  rewrite forallb_forall in Hdis.
  apply not_true_is_false. intros H2.
  apply existsb_exists in H2. destruct H2 as (r2 & Hin2 & Hc2).
  specialize (Hdis r2 Hin2).
  apply andb_prop in Hc1, Hc2. destruct Hc1 as [Ha Hb], Hc2 as [Hc Hd].
  apply N.leb_le in Ha, Hb, Hc, Hd.
  apply orb_prop in Hdis. destruct Hdis as [H|H]; apply N.ltb_lt in H; lia.
Qed.

Lemma decimal_not_other c :
  is_decimal c = true -> in_ranges non_digit_ranges c = false.
Proof. apply in_ranges_disjoint. vm_compute. reflexivity. Qed.

Lemma decimal_facts c :
  is_decimal c = true ->
  is_space c = false /\ is_ascii_upper c = false /\ is_upper c = false
  /\ is_dash c = false /\ N.eqb c LETTER_h = false /\ N.eqb c COLON = false
  /\ N.eqb LETTER_h c = false /\ N.eqb COLON c = false
  /\ N.eqb PERCENT_SIGN c = false.
Proof.
  intros H. apply decimal_not_other in H.
  unfold non_digit_ranges, in_ranges in H. rewrite existsb_app in H.
  apply orb_false_elim in H. destruct H as [Hsp H].
  simpl in H. repeat (apply orb_false_elim in H; destruct H as [? H]).
  unfold is_space, in_ranges, is_ascii_upper, is_upper, is_dash.
  rewrite Hsp.
  repeat match goal with
  | H : (_ && _)%bool = false |- _ =>
      apply andb_false_iff in H; rewrite !N.leb_gt in H
  end.
  repeat split; try reflexivity;
    try (apply andb_false_iff; rewrite !N.leb_gt; lia);
    try (apply orb_false_iff; split);
    try (apply N.eqb_neq; lia).
Qed.

Lemma space_facts c :
  is_space c = true ->
  is_decimal c = false /\ N.eqb LETTER_h c = false /\ is_dash c = false.
Proof.
  intros H. repeat split.
  - destruct (is_decimal c) eqn:E; [|reflexivity].
    apply decimal_facts in E. destruct E as [E _]. congruence.
  - destruct (N.eqb_spec LETTER_h c) as [<-|]; [|reflexivity].
    vm_compute in H. discriminate.
  - unfold is_dash.
    destruct (N.eqb_spec c HYPHEN) as [->|]; [vm_compute in H; discriminate|].
    destruct (N.eqb_spec c EN_DASH) as [->|];
      [vm_compute in H; discriminate|].
    reflexivity.
Qed.

Lemma dash_facts c :
  is_dash c = true -> is_space c = false /\ N.eqb LETTER_h c = false.
Proof.
  unfold is_dash. intros H. apply orb_prop in H.
  destruct H as [H|H]; apply N.eqb_eq in H; subst; split; reflexivity.
Qed.

Lemma upper_not_space c : is_upper c = true -> is_space c = false.
Proof.
  intros H. apply (@in_ranges_disjoint [(0x41, 0x5a)%N]).
  - vm_compute. reflexivity.
  - unfold in_ranges. simpl. rewrite orb_false_r. exact H.
Qed.

Lemma finds_clock pos ck s g :
  clock_token ck -> stops (N.eqb LETTER_h) s -> finds CLOCK_PATTERN pos ck s g g.
Proof.
  intros Hck Hs. destruct Hck as [a b sep c d tail Ha Hb Hsep Hc Hd Htail].
  unfold CLOCK_PATTERN. cbn [seq].
  change ([a; b; sep; c; d] ++ tail)
    with ([a; b] ++ [sep] ++ [c; d] ++ tail).
  rewrite <- (app_nil_r tail).
  apply finds_cat with (g1 := g).
  { apply finds_times_cls; [reflexivity | simpl; rewrite Ha, Hb; reflexivity]. }
  apply finds_cat with (g1 := g).
  { destruct Hsep as [-> | ->].
    - apply finds_alt_l. apply finds_chr.
    - apply finds_alt_r; [reflexivity | apply finds_chr]. }
  apply finds_cat with (g1 := g).
  { apply finds_times_cls; [reflexivity | simpl; rewrite Hc, Hd; reflexivity]. }
  apply finds_cat with (g1 := g).
  { destruct Htail as [-> | ->].
    - apply finds_alt_r; [|apply finds_eps].
      intros A k. simpl. destruct s as [|x s]; [reflexivity|].
      simpl in Hs. rewrite Hs. reflexivity.
    - apply finds_alt_l. apply finds_chr. }
  apply finds_eps.
Qed.

Lemma forallb_app_inv (p : char -> bool) (l1 l2 : str) :
  forallb p (l1 ++ l2) = true -> forallb p l1 = true /\ forallb p l2 = true.
Proof. rewrite forallb_app. apply andb_prop. Qed.

Ltac piece lem := eapply finds_cat; [lem|].

Lemma LOG_PATTERN_finds ck ws1 ws2 ws3 ws4 ws5 ws6 ws7 ws8 ws9 d1 d2 d3
    x y z c1 p2 :
  clock_token ck ->
  forallb is_upper [x; y; z] = true ->
  forallb is_decimal (c1 :: p2) = true ->
  forallb is_space ws1 = true -> forallb is_space ws2 = true ->
  forallb is_space ws3 = true -> forallb is_space ws4 = true ->
  forallb is_space ws5 = true -> forallb is_space ws6 = true ->
  forallb is_space ws7 = true -> forallb is_space ws8 = true ->
  forallb is_space ws9 = true ->
  is_dash d1 = true -> is_dash d2 = true -> is_dash d3 = true ->
  finds LOG_PATTERN 0
    ([] ++ ck ++ ws1 ++ [d1] ++ ws2 ++ lit "Abertura da tela de Despacho"
     ++ ws3 ++ [d2] ++ ws4 ++ [x; y; z] ++ ws5 ++ [d3] ++ ws6
     ++ lit "EXCEDIDO EM:" ++ ws7 ++ ([c1] ++ p2) ++ ws8 ++ [PERCENT_SIGN] ++ ws9
     ++ [] ++ [])
    [] []
    [("percent", [c1] ++ p2); ("company", [x; y; z]); ("clock", ck)].
Proof.
  intros Hck Hup Hpc Hs1 Hs2 Hs3 Hs4 Hs5 Hs6 Hs7 Hs8 Hs9 Hd1 Hd2 Hd3.
  pose proof Hup as Hco.
  simpl in Hup. apply andb_prop in Hup. destruct Hup as [Hx Hup].
  pose proof (upper_not_space _ Hx) as Hxs.
  simpl in Hpc. apply andb_prop in Hpc. destruct Hpc as [Hc1 Hp2].
  pose proof (decimal_facts _ Hc1) as (Hc1s & _).
  destruct (dash_facts _ Hd1) as [Hd1s Hd1h].
  destruct (dash_facts _ Hd2) as [Hd2s _].
  destruct (dash_facts _ Hd3) as [Hd3s _].
  unfold LOG_PATTERN. cbn [seq].
  piece ltac:(apply finds_bol).
  piece ltac:(apply finds_grp; apply finds_clock; [exact Hck|]).
  { rewrite <- app_assoc.
    apply stops_app with (q := is_space);
      [intros c Hc; apply space_facts; exact Hc | exact Hs1 | exact Hd1h]. }
  piece ltac:(apply finds_star_cls; [exact Hs1 | exact Hd1s]).
  piece ltac:(apply finds_cls; exact Hd1).
  piece ltac:(apply finds_star_cls; [exact Hs2 | reflexivity]).
  piece ltac:(apply finds_text).
  piece ltac:(apply finds_star_cls; [exact Hs3 | exact Hd2s]).
  piece ltac:(apply finds_cls; exact Hd2).
  piece ltac:(apply finds_star_cls; [exact Hs4 | exact Hxs]).
  piece ltac:(apply finds_grp; apply finds_times_cls;
              [reflexivity | exact Hco]).
  piece ltac:(apply finds_star_cls; [exact Hs5 | exact Hd3s]).
  piece ltac:(apply finds_cls; exact Hd3).
  piece ltac:(apply finds_star_cls; [exact Hs6 | reflexivity]).
  piece ltac:(apply finds_text).
  piece ltac:(apply finds_star_cls; [exact Hs7 | exact Hc1s]).
  piece ltac:(apply finds_grp; unfold plus; eapply finds_cat;
              [apply finds_cls; exact Hc1 | apply finds_star_cls; [exact Hp2|]]).
  { rewrite <- app_assoc.
    apply stops_app with (q := is_space);
      [intros c Hc; apply space_facts; exact Hc | exact Hs8 | reflexivity]. }
  piece ltac:(apply finds_star_cls; [exact Hs8 | reflexivity]).
  piece ltac:(apply finds_chr).
  piece ltac:(apply finds_star_cls; [exact Hs9 | exact I]).
  piece ltac:(apply finds_eol).
  apply finds_eps.
Qed.

(** Every line of the shape of the grammar is matched, with its three
    tokens as the groups. *)
Lemma LOG_PATTERN_complete ck co pc line :
  line_shape ck co pc line ->
  exists m,
    re_match LOG_PATTERN line = Some m
    /\ group m "clock" = ck /\ group m "company" = co
    /\ group m "percent" = pc.
Proof.
  intros H.
  destruct H as [ws1 ws2 ws3 ws4 ws5 ws6 ws7 ws8 ws9 d1 d2 d3
                   Hck Hlen Hup Hne Hpc Hws Hd1 Hd2 Hd3].
  apply forallb_app_inv in Hws. destruct Hws as [Hs1 Hws].
  apply forallb_app_inv in Hws. destruct Hws as [Hs2 Hws].
  apply forallb_app_inv in Hws. destruct Hws as [Hs3 Hws].
  apply forallb_app_inv in Hws. destruct Hws as [Hs4 Hws].
  apply forallb_app_inv in Hws. destruct Hws as [Hs5 Hws].
  apply forallb_app_inv in Hws. destruct Hws as [Hs6 Hws].
  apply forallb_app_inv in Hws. destruct Hws as [Hs7 Hws].
  apply forallb_app_inv in Hws. destruct Hws as [Hs8 Hs9].
  destruct co as [|x [|y [|z [|? ?]]]]; try discriminate.
  destruct pc as [|c1 p2]; [congruence|].
  pose proof (@LOG_PATTERN_finds ck ws1 ws2 ws3 ws4 ws5 ws6 ws7 ws8 ws9
                d1 d2 d3 x y z c1 p2 Hck Hup Hpc Hs1 Hs2 Hs3 Hs4 Hs5 Hs6
                Hs7 Hs8 Hs9 Hd1 Hd2 Hd3) as Hf.
  cbn [app] in Hf. rewrite !app_nil_r in Hf.
  eexists. split.
  - unfold re_match.
    match goal with
    | |- run _ _ ?l _ _ = _ => rewrite <- (app_nil_r l)
    end.
    apply Hf. reflexivity.
  - repeat split; reflexivity.
Qed.

(** ** Normalising and reading a clock *)

Arguments is_space : simpl never.
Arguments is_decimal : simpl never.
Arguments is_ascii_upper : simpl never.
Arguments N.eqb : simpl nomatch.

Ltac use_decimal H :=
  let F := fresh "F" in
  pose proof (decimal_facts _ H) as F;
  destruct F as (? & ? & ? & ? & ? & ? & ? & ? & ?).

(** A clock written as the grammar allows always normalises: the
    invalid-clock error cannot be reached from a matched line. *)
Lemma normalize_clock_token a b sep c d tail :
  is_decimal a = true -> is_decimal b = true ->
  sep = COLON \/ sep = LETTER_h ->
  is_decimal c = true -> is_decimal d = true ->
  tail = [] \/ tail = [LETTER_h] ->
  _normalize_clock ([a; b; sep; c; d] ++ tail) = Ok [a; b; COLON; c; d].
Proof.
  intros Ha Hb Hsep Hc Hd Htail.
  use_decimal Ha. use_decimal Hb. use_decimal Hc. use_decimal Hd.
  assert (Hsh : is_space LETTER_h = false) by reflexivity.
  assert (Hsc : is_space COLON = false) by reflexivity.
  assert (Huh : is_ascii_upper LETTER_h = false) by reflexivity.
  assert (Huc : is_ascii_upper COLON = false) by reflexivity.
  unfold _normalize_clock, strip, lower, endswith, replace, re_fullmatch,
    NORMALIZED_PATTERN.
  destruct Hsep as [-> | ->], Htail as [-> | ->]; cbn;
    repeat match goal with
    | H : ?t = _ |- context [?t] => rewrite H; cbn
    end; reflexivity.
Qed.

Arguments N.leb : simpl nomatch.

(** What [strptime] makes of a normalised clock. *)
Lemma strptime_HM_spec a b c d :
  is_decimal a = true -> is_decimal b = true ->
  is_decimal c = true -> is_decimal d = true ->
  strptime_HM [a; b; COLON; c; d]
  = if hour_field_ok a b && minute_field_ok c
    then Ok {| hour := decimal_int [a; b]; minute := decimal_int [c; d];
               second := 0; microsecond := 0 |}
    else Raise (ValueError_strptime [a; b; COLON; c; d]).
Proof.
  intros Ha Hb Hc Hd.
  use_decimal Ha. use_decimal Hb. use_decimal Hc. use_decimal Hd.
  unfold strptime_HM, re_match, HM_PATTERN, hour_field_ok, minute_field_ok,
    range, digit, chr, group.
  cbn [seq run]. rewrite Ha, Hb, Hc, Hd.
  destruct (N.eqb 0x32 a); destruct (N.leb 0x30 b && N.leb b 0x33)%bool;
    destruct (N.leb 0x30 a && N.leb a 0x31)%bool;
    destruct (N.leb 0x30 c && N.leb c 0x35)%bool;
    cbn;
    repeat match goal with
    | H : ?t = _ |- context [?t] => rewrite H; cbn
    end; reflexivity.
Qed.

(** ** Digit values *)

Lemma decimal_value_le c : (decimal_value c <= 9)%N.
Proof.
  unfold decimal_value.
  destruct (find _ decimal_zeros) as [z|] eqn:Hf; [|lia].
  apply find_some in Hf. destruct Hf as [_ Hz].
  apply andb_prop in Hz. destruct Hz as [H1 H2].
  apply N.leb_le in H1, H2. lia.
Qed.

Lemma decimal_value_ascii c :
  (DIGIT_0 <= c <= DIGIT_9)%N -> decimal_value c = (c - DIGIT_0)%N.
Proof.
  intros H. unfold decimal_value, decimal_zeros. cbn [find].
  replace (N.leb 0x30 c && N.leb c (0x30 + 9))%bool with true; [reflexivity|].
  symmetry. apply andb_true_intro. split; apply N.leb_le; lia.
Qed.

Lemma decimal_int_two a b :
  decimal_int [a; b]
  = (10 * Z.of_N (decimal_value a) + Z.of_N (decimal_value b))%Z.
Proof. unfold decimal_int. simpl. lia. Qed.

(** A clock that [strptime] accepts is a time of day. *)
Lemma hour_field_bound a b :
  hour_field_ok a b = true -> (0 <= decimal_int [a; b] <= 23)%Z.
Proof.
  unfold hour_field_ok. intros H. rewrite decimal_int_two.
  pose proof (decimal_value_le b) as Hb.
  apply orb_prop in H. destruct H as [H|H]; apply andb_prop in H;
    destruct H as [H1 H2].
  - apply N.eqb_eq in H1. subst a. apply andb_prop in H2.
    destruct H2 as [H2 H3]. apply N.leb_le in H2, H3.
    rewrite (@decimal_value_ascii 0x32%N) by lia.
    rewrite (@decimal_value_ascii b) by lia. lia.
  - apply N.leb_le in H1, H2.
    rewrite (@decimal_value_ascii a) by lia. lia.
Qed.

Lemma minute_field_bound c d :
  minute_field_ok c = true -> (0 <= decimal_int [c; d] <= 59)%Z.
Proof.
  unfold minute_field_ok. intros H. rewrite decimal_int_two.
  pose proof (decimal_value_le d) as Hd.
  apply andb_prop in H. destruct H as [H1 H2]. apply N.leb_le in H1, H2.
  rewrite (@decimal_value_ascii c) by lia. lia.
Qed.

(** ** Clock normalisation *)

Lemma fullmatch_HH_MM s :
  match re_fullmatch NORMALIZED_PATTERN s with
  | Some _ => is_HH_MM s = true
  | None => is_HH_MM s = false
  end.
Proof.
  unfold re_fullmatch, NORMALIZED_PATTERN, is_HH_MM, digit, chr.
  destruct s as [|a [|b [|sep [|c [|d [|x s]]]]]]; cbn [seq times run];
    repeat match goal with
    | |- context [if ?t then _ else _] =>
        match type of t with
        | bool => destruct t; cbn [andb]
        end
    end; reflexivity.
Qed.

Lemma normalize_clock_spec clock :
  _normalize_clock clock
  = if is_HH_MM (trimmed_clock clock) then Ok (trimmed_clock clock)
    else Raise (ParseError (Horario_invalido clock)).
Proof.
  unfold _normalize_clock. fold (trimmed_clock clock).
  pose proof (fullmatch_HH_MM (trimmed_clock clock)) as H.
  destruct (re_fullmatch NORMALIZED_PATTERN (trimmed_clock clock));
    rewrite H; reflexivity.
Qed.

(** ** Clocks out of range *)

Lemma strptime_out_of_range a b c d :
  is_decimal a = true -> is_decimal b = true ->
  is_decimal c = true -> is_decimal d = true ->
  (23 < decimal_int [a; b] \/ 59 < decimal_int [c; d])%Z ->
  strptime_HM [a; b; COLON; c; d]
  = Raise (ValueError_strptime [a; b; COLON; c; d]).
Proof.
  intros Ha Hb Hc Hd Hout. rewrite strptime_HM_spec by assumption.
  destruct (hour_field_ok a b) eqn:Hh; [|reflexivity].
  destruct (minute_field_ok c) eqn:Hm; [|reflexivity].
  apply hour_field_bound in Hh. apply (@minute_field_bound c d) in Hm. lia.
Qed.

Lemma LOG_PATTERN_nonempty : re_match LOG_PATTERN [] = None.
Proof. reflexivity. Qed.

(** What the clock group of a matched line normalises to. *)
Lemma matched_clock_normalizes line m :
  re_match LOG_PATTERN line = Some m ->
  exists a b c d,
    is_decimal a = true /\ is_decimal b = true /\ is_decimal c = true
    /\ is_decimal d = true
    /\ _normalize_clock (group m "clock") = Ok [a; b; COLON; c; d].
Proof.
  intros H. apply LOG_PATTERN_sound in H. destruct H as [].
  match goal with
  | Hck : clock_token _ |- _ =>
      destruct Hck as [a b sep c d tail Ha Hb Hsep Hc Hd Htail]
  end.
  exists a, b, c, d. repeat split; try assumption.
  apply normalize_clock_token; assumption.
Qed.

(** ** Numerals *)

Lemma is_decimal_ascii c : (DIGIT_0 <= c <= DIGIT_9)%N -> is_decimal c = true.
Proof.
  intros H. unfold is_decimal, in_ranges. apply existsb_exists.
  exists (0x30, 0x39)%N. split.
  - left. reflexivity.
  - apply andb_true_intro. split; apply N.leb_le; simpl; lia.
Qed.

Lemma decimal_int_cons c s :
  decimal_int (c :: s)
  = (Z.of_N (decimal_value c) * 10 ^ Z.of_nat (List.length s)
     + decimal_int s)%Z.
Proof.
  unfold decimal_int. cbn [fold_left].
  replace (10 * 0 + Z.of_N (decimal_value c))%Z
    with (Z.of_N (decimal_value c)) by lia.
  generalize (Z.of_N (decimal_value c)) as v.
  induction s as [|x s IH] using rev_ind; intros v.
  - simpl. lia.
  - rewrite !fold_left_app. cbn [fold_left]. rewrite IH.
    rewrite length_app. cbn [List.length].
    rewrite Nat2Z.inj_add, Z.pow_add_r by lia.
    change (10 ^ Z.of_nat 1)%Z with 10%Z. lia.
Qed.

Lemma numeral_aux_spec fuel : forall n acc,
  (0 < n)%N -> (n < 2 ^ N.of_nat fuel)%N ->
  forallb is_decimal acc = true ->
  let s := numeral_aux fuel n acc in
  forallb is_decimal s = true
  /\ decimal_int s
     = (Z.of_N n * 10 ^ Z.of_nat (List.length acc) + decimal_int acc)%Z
  /\ (exists c pre, s = c :: pre ++ acc /\ decimal_value c <> 0%N).
Proof.
  induction fuel as [|fuel IH]; intros n acc Hpos Hlt Hacc; cbv zeta.
  - simpl in Hlt. lia.
  - cbn [numeral_aux].
    pose proof (N.div_mod n 10 ltac:(lia)) as Hdm.
    pose proof (N.mod_lt n 10 ltac:(lia)) as Hm.
    set (q := (n / 10)%N) in *. set (r := (n mod 10)%N) in *.
    clearbody q r.
    assert (Hd : is_decimal (0x30 + r)%N = true)
      by (apply is_decimal_ascii; lia).
    assert (Hv : decimal_value (0x30 + r)%N = r)
      by (rewrite decimal_value_ascii by lia; lia).
    destruct (N.eqb_spec q 0) as [Hz|Hnz].
    + split; [|split].
      * cbn [forallb]. rewrite Hd, Hacc. reflexivity.
      * rewrite decimal_int_cons, Hv. lia.
      * exists (0x30 + r)%N, []. split; [reflexivity|].
        rewrite Hv. lia.
    + assert (Hlt' : (q < 2 ^ N.of_nat fuel)%N).
      { rewrite Nat2N.inj_succ, N.pow_succ_r' in Hlt. lia. }
      destruct (IH q ((0x30 + r)%N :: acc)) as (H1 & H2 & H3);
        [lia | exact Hlt' | cbn [forallb]; rewrite Hd, Hacc; reflexivity |].
      split; [exact H1 | split].
      * rewrite H2. rewrite decimal_int_cons, Hv. cbn [List.length].
        rewrite Nat2Z.inj_succ, Z.pow_succ_r by lia. lia.
      * destruct H3 as (c & pre & Hs & Hc).
        exists c, (pre ++ [(0x30 + r)%N]). split; [|exact Hc].
        rewrite Hs, <- app_assoc. reflexivity.
Qed.

Lemma size_nat_gt p : (N.pos p < 2 ^ N.of_nat (Pos.size_nat p))%N.
Proof.
  induction p as [p IH|p IH|]; cbn [Pos.size_nat];
    rewrite ?Nat2N.inj_succ, ?N.pow_succ_r'; lia.
Qed.

(** The numeral of a natural number reads back as that number, is made of
    digits and has no leading zero unless it is "0". *)
Lemma numeral_spec p :
  (0 <= p)%Z ->
  forallb is_decimal (numeral p) = true /\ decimal_int (numeral p) = p
  /\ numeral p <> [].
Proof.
  intros Hp. unfold numeral.
  destruct (N.eq_dec (Z.to_N p) 0) as [Hz|Hnz].
  - rewrite Hz. cbn. repeat split; [lia | discriminate].
  - destruct (@numeral_aux_spec (S (N.size_nat (Z.to_N p))) (Z.to_N p) [])
      as (H1 & H2 & c & pre & H3 & _).
    + lia.
    + rewrite Nat2N.inj_succ, N.pow_succ_r'.
      destruct (Z.to_N p) as [|q]; [lia|].
      pose proof (size_nat_gt q) as Hs. cbn [N.size_nat]. lia.
    + reflexivity.
    + repeat split; [exact H1 | | rewrite H3; discriminate].
      rewrite H2. cbn. lia.
Qed.

(** ** The loop *)

Lemma loop_body_split lim st n raw :
  loop_body lim st n raw
  = (e <- decode_line lim n raw ;;
     match e with
     | Some e => advance st e
     | None => Ok st
     end).
Proof.
  unfold loop_body, decode_line, advance.
  destruct (strip raw) as [|c line]; [reflexivity|].
  destruct (re_match LOG_PATTERN (c :: line)) as [m|]; [|reflexivity].
  destruct (int lim (group m "percent")) as [pct|e]; [|reflexivity].
  cbn [bind].
  destruct (_normalize_clock (group m "clock")) as [nc|e]; [|reflexivity].
  cbn [bind].
  destruct (strptime_HM nc) as [t|e]; reflexivity.
Qed.

Lemma loop_app lim pre post : forall n st,
  loop lim n (pre ++ post) st
  = (st' <- loop lim n pre st ;; loop lim (n + List.length pre) post st').
Proof.
  induction pre as [|raw pre IH]; intros n st; simpl.
  - rewrite Nat.add_0_r. reflexivity.
  - destruct (loop_body lim st n raw) as [st'|e]; simpl; [|reflexivity].
    rewrite IH. rewrite Nat.add_succ_r. reflexivity.
Qed.

(** ** Reading lines and moving the cursor *)

Lemma time_lt_irrefl t : time_lt t t = false.
Proof.
  unfold time_lt. rewrite !Z.ltb_irrefl, !Z.eqb_refl. reflexivity.
Qed.

Lemma decode_line_blank lim n raw :
  is_blank raw = true -> decode_line lim n raw = Ok None.
Proof.
  unfold is_blank, decode_line. destruct (strip raw); [reflexivity|discriminate].
Qed.

Lemma decode_line_none lim n raw :
  decode_line lim n raw = Ok None -> is_blank raw = true.
Proof.
  unfold is_blank, decode_line. destruct (strip raw) as [|c s]; [reflexivity|].
  destruct (re_match LOG_PATTERN (c :: s)) as [m|]; [|discriminate].
  destruct (int lim _); [|discriminate]. cbn [bind].
  destruct (_normalize_clock _); [|discriminate]. cbn [bind].
  destruct (strptime_HM _); discriminate.
Qed.

Lemma decode_line_some lim n raw e :
  decode_line lim n raw = Ok (Some e) -> is_blank raw = false.
Proof.
  intros H. destruct (is_blank raw) eqn:Hb; [|reflexivity].
  rewrite (decode_line_blank lim n raw Hb) in H. discriminate.
Qed.

(** A line the grammar does not match is reported with its number and its
    raw text. *)
Lemma decode_line_mismatch lim n raw :
  strip raw <> [] -> re_match LOG_PATTERN (strip raw) = None ->
  decode_line lim n raw = Raise (ParseError (Linha_nao_corresponde n raw)).
Proof.
  unfold decode_line. intros Hne Hm.
  destruct (strip raw) as [|c s]; [congruence|]. rewrite Hm. reflexivity.
Qed.

Lemma event_of_record_on d e : event_of (record_on d e) = e.
Proof. destruct e. reflexivity. Qed.

(** When the clock does not go back the date stays. *)
Lemma advance_same_day st e :
  match previous_clock st with
  | Some previous => time_lt (clock_time e) previous = false
  | None => True
  end ->
  advance st e
  = Ok {| records := records st ++ [record_on (current_date st) e];
          current_date := current_date st;
          previous_clock := Some (clock_time e) |}.
Proof.
  unfold advance. destruct (previous_clock st) as [p|]; intros H.
  - rewrite H. reflexivity.
  - reflexivity.
Qed.

(** When the clock goes back the date moves by [timedelta(days=1)]. *)
Lemma advance_next_day st e previous :
  previous_clock st = Some previous ->
  time_lt (clock_time e) previous = true ->
  advance st e
  = (d <- date_add (current_date st) (timedelta_days 1) ;;
     Ok {| records := records st ++ [record_on d e]; current_date := d;
           previous_clock := Some (clock_time e) |}).
Proof. unfold advance. intros -> ->. reflexivity. Qed.

Lemma advance_records st e st' :
  advance st e = Ok st' ->
  exists d, records st' = records st ++ [record_on d e].
Proof.
  unfold advance. destruct (previous_clock st) as [p|].
  - destruct (time_lt (clock_time e) p).
    + destruct (date_add _ _) as [d|]; cbn [bind]; [|discriminate].
      intros [= <-]. exists d. reflexivity.
    + cbn [bind]. intros [= <-]. eexists. reflexivity.
  - cbn [bind]. intros [= <-]. eexists. reflexivity.
Qed.

Lemma loop_steady lim : forall lines n st es,
  decode_lines lim n lines = Ok es ->
  nondecreasing (trail (previous_clock st) es) ->
  exists last,
    loop lim n lines st
    = Ok {| records := records st ++ map (record_on (current_date st)) es;
            current_date := current_date st;
            previous_clock := last |}.
Proof.
  induction lines as [|raw lines IH]; intros n st es Hdec Hnd.
  - injection Hdec as <-. exists (previous_clock st). simpl.
    rewrite app_nil_r. destruct st. reflexivity.
  - cbn [decode_lines] in Hdec. cbn [loop]. rewrite loop_body_split.
    destruct (decode_line lim n raw) as [oe|]; [|discriminate].
    cbn [bind] in *.
    destruct (decode_lines lim (S n) lines) as [es'|] eqn:Hes;
      [|discriminate].
    cbn [bind] in Hdec. injection Hdec as <-.
    destruct oe as [e|].
    + rewrite advance_same_day.
      * cbn [bind].
        edestruct (IH (S n)) as [last Hl]; [exact Hes | | rewrite Hl].
        -- cbn [previous_clock trail].
           destruct (previous_clock st); cbn [trail map nondecreasing] in Hnd.
           ++ destruct Hnd as [_ Hnd]. exact Hnd.
           ++ exact Hnd.
        -- exists last. cbn [records current_date map].
           rewrite <- app_assoc. reflexivity.
      * destruct (previous_clock st); [|exact I].
        cbn [trail map nondecreasing] in Hnd. destruct Hnd as [Hnd _].
        exact Hnd.
    + cbn [bind]. apply IH; assumption.
Qed.

Lemma loop_events lim : forall lines n st st',
  loop lim n lines st = Ok st' ->
  exists es,
    decode_lines lim n lines = Ok es
    /\ map event_of (records st') = map event_of (records st) ++ es
    /\ List.length es
       = List.length (filter (fun l => negb (is_blank l)) lines).
Proof.
  induction lines as [|raw lines IH]; intros n st st' H.
  - injection H as <-. exists []. rewrite app_nil_r. auto.
  - cbn [loop] in H. rewrite loop_body_split in H.
    cbn [decode_lines filter].
    destruct (decode_line lim n raw) as [oe|] eqn:Hd; [|discriminate].
    cbn [bind] in *. destruct oe as [e|].
    + destruct (advance st e) as [st1|] eqn:Ha; [|discriminate].
      cbn [bind] in H. apply IH in H. destruct H as (es & -> & Hr & Hl).
      apply advance_records in Ha. destruct Ha as [d Ha].
      rewrite (decode_line_some _ _ _ Hd). cbn [negb bind].
      exists (e :: es). split; [reflexivity|]. split.
      * rewrite Hr, Ha, map_app. cbn [map]. rewrite event_of_record_on.
        rewrite <- app_assoc. reflexivity.
      * cbn [List.length]. rewrite Hl. reflexivity.
    + apply IH in H. destruct H as (es & -> & Hr & Hl).
      rewrite (decode_line_none _ _ _ Hd). cbn [negb bind].
      exists es. auto.
Qed.

(** ** Lines and the events they write *)

Lemma line_shape_nonempty clock company percent line :
  line_shape clock company percent line -> line <> [].
Proof.
  intros H. destruct H as [ws1 ws2 ws3 ws4 ws5 ws6 ws7 ws8 ws9 d1 d2 d3 Hck].
  destruct Hck. discriminate.
Qed.

Lemma decode_line_writes lim n raw e :
  decode_line lim n raw = Ok (Some e) <-> writes lim (strip raw) e.
Proof.
  unfold decode_line, writes. split.
  - destruct (strip raw) as [|x line]; [discriminate|].
    destruct (re_match LOG_PATTERN (x :: line)) as [m|] eqn:Hm;
      [|discriminate].
    apply LOG_PATTERN_sound in Hm.
    destruct (int lim (group m "percent")) as [pct|] eqn:Hi;
      cbn [bind]; [|discriminate].
    destruct (_normalize_clock (group m "clock")) as [nc|] eqn:Hn;
      cbn [bind]; [|discriminate].
    destruct (strptime_HM nc) as [t|] eqn:Ht; cbn [bind]; [|discriminate].
    intros [= <-]. cbn [ev_company ev_percent clock_time]. eauto 8.
  - intros (ck & pc & nc & Hshape & Hi & Hn & Ht).
    pose proof (line_shape_nonempty Hshape) as Hne.
    apply LOG_PATTERN_complete in Hshape.
    destruct Hshape as (m & Hm & Hck & Hco & Hpc).
    destruct (strip raw) as [|x line]; [congruence|].
    rewrite Hm, Hpc, Hi. cbn [bind]. rewrite Hck, Hn. cbn [bind].
    rewrite Ht. cbn [bind]. rewrite Hco. destruct e. reflexivity.
Qed.

Lemma decimal_int_nonneg s : (0 <= decimal_int s)%Z.
Proof.
  unfold decimal_int.
  assert (H : forall acc, (0 <= acc)%Z ->
            (0 <= fold_left
                    (fun acc c => 10 * acc + Z.of_N (decimal_value c)) s acc)%Z).
  { induction s as [|c s IH]; intros acc Hacc; cbn [fold_left]; [exact Hacc|].
    apply IH. lia. }
  apply H. lia.
Qed.

Lemma int_ok lim percent v :
  int lim percent = Ok v -> v = decimal_int percent.
Proof.
  unfold int. destruct (_ && _ && _)%bool; [discriminate|].
  intros [= <-]. reflexivity.
Qed.

(** What a line writes is an event in range. *)
Lemma writes_valid lim line e : writes lim line e -> valid_event e.
Proof.
  intros (ck & pc & nc & Hshape & Hi & Hn & Ht).
  destruct Hshape as [ws1 ws2 ws3 ws4 ws5 ws6 ws7 ws8 ws9 d1 d2 d3
                        Hck Hlen Hup Hne Hpc Hws Hd1 Hd2 Hd3].
  destruct Hck as [a b sep c d tail Ha Hb Hsep Hc Hd Htail].
  rewrite normalize_clock_token in Hn by assumption. injection Hn as <-.
  rewrite strptime_HM_spec in Ht by assumption.
  destruct (hour_field_ok a b) eqn:Hh; [|discriminate].
  destruct (minute_field_ok c) eqn:Hm; [|discriminate].
  cbn [andb] in Ht. injection Ht as Ht.
  apply hour_field_bound in Hh. apply (@minute_field_bound c d) in Hm.
  apply int_ok in Hi. pose proof (decimal_int_nonneg pc).
  unfold valid_event. rewrite <- Ht. cbn [hour minute second microsecond].
  repeat split; try lia; assumption.
Qed.

(** *** The plain rendering of an event *)

Lemma lstrip_id s : stops is_space s -> lstrip s = s.
Proof. destruct s as [|c s]; [reflexivity|]. simpl. intros ->. reflexivity. Qed.

Lemma strip_id s :
  stops is_space s -> stops is_space (rev s) -> strip s = s.
Proof.
  intros H1 H2. unfold strip. rewrite (lstrip_id _ H1), (lstrip_id _ H2).
  apply rev_involutive.
Qed.

Lemma two_digits_table :
  forallb
    (fun k =>
       let n := Z.of_nat k in
       forallb is_decimal (two_digits n)
       && (decimal_int (two_digits n) =? n)%Z
       && (Nat.ltb 59 k || minute_field_ok (hd 0%N (two_digits n)))
       && (Nat.ltb 23 k
           || hour_field_ok (hd 0%N (two_digits n))
                (hd 0%N (List.tl (two_digits n)))))
    (List.seq 0 60) = true.
Proof. vm_compute. reflexivity. Qed.

Lemma two_digits_spec n :
  (0 <= n <= 59)%Z ->
  exists x y,
    two_digits n = [x; y] /\ is_decimal x = true /\ is_decimal y = true
    /\ decimal_int [x; y] = n /\ minute_field_ok x = true
    /\ ((n <= 23)%Z -> hour_field_ok x y = true).
Proof.
  intros Hn. pose proof two_digits_table as T.
  rewrite forallb_forall in T. specialize (T (Z.to_nat n)).
  rewrite Z2Nat.id in T by lia.
  assert (Hin : In (Z.to_nat n) (List.seq 0 60)) by (apply in_seq; lia).
  apply T in Hin. clear T. cbv zeta in Hin.
  exists (0x30 + Z.to_N (n / 10))%N, (0x30 + Z.to_N (n mod 10))%N.
  unfold two_digits in *. cbn [hd List.tl forallb] in Hin.
  repeat (apply andb_prop in Hin; destruct Hin as [Hin ?]).
  rewrite andb_true_r in *.
  repeat match goal with
  | H : (_ =? _)%Z = true |- _ => apply Z.eqb_eq in H
  | H : (Nat.ltb ?a ?b || _)%bool = true |- _ =>
      apply orb_prop in H; destruct H as [H|H];
      [apply Nat.ltb_lt in H|]
  end; repeat split; try assumption; try lia; intros; try lia;
    try assumption.
Qed.

(** The plain rendering of an event in range is a line that writes it,
    with nothing to strip. *)
Lemma render_writes lim e :
  valid_event e ->
  lim = 0%nat
  \/ (List.length (numeral (ev_percent e)) <= Nat.max 640 lim)%nat ->
  writes lim (render e) e /\ strip (render e) = render e.
Proof.
  intros ((Hh & Hm & Hs & Hus) & Hlen & Hup & Hp) Hlim.
  destruct (@two_digits_spec (hour (clock_time e)) ltac:(lia))
    as (x & y & Hxy & Hx & Hy & Hxyv & _ & Hhour).
  destruct (@two_digits_spec (minute (clock_time e)) ltac:(lia))
    as (x' & y' & Hxy' & Hx' & Hy' & Hxyv' & Hmin & _).
  destruct (numeral_spec Hp) as (Hnd & Hnv & Hnne).
  unfold render. rewrite Hxy, Hxy'. split.
  - exists [x; y; COLON; x'; y'], (numeral (ev_percent e)),
      [x; y; COLON; x'; y'].
    split; [|split; [|split]].
    + assert (Hck : clock_token ([x; y; COLON; x'; y'] ++ []))
        by (constructor; auto).
      exact (@line_shape_intro ([x; y; COLON; x'; y'] ++ [])
               (ev_company e) (numeral (ev_percent e))
               [SPACE] [SPACE] [SPACE] [SPACE] [SPACE] [SPACE]
               [SPACE] [] [] HYPHEN HYPHEN HYPHEN
               Hck Hlen Hup Hnne Hnd eq_refl eq_refl eq_refl eq_refl).
    + unfold int. rewrite Hnv.
      replace (Nat.ltb 640 _ && Nat.ltb 0 lim && Nat.ltb lim _)%bool
        with false; [reflexivity|].
      symmetry. rewrite !andb_false_iff, !Nat.ltb_ge. lia.
    + apply (@normalize_clock_token x y COLON x' y' []); auto.
    + rewrite strptime_HM_spec by assumption.
      rewrite Hhour by lia. rewrite Hmin. cbn [andb].
      rewrite Hxyv, Hxyv'. destruct (clock_time e) as [h m s us].
      cbn [second microsecond] in Hs, Hus. subst. reflexivity.
  - apply strip_id.
    + cbn [app stops]. apply decimal_facts in Hx. tauto.
    + change (lit "%") with [PERCENT_SIGN]. rewrite !app_assoc. rewrite rev_unit.
      reflexivity.
Qed.

(** *** Lines that differ in the spelling of the clock only *)

Lemma clock_only_match ck rest :
  clock_token ck -> stops (N.eqb LETTER_h) rest ->
  re_match (Grp "clock" CLOCK_PATTERN) (ck ++ rest)
  = Some {| m_end := List.length ck; m_groups := [("clock", ck)] |}.
Proof.
  intros Hck Hs. unfold re_match.
  apply (@finds_grp "clock" CLOCK_PATTERN 0 ck rest [] []
           (@finds_clock 0 ck rest [] Hck Hs)).
  reflexivity.
Qed.

Lemma app_same_length (l1 l2 r1 r2 : str) :
  List.length l1 = List.length l2 -> l1 ++ r1 = l2 ++ r2 ->
  l1 = l2 /\ r1 = r2.
Proof.
  revert l2. induction l1 as [|a l1 IH]; intros [|b l2] Hl H;
    try discriminate.
  - auto.
  - injection H as -> H. destruct (IH l2) as [-> ->]; auto.
Qed.

(** A line of the grammar is its clock followed by a rest that does not
    depend on how the clock is spelled; its clock normal form is the
    normalised clock followed by that rest. *)
Lemma line_shape_clock_rest ck co pc line nc :
  line_shape ck co pc line -> _normalize_clock ck = Ok nc ->
  exists rest,
    line = ck ++ rest
    /\ clock_normal_form line = nc ++ rest
    /\ List.length nc = 5%nat
    /\ (forall ck', clock_token ck' -> line_shape ck' co pc (ck' ++ rest)).
Proof.
  intros H Hn.
  destruct H as [ws1 ws2 ws3 ws4 ws5 ws6 ws7 ws8 ws9 d1 d2 d3
                   Hck Hlen Hup Hne Hpc Hws Hd1 Hd2 Hd3].
  eexists. split; [reflexivity|]. split; [|split].
  - unfold clock_normal_form. rewrite clock_only_match.
    + cbn [group m_groups lookup m_end]. rewrite String.eqb_refl, Hn.
      rewrite skipn_app, skipn_all, Nat.sub_diag. reflexivity.
    + exact Hck.
    + apply forallb_app_inv in Hws. destruct Hws as [Hs1 _].
      apply stops_app with (q := is_space).
      * intros c Hc. apply space_facts. exact Hc.
      * exact Hs1.
      * apply dash_facts. exact Hd1.
  - destruct Hck as [a b sep c d tail Ha Hb Hsep Hc Hd Htail].
    rewrite normalize_clock_token in Hn by assumption.
    injection Hn as <-. reflexivity.
  - intros ck' Hck'. constructor; assumption.
Qed.

(** Lines equal up to the normalisation of the clock write the same
    event. *)
Lemma same_clock_normal_form_same_event lim n1 n2 raw1 raw2 e1 e2 :
  decode_line lim n1 raw1 = Ok (Some e1) ->
  decode_line lim n2 raw2 = Ok (Some e2) ->
  clock_normal_form (strip raw1) = clock_normal_form (strip raw2) ->
  e1 = e2.
Proof.
  intros H1 H2 Heq. pose proof H2 as H2'.
  apply decode_line_writes in H1, H2.
  destruct H1 as (ck1 & pc1 & nc1 & Hs1 & Hi1 & Hn1 & Ht1).
  destruct H2 as (ck2 & pc2 & nc2 & Hs2 & Hi2 & Hn2 & Ht2).
  destruct (line_shape_clock_rest Hs1 Hn1) as (r1 & Hl1 & Hc1 & Hlen1 & Hre1).
  destruct (line_shape_clock_rest Hs2 Hn2) as (r2 & Hl2 & Hc2 & Hlen2 & _).
  rewrite Hc1, Hc2 in Heq.
  apply app_same_length in Heq; [|congruence]. destruct Heq as [-> ->].
  assert (Hck2 : clock_token ck2) by (destruct Hs2; assumption).
  assert (Hw : writes lim (strip raw2)
                 {| clock_time := clock_time e1; ev_company := ev_company e1;
                    ev_percent := ev_percent e1 |}).
  { exists ck2, pc1, nc2. rewrite Hl2. cbn [ev_company ev_percent clock_time].
    auto. }
  apply decode_line_writes with (n := n2) in Hw. rewrite H2' in Hw.
  injection Hw as ->. destruct e1. reflexivity.
Qed.

(** ** The calendar *)

Module Calendar.

Local Open Scope Z_scope.

Lemma yday_table :
  forallb (fun k => yday_ok false (Z.of_nat k)) (List.seq 0 365)
  && forallb (fun k => yday_ok true (Z.of_nat k)) (List.seq 0 366) = true.
Proof. vm_compute. reflexivity. Qed.

Lemma yday_month_ok (leap : bool) (n : Z) :
  0 <= n < 365 + (if leap then 1 else 0) -> yday_ok leap n = true.
Proof.
  intros Hn. pose proof yday_table as T. apply andb_prop in T.
  destruct T as [T0 T1]. rewrite forallb_forall in T0, T1.
  rewrite <- (Z2Nat.id n) by lia.
  destruct leap; [apply T1 | apply T0]; apply in_seq; lia.
Qed.

Lemma is_leap_true y :
  y mod 4 = 0 -> (y mod 100 <> 0 \/ y mod 400 = 0) -> is_leap y = true.
Proof.
  unfold is_leap. intros H4 H. apply andb_true_intro. split.
  - apply Z.eqb_eq. exact H4.
  - apply orb_true_intro. destruct H as [H|H].
    + left. apply negb_true_iff. apply Z.eqb_neq. exact H.
    + right. apply Z.eqb_eq. exact H.
Qed.

Lemma is_leap_false y :
  y mod 4 <> 0 \/ (y mod 100 = 0 /\ y mod 400 <> 0) -> is_leap y = false.
Proof.
  unfold is_leap. intros H. apply andb_false_iff. destruct H as [H|[H1 H2]].
  - left. apply Z.eqb_neq. exact H.
  - right. apply orb_false_iff. split.
    + apply negb_false_iff. apply Z.eqb_eq. exact H1.
    + apply Z.eqb_neq. exact H2.
Qed.

Lemma fromordinal_tail n n400 n100 n4 n1 r :
  n - 1 = 146097 * n400 + 36524 * n100 + 1461 * n4 + 365 * n1 + r ->
  0 <= n400 -> 0 <= n100 <= 3 -> 0 <= n4 <= 24 -> 0 <= n1 <= 3 ->
  0 <= r < 365 + (if (n1 =? 3) && (negb (n4 =? 24) || (n100 =? 3))
                  then 1 else 0) ->
  n <= MAXORDINAL ->
  let y := n400 * 400 + 1 + n100 * 100 + n4 * 4 + n1 in
  let leapyear := (n1 =? 3) && (negb (n4 =? 24) || (n100 =? 3)) in
  let d := {| year := y; month := fst (yday_month leapyear r);
              day := snd (yday_month leapyear r) |} in
  valid_date d /\ toordinal d = n.
Proof.
  intros Hn H400 H100 H4 H1 Hr Hmax y leapyear d.
  assert (Hleap : is_leap y = leapyear).
  { unfold leapyear, y.
    destruct (Z.eqb_spec n1 3) as [->|Hn1]; cbn [andb].
    - destruct (Z.eqb_spec n4 24) as [->|Hn4]; cbn [negb orb].
      + destruct (Z.eqb_spec n100 3) as [->|Hn100].
        * apply is_leap_true; [|right]; Z.div_mod_to_equations; lia.
        * apply is_leap_false. right. Z.div_mod_to_equations. lia.
      + apply is_leap_true; [|left]; Z.div_mod_to_equations; lia.
    - apply is_leap_false. left. Z.div_mod_to_equations. lia. }
  assert (Hdby : days_before_year y
                 = 146097 * n400 + 36524 * n100 + 1461 * n4 + 365 * n1).
  { unfold days_before_year, y. Z.div_mod_to_equations. lia. }
  pose proof (@yday_month_ok leapyear r Hr) as Hok.
  unfold yday_ok in Hok. unfold d.
  destruct (yday_month leapyear r) as [m dd]. cbn [fst snd].
  repeat (apply andb_prop in Hok; destruct Hok as [Hok ?]).
  unfold valid_date, toordinal, days_before_month, days_in_month.
  cbn [year month day]. rewrite Hleap, Hdby.
  repeat match goal with
  | H : (_ <=? _) = true |- _ => apply Z.leb_le in H
  | H : (_ =? _) = true |- _ => apply Z.eqb_eq in H
  end.
  unfold MAXORDINAL in Hmax. unfold y. lia.
Qed.

(** Names the quotient and remainder of [a] by [b] and keeps only their
    defining facts. *)
Ltac name_divmod a b q r :=
  let E := fresh "E" in
  let B := fresh "B" in
  pose proof (Z.div_mod a b ltac:(lia)) as E;
  pose proof (Z.mod_pos_bound a b ltac:(lia)) as B;
  set (q := a / b) in *; set (r := a mod b) in *;
  clearbody q r.

(** [fromordinal] and [toordinal] are inverse on the days a [date] can
    hold, and [fromordinal] only makes dates of the calendar. *)
Lemma fromordinal_spec n :
  1 <= n <= MAXORDINAL ->
  valid_date (fromordinal n) /\ toordinal (fromordinal n) = n.
Proof.
  intros Hn. unfold fromordinal. cbv zeta.
  assert (H0 : 0 <= n - 1) by lia.
  name_divmod (n - 1) 146097 n400 r400.
  name_divmod r400 36524 n100 r100.
  name_divmod r100 1461 n4 r4.
  name_divmod r4 365 n1 r.
  assert (H400 : 0 <= n400) by lia.
  assert (H100 : 0 <= n100 <= 4) by lia.
  assert (H4 : 0 <= n4 <= 24) by lia.
  assert (H1 : 0 <= n1 <= 4) by lia.
  destruct (Z.eqb_spec n1 4) as [->|Hn1]; cbn [orb].
  - (* the last day of a leap year *)
    assert (n4 <> 24 \/ n100 = 3) by lia.
    assert (Hleap : is_leap (n400 * 400 + 1 + n100 * 100 + n4 * 4 + 4 - 1)
                    = true).
    { destruct (Z.eq_dec n4 24) as [->|];
        (apply is_leap_true; [|try (right; Z.div_mod_to_equations; lia);
                                try (left; Z.div_mod_to_equations; lia)];
         Z.div_mod_to_equations; lia). }
    unfold valid_date, toordinal, days_before_month, days_in_month,
      days_before_year.
    cbn [year month day]. rewrite Hleap.
    change (DAYS_BEFORE_MONTH 12) with 334.
    change (DAYS_IN_MONTH 12) with 31.
    change (2 <? 12) with true. change (12 =? 2) with false. cbn [andb].
    unfold MAXORDINAL in Hn.
    split; [|Z.div_mod_to_equations; lia].
    repeat split; try lia.
  - destruct (Z.eqb_spec n100 4) as [->|Hn100].
    + (* the last day of a 400-year cycle *)
      assert (Hleap : is_leap (n400 * 400 + 1 + 4 * 100 + n4 * 4 + n1 - 1)
                      = true).
      { apply is_leap_true; [|right]; Z.div_mod_to_equations; lia. }
      unfold valid_date, toordinal, days_before_month, days_in_month,
        days_before_year.
      cbn [year month day]. rewrite Hleap.
      change (DAYS_BEFORE_MONTH 12) with 334.
      change (DAYS_IN_MONTH 12) with 31.
    change (2 <? 12) with true. change (12 =? 2) with false. cbn [andb].
      unfold MAXORDINAL in Hn.
      split; [|Z.div_mod_to_equations; lia].
      repeat split; try lia.
    + pose proof (@fromordinal_tail n n400 n100 n4 n1 r) as T.
      cbv zeta in T. unfold yday_month in T. cbv zeta in T.
      destruct (r <? _) eqn:Hlt; cbn [fst snd] in T; apply T; try lia;
        destruct ((n1 =? 3) && (negb (n4 =? 24) || (n100 =? 3)))%bool; lia.
Qed.

End Calendar.

(** ** Adding to dates *)

Module DateArith.

Import Calendar.
Local Open Scope Z_scope.

Lemma month_cases m :
  1 <= m <= 12 ->
  m = 1 \/ m = 2 \/ m = 3 \/ m = 4 \/ m = 5 \/ m = 6 \/ m = 7 \/ m = 8
  \/ m = 9 \/ m = 10 \/ m = 11 \/ m = 12.
Proof. lia. Qed.

Lemma is_leap_cases y :
  (is_leap y = true /\ y mod 4 = 0 /\ (y mod 100 <> 0 \/ y mod 400 = 0))
  \/ (is_leap y = false
      /\ (y mod 4 <> 0 \/ (y mod 100 = 0 /\ y mod 400 <> 0))).
Proof.
  unfold is_leap.
  destruct (Z.eqb_spec (y mod 4) 0), (Z.eqb_spec (y mod 100) 0),
    (Z.eqb_spec (y mod 400) 0); cbn; tauto.
Qed.

(** Looks up the month tables at the months that are numerals. *)
Ltac eval_tables :=
  repeat match goal with
  | |- context [DAYS_BEFORE_MONTH ?m] =>
      let v := eval vm_compute in (DAYS_BEFORE_MONTH m) in
      change (DAYS_BEFORE_MONTH m) with v
  | |- context [DAYS_IN_MONTH ?m] =>
      let v := eval vm_compute in (DAYS_IN_MONTH m) in
      change (DAYS_IN_MONTH m) with v
  | H : context [DAYS_IN_MONTH ?m] |- _ =>
      let v := eval vm_compute in (DAYS_IN_MONTH m) in
      change (DAYS_IN_MONTH m) with v in H
  end.

(** The ordinals of the dates a [date] can hold. *)
Lemma toordinal_bounds d :
  valid_date d -> 1 <= toordinal d <= MAXORDINAL.
Proof.
  unfold valid_date, toordinal, days_before_month, days_in_month,
    days_before_year, MAXORDINAL.
  destruct d as [y m dd]. cbn [year month day]. intros (Hy & Hm & Hd).
  destruct (is_leap_cases y) as [(Hl & H4 & H100) | (Hl & H)];
    rewrite Hl in *;
    destruct (month_cases Hm) as
      [->|[->|[->|[->|[->|[->|[->|[->|[->|[->|[->| ->]]]]]]]]]]];
    eval_tables;
    cbn [Z.eqb Z.ltb Z.compare Pos.eqb Pos.compare Pos.compare_cont andb]
      in Hd |- *;
    Z.div_mod_to_equations; lia.
Qed.

Lemma date_add_one d :
  valid_date d -> toordinal d < MAXORDINAL ->
  exists d',
    date_add d (timedelta_days 1) = Ok d'
    /\ toordinal d' = toordinal d + 1 /\ valid_date d'.
Proof.
  intros Hv Hlt. pose proof (toordinal_bounds Hv) as Hb.
  unfold date_add. cbn [timedelta_days td_days].
  replace ((0 <? toordinal d + 1) && (toordinal d + 1 <=? MAXORDINAL))%bool
    with true
    by (symmetry; apply andb_true_intro; split;
        [apply Z.ltb_lt | apply Z.leb_le]; lia).
  destruct (@fromordinal_spec (toordinal d + 1)) as [H1 H2]; [lia|].
  eauto.
Qed.

Lemma date_add_overflow d :
  toordinal d = MAXORDINAL ->
  date_add d (timedelta_days 1) = Raise OverflowError.
Proof.
  intros H. unfold date_add. cbn [timedelta_days td_days]. rewrite H.
  reflexivity.
Qed.

End DateArith.

(** ** The adjusted timestamp *)

Module Adjusted.

Import Calendar DateArith.
Local Open Scope Z_scope.

Lemma strftime_ignores_seconds d h m s us :
  strftime_minutes_Z
    (combine d {| hour := h; minute := m; second := s; microsecond := us |})
  = strftime_minutes_Z (combine d (hm h m)).
Proof. reflexivity. Qed.

Lemma datetime_add_three_hours dt :
  valid_datetime dt ->
  let k := minute_index dt + 180 in
  (k < (MAXORDINAL + 1) * 1440 ->
   datetime_add dt (timedelta_hours 3)
   = Ok (combine (fromordinal (k / 1440))
           {| hour := (k mod 1440) / 60; minute := k mod 60;
              second := second (dt_time dt);
              microsecond := microsecond (dt_time dt) |}))
  /\ ((MAXORDINAL + 1) * 1440 <= k ->
      datetime_add dt (timedelta_hours 3) = Raise OverflowError).
Proof.
  intros [Hd Ht] k. pose proof (toordinal_bounds Hd) as Ho.
  destruct Ht as (Hh & Hm & Hs & Hus).
  unfold datetime_add. cbn [timedelta_hours td_days td_seconds td_microseconds].
  unfold minute_index in k.
  set (o := toordinal (dt_date dt)) in *.
  set (h := hour (dt_time dt)) in *. set (m := minute (dt_time dt)) in *.
  set (s := second (dt_time dt)) in *.
  set (us := microsecond (dt_time dt)) in *.
  replace ((us + 0) / 1000000) with 0 by (Z.div_mod_to_equations; lia).
  replace ((us + 0) mod 1000000) with us by (Z.div_mod_to_equations; lia).
  set (total := h * 3600 + m * 60 + s + 3 * 3600 + 0).
  assert (Hdays : o + 0 + total / 86400 = k / 1440)
    by (unfold total, k; Z.div_mod_to_equations; lia).
  assert (Hhour : total mod 86400 / 3600 = k mod 1440 / 60)
    by (unfold total, k; Z.div_mod_to_equations; lia).
  assert (Hmin : (total mod 86400) mod 3600 / 60 = k mod 60)
    by (unfold total, k; Z.div_mod_to_equations; lia).
  assert (Hsec : (total mod 86400) mod 60 = s)
    by (unfold total; Z.div_mod_to_equations; lia).
  rewrite Hdays, Hhour, Hmin, Hsec. unfold MAXORDINAL in *. split; intros Hk.
  - replace ((0 <? k / 1440) && (k / 1440 <=? 3652059))%bool with true;
      [reflexivity|].
    symmetry. apply andb_true_intro.
    split; [apply Z.ltb_lt | apply Z.leb_le];
      unfold k; Z.div_mod_to_equations; lia.
  - replace (k / 1440 <=? 3652059) with false;
      [rewrite andb_false_r; reflexivity|].
    symmetry. apply Z.leb_gt. Z.div_mod_to_equations. lia.
Qed.

Lemma minute_datetime_spec k :
  1440 <= k < (MAXORDINAL + 1) * 1440 ->
  minute_index (minute_datetime k) = k /\ valid_datetime (minute_datetime k).
Proof.
  intros Hk. unfold MAXORDINAL in Hk.
  destruct (@fromordinal_spec (k / 1440)) as [Hv Ho].
  { unfold MAXORDINAL. Z.div_mod_to_equations. lia. }
  unfold minute_index, minute_datetime, valid_datetime, valid_time.
  cbn [combine dt_date dt_time hm hour minute second microsecond].
  rewrite Ho. split; [|split; [exact Hv|]].
  - Z.div_mod_to_equations. lia.
  - repeat split; try lia; Z.div_mod_to_equations; lia.
Qed.

End Adjusted.

(** * The claims *)

Import Calendar DateArith.

(** C1. For the clocks 23:50 then 00:10 and the shift date 2024-01-01 the
    records are dated 2024-01-01 and 2024-01-02. In general, when a line is
    read whose clock time is strictly less than the previous one, the
    iteration adds [timedelta(days=1)] to the running date before it
    composes the timestamp, and the record and the cursor carry the new
    date; from every date the calendar holds, except its last day
    9999-12-31 where the addition raises [OverflowError], that is the next
    day, one ordinal further. *)
Theorem rollover_advances_one_day :
  (forall lim,
      parse_records lim [example_line "23:50"; example_line "00:10"]
        (ymd 2024 1 1)
      = Ok [ example_record (ymd 2024 1 1) (hm 23 50);
             example_record (ymd 2024 1 2) (hm 0 10) ])
  /\ (forall lim st n raw e previous,
         decode_line lim n raw = Ok (Some e) ->
         previous_clock st = Some previous ->
         time_lt (clock_time e) previous = true ->
         loop_body lim st n raw
         = (d <- date_add (current_date st) (timedelta_days 1) ;;
            Ok {| records := records st ++ [record_on d e];
                  current_date := d;
                  previous_clock := Some (clock_time e) |})
         /\ (valid_date (current_date st) ->
             (toordinal (current_date st) < MAXORDINAL)%Z ->
             exists d,
               date_add (current_date st) (timedelta_days 1) = Ok d
               /\ toordinal d = (toordinal (current_date st) + 1)%Z
               /\ valid_date d)
         /\ (toordinal (current_date st) = MAXORDINAL ->
             loop_body lim st n raw = Raise OverflowError)).
Proof.
  split.
  - intros lim. vm_compute. reflexivity.
  - intros lim st n raw e previous Hd Hp Hlt.
    assert (Hbody : loop_body lim st n raw
                    = (d <- date_add (current_date st) (timedelta_days 1) ;;
                       Ok {| records := records st ++ [record_on d e];
                             current_date := d;
                             previous_clock := Some (clock_time e) |})).
    { rewrite loop_body_split, Hd. cbn [bind].
      apply advance_next_day with (previous := previous); assumption. }
    split; [exact Hbody | split].
    + apply date_add_one.
    + intros Hmax. rewrite Hbody, (date_add_overflow _ Hmax). reflexivity.
Qed.

Lemma rollover_advances_one_day_witness :
  loop_body 4300
    {| records := [example_record (ymd 2024 1 1) (hm 23 50)];
       current_date := ymd 2024 1 1; previous_clock := Some (hm 23 50) |}
    2 (example_line "00:10")
  = (d <- date_add (ymd 2024 1 1) (timedelta_days 1) ;;
     Ok {| records :=
             [example_record (ymd 2024 1 1) (hm 23 50)]
             ++ [record_on d {| clock_time := hm 0 10;
                                ev_company := lit "ABC"; ev_percent := 10 |}];
           current_date := d;
           previous_clock := Some (hm 0 10) |})
  /\ exists d,
       date_add (ymd 2024 1 1) (timedelta_days 1) = Ok d
       /\ toordinal d = (toordinal (ymd 2024 1 1) + 1)%Z
       /\ valid_date d.
Proof.
  destruct (proj2 rollover_advances_one_day 4300
              {| records := [example_record (ymd 2024 1 1) (hm 23 50)];
                 current_date := ymd 2024 1 1;
                 previous_clock := Some (hm 23 50) |}
              2%nat (example_line "00:10")
              {| clock_time := hm 0 10; ev_company := lit "ABC";
                 ev_percent := 10 |}
              (hm 23 50) eq_refl eq_refl eq_refl) as (Hbody & Hnext & _).
  split; [exact Hbody|]. apply Hnext.
  - repeat split; apply Z.leb_le; reflexivity.
  - reflexivity.
Defined.

(** C2. When the clock times of the events of an input never decrease,
    every output record is dated with the shift date: the date is never
    advanced. Such an input, once every line of it can be read, is always
    parsed to the end, each event giving its record on the shift date. *)
Theorem nondecreasing_keeps_shift_date :
  forall lim lines shift_date,
    (forall es,
        decode_lines lim 1 lines = Ok es ->
        nondecreasing (map clock_time es) ->
        parse_records lim lines shift_date
        = Ok (map (record_on shift_date) es))
    /\ (forall rs,
           parse_records lim lines shift_date = Ok rs ->
           nondecreasing (map (fun r => dt_time (timestamp r)) rs) ->
           Forall (fun r => dt_date (timestamp r) = shift_date) rs).
Proof.
  intros lim lines shift_date.
  assert (Hsteady : forall es,
             decode_lines lim 1 lines = Ok es ->
             nondecreasing (map clock_time es) ->
             parse_records lim lines shift_date
             = Ok (map (record_on shift_date) es)).
  { intros es Hdec Hnd. unfold parse_records.
    edestruct (@loop_steady lim lines 1
                 {| records := []; current_date := shift_date;
                    previous_clock := None |} es) as [last Hl];
      [exact Hdec | exact Hnd |].
    rewrite Hl. reflexivity. }
  split; [exact Hsteady|].
  intros rs Hrs Hnd. pose proof Hrs as Hrun. unfold parse_records in Hrun.
  destruct (loop lim 1 lines _) as [st'|] eqn:Hloop; [|discriminate].
  cbn [bind] in Hrun. injection Hrun as <-.
  apply loop_events in Hloop. destruct Hloop as (es & Hdec & Hev & _).
  cbn [records map app] in Hev.
  assert (Hclk : map clock_time es
                 = map (fun r => dt_time (timestamp r)) (records st')).
  { rewrite <- Hev, map_map. reflexivity. }
  rewrite <- Hclk in Hnd. rewrite (Hsteady es Hdec Hnd) in Hrs.
  injection Hrs as <-.
  apply Forall_forall. intros r Hr. apply in_map_iff in Hr.
  destruct Hr as (e & <- & _). reflexivity.
Qed.

Lemma nondecreasing_keeps_shift_date_witness :
  parse_records 4300 [example_line "08:00"; example_line "08h30h";
                      example_line "10:00"] (ymd 2024 1 1)
  = Ok (map (record_on (ymd 2024 1 1))
          [ {| clock_time := hm 8 0; ev_company := lit "ABC";
               ev_percent := 10 |};
            {| clock_time := hm 8 30; ev_company := lit "ABC";
               ev_percent := 10 |};
            {| clock_time := hm 10 0; ev_company := lit "ABC";
               ev_percent := 10 |} ]).
Proof.
  apply (proj1 (@nondecreasing_keeps_shift_date 4300
                  [example_line "08:00"; example_line "08h30h";
                   example_line "10:00"]
                  (ymd 2024 1 1))).
  - vm_compute. reflexivity.
  - simpl. auto.
Defined.

(** C3. For the clocks 10:00 then 10:00 both records carry the shift date,
    whatever it is. In general, a line whose clock time equals the previous
    one leaves the running date as it is: the comparison is strict. *)
Theorem equal_clocks_keep_date :
  (forall lim shift_date,
      parse_records lim [example_line "10:00"; example_line "10:00"]
        shift_date
      = Ok [ example_record shift_date (hm 10 0);
             example_record shift_date (hm 10 0) ])
  /\ (forall lim st n raw e,
         decode_line lim n raw = Ok (Some e) ->
         previous_clock st = Some (clock_time e) ->
         loop_body lim st n raw
         = Ok {| records := records st ++ [record_on (current_date st) e];
                 current_date := current_date st;
                 previous_clock := Some (clock_time e) |}).
Proof.
  split.
  - intros lim shift_date. vm_compute. reflexivity.
  - intros lim st n raw e Hd Hp. rewrite loop_body_split, Hd. cbn [bind].
    apply advance_same_day. rewrite Hp. apply time_lt_irrefl.
Qed.

Lemma equal_clocks_keep_date_witness :
  loop_body 4300
    {| records := [example_record (ymd 2024 1 1) (hm 10 0)];
       current_date := ymd 2024 1 1; previous_clock := Some (hm 10 0) |}
    2 (example_line "10:00")
  = Ok {| records :=
            [example_record (ymd 2024 1 1) (hm 10 0)]
            ++ [record_on (ymd 2024 1 1)
                  {| clock_time := hm 10 0; ev_company := lit "ABC";
                     ev_percent := 10 |}];
          current_date := ymd 2024 1 1;
          previous_clock := Some (hm 10 0) |}.
Proof.
  apply (proj2 equal_clocks_keep_date 4300
           {| records := [example_record (ymd 2024 1 1) (hm 10 0)];
              current_date := ymd 2024 1 1;
              previous_clock := Some (hm 10 0) |}
           2%nat (example_line "10:00")
           {| clock_time := hm 10 0; ev_company := lit "ABC";
              ev_percent := 10 |}); reflexivity.
Defined.

(** C4, as amended. An input with a non-blank line that the grammar does
    not match is never parsed to records: parsing raises. When the lines
    before the first such line are all read and sequenced without error,
    what is raised is the [ParseError] that carries the 1-based number and
    the raw text of that line. In particular ["Despacho iniciado"] alone
    raises the error for line 1. *)
Theorem mismatch_raises_line_error :
  (forall lim shift_date,
      parse_records lim [lit "Despacho iniciado"] shift_date
      = Raise (ParseError
                 (Linha_nao_corresponde 1 (lit "Despacho iniciado"))))
  /\ (forall lim before raw after shift_date,
         strip raw <> [] ->
         re_match LOG_PATTERN (strip raw) = None ->
         (exists e,
             parse_records lim (before ++ raw :: after) shift_date = Raise e)
         /\ (forall rs,
                parse_records lim before shift_date = Ok rs ->
                parse_records lim (before ++ raw :: after) shift_date
                = Raise (ParseError
                           (Linha_nao_corresponde
                              (S (List.length before)) raw)))).
Proof.
  split.
  - intros lim shift_date. vm_compute. reflexivity.
  - intros lim before raw after shift_date Hne Hno.
    unfold parse_records. rewrite loop_app.
    destruct (loop lim 1 before _) as [st|e0] eqn:Hpre; cbn [bind].
    + cbn [loop]. rewrite loop_body_split.
      rewrite decode_line_mismatch by assumption. cbn [bind].
      split; [eauto|]. intros rs _. reflexivity.
    + split; [eauto|]. intros rs Hrs. discriminate.
Qed.

Lemma mismatch_raises_line_error_witness :
  parse_records 4300
    ([example_line "23:50"; lit ""] ++ lit "Despacho iniciado" :: [])
    (ymd 2024 1 1)
  = Raise (ParseError (Linha_nao_corresponde 3 (lit "Despacho iniciado"))).
Proof.
  apply (proj2 (proj2 mismatch_raises_line_error 4300
                  [example_line "23:50"; lit ""] (lit "Despacho iniciado")
                  [] (ymd 2024 1 1)
                  ltac:(vm_compute; discriminate) eq_refl)
           [example_record (ymd 2024 1 1) (hm 23 50)]).
  vm_compute. reflexivity.
Defined.

(** C4 as stated fails: after a line that the grammar matches but whose
    clock is 25:00, the unmatched line ["Despacho iniciado"] is not
    reported; the run ends with the [ValueError] of [strptime] for the
    first line, which is no [ParseError] and names no line. *)
Lemma mismatch_not_always_reported :
  (In (lit "Despacho iniciado")
     [example_line "25:00"; lit "Despacho iniciado"]
   /\ strip (lit "Despacho iniciado") <> []
   /\ re_match LOG_PATTERN (strip (lit "Despacho iniciado")) = None)
  /\ parse_records 4300 [example_line "25:00"; lit "Despacho iniciado"]
       (ymd 2024 1 1)
     = Raise (ValueError_strptime (lit "25:00"))
  /\ is_ParseError (ValueError_strptime (lit "25:00")) = false.
Proof.
  split; [split; [|split] | split].
  - right. left. reflexivity.
  - vm_compute. discriminate.
  - vm_compute. reflexivity.
  - vm_compute. reflexivity.
  - reflexivity.
Qed.

(** C5. The records of a run are the events of its lines, in the order of
    the lines: one record for each line that is not blank, none for a
    blank line, which leaves the state of the loop as it is and raises
    nothing; an empty input gives no records. *)
Theorem records_follow_lines :
  (forall lim lines shift_date rs,
      parse_records lim lines shift_date = Ok rs ->
      exists es,
        decode_lines lim 1 lines = Ok es
        /\ map event_of rs = es
        /\ List.length rs
           = List.length (filter (fun l => negb (is_blank l)) lines))
  /\ (forall lim st n raw,
         is_blank raw = true -> loop_body lim st n raw = Ok st)
  /\ (forall lim shift_date, parse_records lim [] shift_date = Ok []).
Proof.
  split; [|split].
  - intros lim lines shift_date rs H. unfold parse_records in H.
    destruct (loop lim 1 lines _) as [st'|] eqn:Hloop; [|discriminate].
    cbn [bind] in H. injection H as <-.
    apply loop_events in Hloop. destruct Hloop as (es & Hdec & Hev & Hlen).
    exists es. cbn [records map app] in Hev. repeat split; try assumption.
    rewrite <- Hlen, <- Hev, length_map. reflexivity.
  - intros lim st n raw Hb. rewrite loop_body_split.
    rewrite decode_line_blank by exact Hb. reflexivity.
  - reflexivity.
Qed.

Lemma records_follow_lines_witness :
  exists es,
    decode_lines 4300 1
      [example_line "23:50"; lit "   "; example_line "00:10"] = Ok es
    /\ map event_of [ example_record (ymd 2024 1 1) (hm 23 50);
                      example_record (ymd 2024 1 2) (hm 0 10) ] = es
    /\ List.length [ example_record (ymd 2024 1 1) (hm 23 50);
                     example_record (ymd 2024 1 2) (hm 0 10) ]
       = List.length
           (filter (fun l => negb (is_blank l))
              [example_line "23:50"; lit "   "; example_line "00:10"]).
Proof.
  apply (proj1 records_follow_lines 4300
           [example_line "23:50"; lit "   "; example_line "00:10"]
           (ymd 2024 1 1)).
  vm_compute. reflexivity.
Defined.

(** C6. ["08h30h"], ["08h30"] and ["08:30"] normalise to the same text,
    ["08:30"], and so to the same clock time, 08:30; the same holds for any
    four digits in place of these. A clock whose stripped, lowered text,
    without a trailing [h] and with colons for its [h]s, is not two digits,
    a colon and two digits raises the [ParseError] with the invalid-clock
    message and the clock as it was given; that message is not the one of
    an unmatched line. *)
Theorem normalize_clock_forms :
  (_normalize_clock (lit "08h30h") = Ok (lit "08:30")
   /\ _normalize_clock (lit "08h30") = Ok (lit "08:30")
   /\ _normalize_clock (lit "08:30") = Ok (lit "08:30")
   /\ strptime_HM (lit "08:30") = Ok (hm 8 30))
  /\ (forall a b c d,
         is_decimal a = true -> is_decimal b = true ->
         is_decimal c = true -> is_decimal d = true ->
         _normalize_clock [a; b; LETTER_h; c; d; LETTER_h]
         = Ok [a; b; COLON; c; d]
         /\ _normalize_clock [a; b; LETTER_h; c; d] = Ok [a; b; COLON; c; d]
         /\ _normalize_clock [a; b; COLON; c; d] = Ok [a; b; COLON; c; d])
  /\ (forall clock,
         (is_HH_MM (trimmed_clock clock) = true
          /\ _normalize_clock clock = Ok (trimmed_clock clock))
         \/ (is_HH_MM (trimmed_clock clock) = false
             /\ _normalize_clock clock
                = Raise (ParseError (Horario_invalido clock))))
  /\ (forall clock n raw,
         Horario_invalido clock <> Linha_nao_corresponde n raw).
Proof.
  split; [|split; [|split]].
  - repeat split; reflexivity.
  - intros a b c d Ha Hb Hc Hd. repeat split.
    + apply (@normalize_clock_token a b LETTER_h c d [LETTER_h]); auto.
    + apply (@normalize_clock_token a b LETTER_h c d []); auto.
    + apply (@normalize_clock_token a b COLON c d []); auto.
  - intros clock. rewrite normalize_clock_spec.
    destruct (is_HH_MM (trimmed_clock clock)); auto.
  - intros clock n raw. discriminate.
Qed.

Lemma normalize_clock_forms_witness :
  _normalize_clock (lit "19h45h") = Ok (lit "19:45")
  /\ _normalize_clock (lit "19h45") = Ok (lit "19:45")
  /\ _normalize_clock (lit "19:45") = Ok (lit "19:45").
Proof.
  apply (proj1 (proj2 normalize_clock_forms) 0x31 0x39 0x34 0x35)%N;
    reflexivity.
Defined.

(** C7. The adjusted string of a record stamped 2024-01-01T23:50 is
    ["2024-01-02T02:50Z"]. In general, for a record with a timestamp the
    calendar holds, the adjusted string is the rendering
    year-month-dayThour:minute, followed by a literal Z, of the minute 180
    minutes after the minute of the timestamp, whatever its seconds; in
    the last three hours of 9999-12-31 the addition raises
    [OverflowError]. *)
Theorem adjusted_iso_adds_three_hours :
  (forall company percent,
      adjusted_iso {| timestamp := combine (ymd 2024 1 1) (hm 23 50);
                      company := company; exceeded_percent := percent |}
      = Ok (lit "2024-01-02T02:50Z"))
  /\ (forall r,
         valid_datetime (timestamp r) ->
         let k := (minute_index (timestamp r) + 180)%Z in
         ((k < (MAXORDINAL + 1) * 1440)%Z ->
          adjusted_iso r = Ok (strftime_minutes_Z (minute_datetime k))
          /\ minute_index (minute_datetime k) = k
          /\ valid_datetime (minute_datetime k))
         /\ (((MAXORDINAL + 1) * 1440 <= k)%Z ->
             adjusted_iso r = Raise OverflowError))
  /\ (forall dt,
         strftime_minutes_Z dt
         = numeral (year (dt_date dt)) ++ lit "-"
           ++ two_digits (month (dt_date dt)) ++ lit "-"
           ++ two_digits (day (dt_date dt)) ++ lit "T"
           ++ two_digits (hour (dt_time dt)) ++ lit ":"
           ++ two_digits (minute (dt_time dt)) ++ lit "Z").
Proof.
  split; [|split].
  - intros company percent. vm_compute. reflexivity.
  - intros r Hv k.
    destruct (@Adjusted.datetime_add_three_hours (timestamp r) Hv)
      as [Hok Hover].
    fold k in Hok, Hover. unfold adjusted_iso. split.
    + intros Hk. rewrite (Hok Hk). cbn [bind]. split.
      * rewrite Adjusted.strftime_ignores_seconds. reflexivity.
      * apply Adjusted.minute_datetime_spec. split; [|exact Hk].
        destruct Hv as [Hd Ht]. pose proof (toordinal_bounds Hd).
        destruct Ht as (Hh & Hm & _). unfold k, minute_index. lia.
    + intros Hk. rewrite (Hover Hk). reflexivity.
  - reflexivity.
Qed.

Lemma adjusted_iso_adds_three_hours_witness :
  adjusted_iso
    (example_record (ymd 2023 12 31)
       {| hour := 22; minute := 15; second := 59; microsecond := 7 |})
  = Ok (strftime_minutes_Z
          (minute_datetime
             (minute_index
                (combine (ymd 2023 12 31)
                   {| hour := 22; minute := 15; second := 59;
                      microsecond := 7 |}) + 180)))
  /\ minute_index
       (minute_datetime
          (minute_index
             (combine (ymd 2023 12 31)
                {| hour := 22; minute := 15; second := 59;
                   microsecond := 7 |}) + 180))
     = (minute_index
          (combine (ymd 2023 12 31)
             {| hour := 22; minute := 15; second := 59; microsecond := 7 |})
        + 180)%Z
  /\ valid_datetime
       (minute_datetime
          (minute_index
             (combine (ymd 2023 12 31)
                {| hour := 22; minute := 15; second := 59;
                   microsecond := 7 |}) + 180)).
Proof.
  apply (proj1 (proj2 adjusted_iso_adds_three_hours)
           (example_record (ymd 2023 12 31)
              {| hour := 22; minute := 15; second := 59; microsecond := 7 |})).
  - repeat split; apply Z.leb_le; reflexivity.
  - reflexivity.
Defined.

(** C8. Normalisation checks the shape only: ["25:00"] passes unchanged,
    and so does a colon clock of any four digits, whatever hour and minute
    they write. *)
Theorem normalize_clock_no_range_check :
  _normalize_clock (lit "25:00") = Ok (lit "25:00")
  /\ (forall a b c d,
         is_decimal a = true -> is_decimal b = true ->
         is_decimal c = true -> is_decimal d = true ->
         _normalize_clock [a; b; COLON; c; d] = Ok [a; b; COLON; c; d]).
Proof.
  split; [reflexivity|].
  intros a b c d Ha Hb Hc Hd.
  apply (@normalize_clock_token a b COLON c d []); auto.
Qed.

Lemma normalize_clock_no_range_check_witness :
  _normalize_clock (lit "99:99") = Ok (lit "99:99").
Proof.
  apply (proj2 normalize_clock_no_range_check 0x39 0x39 0x39 0x39)%N;
    reflexivity.
Defined.

(** C9, as amended. A line that the grammar matches and whose normalised
    clock writes an hour above 23 or a minute above 59 is neither recorded
    nor reported with a [ParseError]: every iteration that meets it raises
    a plain [ValueError], and so does the run once the lines before it are
    done. That error is the one of [strptime] for the normalised clock
    exactly when [int] converts the percent, which it does when the
    percent has 640 digits at most, or the interpreter has no digit limit,
    or the percent has no more digits than the limit; when the percent has
    more than 640 digits and more than the limit, it is the [ValueError]
    of [int], raised before the clock is looked at. The line of the
    specification with the clock 25:00 ends the run with the error of
    [strptime]. *)
Theorem out_of_range_clock_raises_ValueError :
  (forall lim shift_date,
      parse_records lim
        [lit "25:00 - Abertura da tela de Despacho - ABC - EXCEDIDO EM: 10 %"]
        shift_date
      = Raise (ValueError_strptime (lit "25:00")))
  /\ (forall lim raw m normalized,
         re_match LOG_PATTERN (strip raw) = Some m ->
         _normalize_clock (group m "clock") = Ok normalized ->
         (23 < clock_hour normalized \/ 59 < clock_minute normalized)%Z ->
         exists e,
           is_ParseError e = false
           /\ ((List.length (group m "percent") <= 640
                \/ lim = 0
                \/ List.length (group m "percent") <= lim)%nat ->
               e = ValueError_strptime normalized)
           /\ ((640 < List.length (group m "percent")
                /\ 0 < lim < List.length (group m "percent"))%nat ->
               e = ValueError_int (List.length (group m "percent")))
           /\ (forall st n, loop_body lim st n raw = Raise e)
           /\ (forall before after shift_date rs,
                  parse_records lim before shift_date = Ok rs ->
                  parse_records lim (before ++ raw :: after) shift_date
                  = Raise e)).
Proof.
  split.
  - intros lim shift_date. vm_compute. reflexivity.
  - intros lim raw m normalized Hm Hn Hout.
    destruct (@matched_clock_normalizes _ m Hm)
      as (a & b & c & d & Ha & Hb & Hc & Hd & Hn').
    rewrite Hn in Hn'. injection Hn' as ->.
    unfold clock_hour, clock_minute in Hout. cbn [firstn skipn] in Hout.
    pose proof (@strptime_out_of_range a b c d Ha Hb Hc Hd Hout) as Hstrp.
    assert (Hbody : forall st n,
               loop_body lim st n raw
               = Raise match int lim (group m "percent") with
                       | Ok _ => ValueError_strptime [a; b; COLON; c; d]
                       | Raise e => e
                       end).
    { intros st n. unfold loop_body.
      destruct (strip raw) as [|x line] eqn:Hs;
        [rewrite LOG_PATTERN_nonempty in Hm; discriminate|].
      rewrite Hm.
      destruct (int lim (group m "percent")) as [pct|e]; [|reflexivity].
      cbn [bind]. rewrite Hn. cbn [bind]. rewrite Hstrp. reflexivity. }
    assert (Hint : int lim (group m "percent")
                   = if (Nat.ltb 640 (List.length (group m "percent"))
                         && Nat.ltb 0 lim
                         && Nat.ltb lim (List.length (group m "percent")))%bool
                     then Raise (ValueError_int
                                   (List.length (group m "percent")))
                     else Ok (decimal_int (group m "percent")))
      by reflexivity.
    eexists. split; [|split; [|split; [|split]]].
    4: exact Hbody.
    + rewrite Hint. destruct (_ && _ && _)%bool; reflexivity.
    + intros Hshort. rewrite Hint.
      destruct (Nat.ltb 640 _ && Nat.ltb 0 lim && Nat.ltb lim _)%bool
        eqn:Hlim; [|reflexivity].
      apply andb_true_iff in Hlim. destruct Hlim as [Hlim H3].
      apply andb_true_iff in Hlim. destruct Hlim as [H1 H2].
      apply Nat.ltb_lt in H1, H2, H3. lia.
    + intros (H1 & H2 & H3). rewrite Hint.
      apply Nat.ltb_lt in H1, H2, H3. rewrite H1, H2, H3. reflexivity.
    + intros before after shift_date rs Hrs. unfold parse_records in *.
      rewrite loop_app.
      destruct (loop lim 1 before _) as [st|]; [|discriminate].
      cbn [bind loop]. rewrite Hbody. reflexivity.
Qed.

Lemma out_of_range_clock_raises_ValueError_witness :
  exists e,
    is_ParseError e = false
    /\ ((List.length (lit "10") <= 640
         \/ 4300 = 0 \/ List.length (lit "10") <= 4300)%nat ->
        e = ValueError_strptime (lit "23:60"))
    /\ ((640 < List.length (lit "10")
         /\ 0 < 4300 < List.length (lit "10"))%nat ->
        e = ValueError_int (List.length (lit "10")))
    /\ (forall st n, loop_body 4300 st n (example_line "23h60h") = Raise e)
    /\ (forall before after shift_date rs,
           parse_records 4300 before shift_date = Ok rs ->
           parse_records 4300 (before ++ example_line "23h60h" :: after)
             shift_date
           = Raise e).
Proof.
  apply (proj2 out_of_range_clock_raises_ValueError 4300
           (example_line "23h60h")
           {| m_end := 63;
              m_groups := [("percent", lit "10"); ("company", lit "ABC");
                           ("clock", lit "23h60h")] |}
           (lit "23:60")).
  - vm_compute. reflexivity.
  - reflexivity.
  - right. vm_compute. reflexivity.
Defined.

(** C9 as stated fails: the line with the clock 25:00 and a percent of
    4301 digits matches the grammar and its clock normalises to ["25:00"],
    an hour above 23, but under the default limit of 4300 digits the run
    never comes to [strptime]: it ends with the [ValueError] of [int] for
    the percent. *)
Lemma out_of_range_clock_with_long_percent :
  (exists m,
      re_match LOG_PATTERN (strip long_percent_line) = Some m
      /\ _normalize_clock (group m "clock") = Ok (lit "25:00")
      /\ (23 < clock_hour (lit "25:00"))%Z)
  /\ parse_records 4300 [long_percent_line] (ymd 2024 1 1)
     = Raise (ValueError_int 4301)
  /\ (forall data, ValueError_int 4301 <> ValueError_strptime data).
Proof.
  split; [|split].
  - destruct (re_match LOG_PATTERN (strip long_percent_line)) as [m|] eqn:Hm.
    + exists m. split; [reflexivity|].
      assert (Hclock : group m "clock" = lit "25:00").
      { generalize Hm. clear Hm. intros Hm.
        assert (H : option_map (fun m => group m "clock")
                      (re_match LOG_PATTERN (strip long_percent_line))
                    = Some (lit "25:00")) by (vm_compute; reflexivity).
        rewrite Hm in H. injection H as ->. reflexivity. }
      rewrite Hclock. split; [reflexivity|]. vm_compute. reflexivity.
    + exfalso.
      assert (H : match re_match LOG_PATTERN (strip long_percent_line) with
                  | Some _ => true
                  | None => false
                  end = true) by (vm_compute; reflexivity).
      rewrite Hm in H. discriminate.
  - vm_compute. reflexivity.
  - intros data. discriminate.
Qed.

(** C10, as amended. Reading a line is a function of its three tokens: a
    line is read as the event [e] exactly when, stripped, it has the shape
    of the grammar with the company of [e], a clock that normalises to the
    clock time of [e] and a percent that converts to the percent of [e].
    Every event read is in range (a time from 00:00 to 23:59, three
    uppercase letters, a non-negative percent), and every event in range
    is read from a line, its plain rendering, as long as the interpreter
    converts a number with as many digits as its percent. Lines equal up
    to the normalisation of the clock are read as the same event. *)
Theorem parse_line_onto_events :
  (forall lim n raw e,
      decode_line lim n raw = Ok (Some e) <-> writes lim (strip raw) e)
  /\ (forall lim n raw e,
         decode_line lim n raw = Ok (Some e) -> valid_event e)
  /\ (forall lim n e,
         valid_event e ->
         lim = 0%nat
         \/ (List.length (numeral (ev_percent e)) <= Nat.max 640 lim)%nat ->
         decode_line lim n (render e) = Ok (Some e))
  /\ (forall lim n1 n2 raw1 raw2 e1 e2,
         decode_line lim n1 raw1 = Ok (Some e1) ->
         decode_line lim n2 raw2 = Ok (Some e2) ->
         clock_normal_form (strip raw1) = clock_normal_form (strip raw2) ->
         e1 = e2).
Proof.
  split; [|split; [|split]].
  - apply decode_line_writes.
  - intros lim n raw e H. apply decode_line_writes in H.
    apply (writes_valid H).
  - intros lim n e Hv Hl. apply decode_line_writes.
    destruct (render_writes Hv Hl) as [Hw ->]. exact Hw.
  - apply same_clock_normal_form_same_event.
Qed.

Lemma parse_line_onto_events_witness :
  decode_line 4300 1
    (render {| clock_time := hm 8 30; ev_company := lit "ABC";
               ev_percent := 10 |})
  = Ok (Some {| clock_time := hm 8 30; ev_company := lit "ABC";
                ev_percent := 10 |}).
Proof.
  apply (proj1 (proj2 (proj2 parse_line_onto_events)) 4300 1%nat
           {| clock_time := hm 8 30; ev_company := lit "ABC";
              ev_percent := 10 |}).
  - unfold valid_event. cbn. repeat split; try lia; reflexivity.
  - right. vm_compute. lia.
Defined.

(** C10 as stated fails: the lines
    ["08:30 - Abertura da tela de Despacho - ABC - EXCEDIDO EM: 10 %"] and
    ["08:30 - Abertura da tela de Despacho - ABC - EXCEDIDO EM: 10%"] have
    the same clock, spelled the same way, and are read as the same event,
    but differ in a space before the percent sign, so they are not equal
    up to the normalisation of the clock separator. *)
Lemma same_event_different_layout :
  decode_line 4300 1 (example_line "08:30")
  = Ok (Some {| clock_time := hm 8 30; ev_company := lit "ABC";
                ev_percent := 10 |})
  /\ decode_line 4300 1 (example_line_tight "08:30")
     = Ok (Some {| clock_time := hm 8 30; ev_company := lit "ABC";
                   ev_percent := 10 |})
  /\ clock_normal_form (strip (example_line "08:30"))
     <> clock_normal_form (strip (example_line_tight "08:30")).
Proof.
  split; [|split].
  - vm_compute. reflexivity.
  - vm_compute. reflexivity.
  - vm_compute. discriminate.
Qed.

(** * Further properties of parsing *)

(** ** What an iteration can raise *)

Lemma loop_body_raises lim st n raw e :
  loop_body lim st n raw = Raise e ->
  (e = ParseError (Linha_nao_corresponde n raw)
   /\ is_blank raw = false /\ re_match LOG_PATTERN (strip raw) = None)
  \/ (exists digits,
         e = ValueError_int digits
         /\ (640 < digits)%nat /\ (0 < lim < digits)%nat)
  \/ (exists a b c d,
         e = ValueError_strptime [a; b; COLON; c; d]
         /\ is_decimal a = true /\ is_decimal b = true
         /\ is_decimal c = true /\ is_decimal d = true
         /\ hour_field_ok a b && minute_field_ok c = false)
  \/ e = OverflowError.
Proof.
  unfold loop_body, is_blank.
  destruct (strip raw) as [|x line] eqn:Hs; [discriminate|].
  destruct (re_match LOG_PATTERN (x :: line)) as [m|] eqn:Hm.
  - unfold int.
    destruct (Nat.ltb 640 _ && Nat.ltb 0 lim && Nat.ltb lim _)%bool eqn:Hlim.
    + cbn [bind]. intros H. injection H as <-. right. left.
      apply andb_true_iff in Hlim. destruct Hlim as [Hlim H3].
      apply andb_true_iff in Hlim. destruct Hlim as [H1 H2].
      apply Nat.ltb_lt in H1, H2, H3. eexists. split; [reflexivity|]. lia.
    + cbn [bind].
      destruct (@matched_clock_normalizes _ m Hm)
        as (a & b & c & d & Ha & Hb & Hc & Hd & Hn).
      rewrite Hn. cbn [bind].
      rewrite (@strptime_HM_spec a b c d Ha Hb Hc Hd).
      destruct (hour_field_ok a b && minute_field_ok c) eqn:Hf.
      * cbn [bind]. destruct (previous_clock st) as [previous|].
        -- destruct (time_lt _ previous).
           ++ unfold date_add.
              destruct ((0 <? _)%Z && (_ <=? MAXORDINAL)%Z)%bool;
                cbn [bind]; [discriminate|].
              intros H. injection H as <-. right. right. right.
              reflexivity.
           ++ cbn [bind]. discriminate.
        -- cbn [bind]. discriminate.
      * cbn [bind]. intros H. injection H as <-. right. right. left.
        exists a, b, c, d. repeat split; assumption.
  - intros H. injection H as <-. left. repeat split.
Qed.

Lemma loop_raises lim : forall lines n st e,
  loop lim n lines st = Raise e ->
  (exists k raw,
      nth_error lines k = Some raw
      /\ e = ParseError (Linha_nao_corresponde (n + k) raw)
      /\ is_blank raw = false /\ re_match LOG_PATTERN (strip raw) = None)
  \/ (exists digits,
         e = ValueError_int digits
         /\ (640 < digits)%nat /\ (0 < lim < digits)%nat)
  \/ (exists a b c d,
         e = ValueError_strptime [a; b; COLON; c; d]
         /\ is_decimal a = true /\ is_decimal b = true
         /\ is_decimal c = true /\ is_decimal d = true
         /\ hour_field_ok a b && minute_field_ok c = false)
  \/ e = OverflowError.
Proof.
  induction lines as [|raw lines IH]; intros n st e H; [discriminate|].
  cbn [loop] in H.
  destruct (loop_body lim st n raw) as [st'|e'] eqn:Hbody; cbn [bind] in H.
  - apply IH in H. destruct H as [(k & raw' & Hk & He & Hb & Hm)|H]; [|auto].
    left. exists (S k), raw'. rewrite Nat.add_succ_r.
    repeat split; assumption.
  - injection H as <-. apply loop_body_raises in Hbody.
    destruct Hbody as [(He & Hb & Hm)|H]; [|auto].
    left. exists 0%nat, raw. rewrite Nat.add_0_r.
    repeat split; assumption.
Qed.

(** ** Runs and their prefixes *)

Lemma loop_body_grows lim st n raw st' :
  loop_body lim st n raw = Ok st' ->
  exists new, records st' = records st ++ new.
Proof.
  rewrite loop_body_split.
  destruct (decode_line lim n raw) as [[e|]|]; cbn [bind]; [| |discriminate].
  - intros H. apply advance_records in H. destruct H as [d H]. eauto.
  - intros H. injection H as <-. exists []. symmetry. apply app_nil_r.
Qed.

Lemma loop_grows lim : forall lines n st st',
  loop lim n lines st = Ok st' ->
  exists new, records st' = records st ++ new.
Proof.
  induction lines as [|raw lines IH]; intros n st st' H.
  - injection H as <-. exists []. symmetry. apply app_nil_r.
  - cbn [loop] in H.
    destruct (loop_body lim st n raw) as [st1|] eqn:Hbody; [|discriminate].
    cbn [bind] in H. apply loop_body_grows in Hbody. apply IH in H.
    destruct Hbody as [new1 H1]. destruct H as [new2 H2].
    exists (new1 ++ new2). rewrite H2, H1. symmetry. apply app_assoc.
Qed.

(** ** Reading first, sequencing after *)

Lemma loop_decoded lim : forall lines n st es,
  decode_lines lim n lines = Ok es ->
  loop lim n lines st = sequence_events st es.
Proof.
  induction lines as [|raw lines IH]; intros n st es H.
  - injection H as <-. reflexivity.
  - cbn [decode_lines] in H. cbn [loop]. rewrite loop_body_split.
    destruct (decode_line lim n raw) as [oe|]; [|discriminate].
    cbn [bind] in H |- *.
    destruct (decode_lines lim (S n) lines) as [es'|] eqn:Hes; [|discriminate].
    cbn [bind] in H. injection H as <-.
    destruct oe as [e|]; cbn [sequence_events].
    + destruct (advance st e) as [st1|]; [|reflexivity].
      cbn [bind]. apply IH. exact Hes.
    + cbn [bind]. apply IH. exact Hes.
Qed.

Lemma decode_lines_valid lim : forall lines n es,
  decode_lines lim n lines = Ok es -> Forall valid_event es.
Proof.
  induction lines as [|raw lines IH]; intros n es H.
  - injection H as <-. constructor.
  - cbn [decode_lines] in H.
    destruct (decode_line lim n raw) as [oe|] eqn:Hd; [|discriminate].
    cbn [bind] in H.
    destruct (decode_lines lim (S n) lines) as [es'|] eqn:Hes; [|discriminate].
    cbn [bind] in H. injection H as <-. apply IH in Hes.
    destruct oe as [e|]; [|exact Hes]. constructor; [|exact Hes].
    apply decode_line_writes in Hd. apply (writes_valid Hd).
Qed.

(** ** The running date *)

Section Sequencing.
Import Calendar DateArith.
Local Open Scope Z_scope.

Lemma date_add_one_inv d d' :
  valid_date d -> date_add d (timedelta_days 1) = Ok d' ->
  toordinal d' = toordinal d + 1 /\ valid_date d'.
Proof.
  intros Hv H.
  assert (Hlt : toordinal d < MAXORDINAL).
  { unfold date_add in H. cbn [td_days timedelta_days] in H.
    destruct ((0 <? toordinal d + 1) && (toordinal d + 1 <=? MAXORDINAL))%bool
      eqn:Hc; [|discriminate].
    apply andb_true_iff in Hc. destruct Hc as [_ Hc].
    apply Z.leb_le in Hc. lia. }
  destruct (date_add_one Hv Hlt) as (d'' & Hd & Ho & Hv').
  rewrite Hd in H. injection H as <-. auto.
Qed.

(** The clock time of the cursor and of the events to come. *)
Lemma descents_nonneg : forall ts, 0 <= descents ts.
Proof.
  induction ts as [|t1 [|t2 ts] IH]; cbn [descents]; try lia.
  cbn [descents] in IH. destruct (time_lt t2 t1); lia.
Qed.

Lemma advance_ordinal st e st' :
  valid_date (current_date st) ->
  advance st e = Ok st' ->
  valid_date (current_date st')
  /\ toordinal (current_date st')
     = toordinal (current_date st)
       + descents (trail (previous_clock st) [e])
  /\ previous_clock st' = Some (clock_time e)
  /\ records st'
     = records st ++ [record_on (current_date st') e].
Proof.
  intros Hv. unfold advance, trail.
  destruct (previous_clock st) as [previous|]; cbn [map descents].
  - destruct (time_lt (clock_time e) previous).
    + destruct (date_add (current_date st) (timedelta_days 1)) as [d|] eqn:Hd;
        [|discriminate].
      cbn [bind]. intros H. injection H as <-. cbn.
      destruct (@date_add_one_inv _ _ Hv Hd) as [Ho Hv'].
      repeat split; try apply Hv'. lia.
    + cbn [bind]. intros H. injection H as <-. cbn.
      repeat split; try apply Hv. lia.
  - cbn [bind]. intros H. injection H as <-. cbn.
    repeat split; try apply Hv. lia.
Qed.

Lemma descents_cons t1 t2 ts :
  descents (t1 :: t2 :: ts) = descents [t1; t2] + descents (t2 :: ts).
Proof. cbn [descents]. lia. Qed.

Lemma trail_cons previous e es :
  descents (trail previous (e :: es))
  = descents (trail previous [e])
    + descents (trail (Some (clock_time e)) es).
Proof.
  unfold trail. destruct previous as [p|]; cbn [map].
  - apply descents_cons.
  - cbn [descents]. lia.
Qed.

(** A run over events ends when the calendar does, and only then. *)
Lemma sequence_events_spec : forall es st,
  valid_date (current_date st) ->
  let total :=
    toordinal (current_date st) + descents (trail (previous_clock st) es) in
  (total <= MAXORDINAL ->
   exists st',
     sequence_events st es = Ok st'
     /\ valid_date (current_date st')
     /\ toordinal (current_date st') = total)
  /\ (MAXORDINAL < total -> sequence_events st es = Raise OverflowError).
Proof.
  induction es as [|e es IH]; intros st Hv total.
  - split.
    + intros _. exists st. repeat split; try apply Hv.
      unfold total, trail. destruct (previous_clock st); cbn; lia.
    + intros H. exfalso. pose proof (toordinal_bounds Hv).
      unfold total, trail in H. destruct (previous_clock st); cbn in H; lia.
  - cbn [sequence_events]. unfold total. rewrite trail_cons.
    pose proof (descents_nonneg (trail (Some (clock_time e)) es)) as Hnn.
    destruct (advance st e) as [st1|ex] eqn:Hadv.
    + destruct (@advance_ordinal _ _ _ Hv Hadv) as (Hv1 & Ho1 & Hp1 & _).
      cbn [bind]. specialize (IH st1 Hv1). cbn zeta in IH.
      rewrite Hp1, Ho1 in IH. rewrite Z.add_assoc. exact IH.
    + cbn [bind]. unfold advance in Hadv. unfold trail at 1 3.
      destruct (previous_clock st) as [previous|]; [|discriminate].
      cbn [map descents].
      destruct (time_lt (clock_time e) previous); [|discriminate].
      unfold date_add in Hadv. cbn [td_days timedelta_days] in Hadv.
      pose proof (toordinal_bounds Hv).
      destruct ((0 <? toordinal (current_date st) + 1)
                && (toordinal (current_date st) + 1 <=? MAXORDINAL))%bool
        eqn:Hc; [discriminate|].
      cbn [bind] in Hadv. injection Hadv as <-.
      apply andb_false_iff in Hc.
      destruct Hc as [Hc|Hc];
        [apply Z.ltb_ge in Hc | apply Z.leb_gt in Hc]; split; intros; try lia;
        reflexivity.
Qed.

(** The date of each record of a run. *)
Lemma sequence_events_dates : forall es st st',
  valid_date (current_date st) ->
  sequence_events st es = Ok st' ->
  exists new,
    records st' = records st ++ new
    /\ map event_of new = es
    /\ forall k r,
         nth_error new k = Some r ->
         valid_date (dt_date (timestamp r))
         /\ toordinal (dt_date (timestamp r))
            = toordinal (current_date st)
              + descents (trail (previous_clock st) (firstn (S k) es)).
Proof.
  induction es as [|e es IH]; intros st st' Hv H.
  - injection H as <-. exists []. rewrite app_nil_r.
    split; [reflexivity|split; [reflexivity|]].
    intros [|k] r Hk; discriminate.
  - cbn [sequence_events] in H.
    destruct (advance st e) as [st1|] eqn:Hadv; [|discriminate].
    cbn [bind] in H.
    destruct (@advance_ordinal _ _ _ Hv Hadv) as (Hv1 & Ho1 & Hp1 & Hr1).
    destruct (IH _ _ Hv1 H) as (new & Hnew & Hev & Hdates).
    exists (record_on (current_date st1) e :: new). split; [|split].
    + rewrite Hnew, Hr1, <- app_assoc. reflexivity.
    + cbn [map]. rewrite event_of_record_on, Hev. reflexivity.
    + intros [|k] r Hk.
      * injection Hk as <-. cbn [firstn]. split; [exact Hv1 | exact Ho1].
      * cbn [nth_error] in Hk. destruct (Hdates _ _ Hk) as [Hvr Hor].
        split; [exact Hvr|]. rewrite Hor, Hp1, Ho1.
        change (firstn (S (S k)) (e :: es)) with (e :: firstn (S k) es).
        rewrite (trail_cons (previous_clock st) e (firstn (S k) es)). lia.
Qed.

(** ** Timestamps in the order of time *)

Lemma valid_event_minute e : valid_event e -> on_the_minute (clock_time e).
Proof. intros [H _]. exact H. Qed.

Lemma time_lt_minutes t1 t2 :
  on_the_minute t1 -> on_the_minute t2 ->
  time_lt t1 t2 = (hour t1 * 60 + minute t1 <? hour t2 * 60 + minute t2).
Proof.
  intros (Hh1 & Hm1 & Hs1 & Hu1) (Hh2 & Hm2 & Hs2 & Hu2).
  unfold time_lt. rewrite Hs1, Hs2, Hu1, Hu2.
  rewrite Z.ltb_irrefl, Z.eqb_refl. cbn [orb andb]. rewrite andb_false_r.
  rewrite orb_false_r.
  destruct (hour t1 <? hour t2) eqn:H1; cbn [orb].
  - apply Z.ltb_lt in H1. symmetry. apply Z.ltb_lt. lia.
  - apply Z.ltb_ge in H1.
    destruct (hour t1 =? hour t2) eqn:H2; cbn [andb].
    + apply Z.eqb_eq in H2. rewrite H2.
      destruct (minute t1 <? minute t2) eqn:H3.
      * apply Z.ltb_lt in H3. symmetry. apply Z.ltb_lt. lia.
      * apply Z.ltb_ge in H3. symmetry. apply Z.ltb_ge. lia.
    + apply Z.eqb_neq in H2. symmetry. apply Z.ltb_ge. lia.
Qed.

Lemma advance_within_a_day st e st' previous :
  valid_date (current_date st) ->
  previous_clock st = Some previous ->
  on_the_minute previous -> on_the_minute (clock_time e) ->
  advance st e = Ok st' ->
  within_a_day (combine (current_date st) previous)
    (combine (current_date st') (clock_time e)).
Proof.
  intros Hv Hp Hprev He Hadv.
  destruct (@advance_ordinal _ _ _ Hv Hadv) as (_ & Ho & _ & _).
  rewrite Hp in Ho. unfold trail in Ho. cbn [map descents] in Ho.
  rewrite (@time_lt_minutes _ _ He Hprev) in Ho.
  unfold within_a_day, minute_index. cbn [combine dt_date dt_time].
  rewrite Ho. destruct He as (? & ? & _). destruct Hprev as (? & ? & _).
  destruct (_ <? _) eqn:Hlt;
    [apply Z.ltb_lt in Hlt | apply Z.ltb_ge in Hlt]; lia.
Qed.

Lemma sequence_events_chained : forall es st st',
  valid_date (current_date st) ->
  (forall previous, previous_clock st = Some previous ->
                    on_the_minute previous) ->
  Forall valid_event es ->
  sequence_events st es = Ok st' ->
  exists new,
    records st' = records st ++ new
    /\ chained within_a_day (cursor st ++ map timestamp new)
    /\ (previous_clock st = None ->
        forall r, hd_error new = Some r ->
                  dt_date (timestamp r) = current_date st).
Proof.
  induction es as [|e es IH]; intros st st' Hv Hprev Hes H.
  - injection H as <-. exists []. rewrite app_nil_r. split; [reflexivity|].
    split; [|discriminate]. unfold cursor.
    destruct (previous_clock st); exact I.
  - cbn [sequence_events] in H.
    destruct (advance st e) as [st1|] eqn:Hadv; [|discriminate].
    cbn [bind] in H. inversion Hes as [|? ? He Hes']; subst.
    apply valid_event_minute in He.
    destruct (@advance_ordinal _ _ _ Hv Hadv) as (Hv1 & Ho1 & Hp1 & Hr1).
    assert (Hprev1 : forall previous, previous_clock st1 = Some previous ->
                                      on_the_minute previous).
    { intros previous Hq. rewrite Hp1 in Hq. injection Hq as <-. exact He. }
    destruct (IH _ _ Hv1 Hprev1 Hes' H) as (new & Hnew & Hch & _).
    exists (record_on (current_date st1) e :: new). split; [|split].
    + rewrite Hnew, Hr1, <- app_assoc. reflexivity.
    + unfold cursor in Hch |- *. rewrite Hp1 in Hch. cbn [app map] in Hch |- *.
      change (timestamp (record_on (current_date st1) e))
        with (combine (current_date st1) (clock_time e)).
      destruct (previous_clock st) as [previous|] eqn:Hp; cbn [app].
      * cbn [chained]. split; [|exact Hch].
        apply advance_within_a_day with (st := st); auto.
      * exact Hch.
    + intros Hnone r Hr. injection Hr as <-. cbn [timestamp record_on combine
                                                   dt_date].
      unfold advance in Hadv. rewrite Hnone in Hadv. cbn [bind] in Hadv.
      injection Hadv as <-. reflexivity.
Qed.

End Sequencing.

(** ** White space around a line *)

Lemma lstrip_stops : forall s, stops is_space (lstrip s).
Proof.
  induction s as [|c s IH]; [exact I|]. cbn [lstrip].
  destruct (is_space c) eqn:Hc; [exact IH | exact Hc].
Qed.

Lemma lstrip_suffix : forall s, exists pre, s = pre ++ lstrip s.
Proof.
  induction s as [|c s [pre IH]]; [exists []; reflexivity|]. cbn [lstrip].
  destruct (is_space c).
  - exists (c :: pre). cbn [app]. rewrite <- IH. reflexivity.
  - exists []. reflexivity.
Qed.

Lemma strip_stops s :
  stops is_space (strip s) /\ stops is_space (rev (strip s)).
Proof.
  unfold strip. rewrite rev_involutive. split; [|apply lstrip_stops].
  pose proof (lstrip_stops s) as Hu.
  destruct (lstrip_suffix (rev (lstrip s))) as [pre Hpre].
  apply (f_equal (@rev char)) in Hpre.
  rewrite rev_involutive, rev_app_distr in Hpre.
  destruct (rev (lstrip (rev (lstrip s)))) as [|c w]; [exact I|].
  rewrite Hpre in Hu. exact Hu.
Qed.

Lemma strip_idempotent s : strip (strip s) = strip s.
Proof. destruct (strip_stops s) as [H1 H2]. apply strip_id; assumption. Qed.

Lemma same_but_message_refl (A : Type) (r : result A) : same_but_message r r.
Proof. destruct r as [a|[]]; cbn; auto. Qed.

Lemma loop_body_stripped lim st n n' raw :
  same_but_message (loop_body lim st n raw) (loop_body lim st n' (strip raw)).
Proof.
  unfold loop_body. rewrite strip_idempotent.
  destruct (strip raw) as [|x line]; [reflexivity|].
  destruct (re_match LOG_PATTERN (x :: line)); [|exact I].
  apply same_but_message_refl.
Qed.

Lemma loop_stripped lim : forall lines n n' st,
  same_but_message (loop lim n lines st)
    (loop lim n' (map strip (filter (fun l => negb (is_blank l)) lines)) st).
Proof.
  induction lines as [|raw lines IH]; intros n n' st; [reflexivity|].
  cbn [filter loop]. destruct (is_blank raw) eqn:Hb; cbn [negb].
  - rewrite loop_body_split, (@decode_line_blank lim n raw Hb). cbn [bind].
    apply IH.
  - cbn [map loop]. pose proof (loop_body_stripped lim st n n' raw) as H.
    destruct (loop_body lim st n raw) as [st1|e1];
      destruct (loop_body lim st n' (strip raw)) as [st2|e2];
      cbn [bind].
    + cbn in H. subst st2. apply IH.
    + contradiction.
    + destruct e1; contradiction.
    + exact H.
Qed.

(** * Further properties of the export *)

(** ** Ranges and slices *)

Section Blocks.
Local Open Scope Z_scope.

Lemma range_up_spec : forall fuel start stop step,
  0 < step -> stop - start <= Z.of_nat fuel ->
  range_up fuel start stop step
  = map (fun j => start + Z.of_nat j * step)
      (List.seq 0 (Z.to_nat ((stop - start + step - 1) / step))).
Proof.
  induction fuel as [|fuel IH]; intros start stop step Hstep Hfuel.
  - cbn [range_up].
    assert (H : (stop - start + step - 1) / step < 1).
    { apply Z.div_lt_upper_bound; lia. }
    destruct ((stop - start + step - 1) / step); try lia; reflexivity.
  - cbn [range_up]. destruct (start <? stop) eqn:Hlt.
    + apply Z.ltb_lt in Hlt.
      rewrite (IH (start + step) stop step Hstep) by lia.
      replace (stop - start + step - 1)
        with (stop - (start + step) + step - 1 + 1 * step) by lia.
      rewrite Z.div_add by lia.
      assert (Hq : 0 <= (stop - (start + step) + step - 1) / step).
      { apply Z.div_pos; lia. }
      rewrite Z2Nat.inj_add by lia.
      change (Z.to_nat 1) with 1%nat. rewrite Nat.add_1_r.
      cbn [List.seq map]. f_equal; [lia|].
      rewrite <- seq_shift, map_map. apply map_ext. intros j. lia.
    + apply Z.ltb_ge in Hlt.
      assert (H : (stop - start + step - 1) / step < 1).
      { apply Z.div_lt_upper_bound; lia. }
      destruct ((stop - start + step - 1) / step); try lia; reflexivity.
Qed.

Lemma block_count_lt len m j :
  0 < m -> (j < block_count len m)%nat <-> Z.of_nat j * m < Z.of_nat len.
Proof.
  intros Hm. unfold block_count.
  assert (Hq : 0 <= (Z.of_nat len + m - 1) / m) by (apply Z.div_pos; lia).
  split; intros H.
  - assert (Hj : Z.of_nat j + 1 <= (Z.of_nat len + m - 1) / m) by lia.
    assert (Hmul : m * ((Z.of_nat len + m - 1) / m) <= Z.of_nat len + m - 1)
      by (apply Z.mul_div_le; lia).
    nia.
  - assert (Hj : Z.of_nat j + 1 <= (Z.of_nat len + m - 1) / m).
    { apply Z.div_le_lower_bound; lia. }
    lia.
Qed.

Lemma slice_block (A : Type) (l : list A) start m :
  0 < m -> 0 <= start <= Z.of_nat (List.length l) ->
  slice l start (start + m)
  = firstn (Z.to_nat m) (skipn (Z.to_nat start) l).
Proof.
  intros Hm Hs. unfold slice, slice_index.
  destruct (start <? 0) eqn:H1; [apply Z.ltb_lt in H1; lia|].
  destruct (start + m <? 0) eqn:H2; [apply Z.ltb_lt in H2; lia|].
  rewrite (Z.min_l start) by lia.
  destruct (Z.min_spec (start + m) (Z.of_nat (List.length l)))
    as [[Hlt ->]|[Hge ->]].
  - f_equal. lia.
  - assert (Hlen : List.length (skipn (Z.to_nat start) l)
                   = Z.to_nat (Z.of_nat (List.length l) - start)).
    { rewrite length_skipn. lia. }
    rewrite firstn_all2 by lia. rewrite firstn_all2 by lia. reflexivity.
Qed.

Lemma record_blocks_spec (A : Type) (records : list A) m :
  0 < m ->
  _record_blocks records m
  = Returns (map (block_at records m)
               (List.seq 0 (block_count (List.length records) m))).
Proof.
  intros Hm. unfold _record_blocks, range_list.
  destruct (m =? 0) eqn:H0; [apply Z.eqb_eq in H0; lia|].
  destruct (0 <? m) eqn:H1; [|apply Z.ltb_ge in H1; lia].
  rewrite range_up_spec by lia. rewrite map_map, Z.sub_0_r.
  fold (block_count (List.length records) m). f_equal.
  apply map_ext_in. intros j Hj. apply in_seq in Hj.
  assert (Hlt : (j < block_count (List.length records) m)%nat) by lia.
  apply (block_count_lt _ _ Hm) in Hlt.
  rewrite slice_block by lia. unfold block_at. f_equal. f_equal. lia.
Qed.

Lemma firstn_add_skipn (A : Type) (l : list A) a b :
  firstn (a + b) l = firstn a l ++ firstn b (skipn a l).
Proof.
  rewrite firstn_skipn_comm.
  rewrite <- (firstn_skipn a (firstn (a + b) l)) at 1.
  rewrite firstn_firstn, Nat.min_l by lia. reflexivity.
Qed.

Lemma concat_blocks (A : Type) (l : list A) m : forall n,
  List.concat (map (block_at l m) (List.seq 0 n)) = firstn (n * Z.to_nat m) l.
Proof.
  induction n as [|n IH]; [reflexivity|].
  rewrite seq_S, map_app, concat_app, IH. cbn [map List.concat Nat.add].
  rewrite app_nil_r. unfold block_at.
  rewrite <- firstn_add_skipn. f_equal. lia.
Qed.

Lemma block_at_length (A : Type) (l : list A) m j :
  List.length (block_at l m j)
  = Nat.min (Z.to_nat m) (List.length l - j * Z.to_nat m).
Proof. unfold block_at. rewrite length_firstn, length_skipn. reflexivity. Qed.

Lemma block_at_nth (A : Type) (l : list A) m j k :
  (k < Z.to_nat m)%nat ->
  nth_error (block_at l m j) k = nth_error l (j * Z.to_nat m + k).
Proof.
  intros Hk. unfold block_at.
  rewrite nth_error_firstn.
  destruct (Nat.ltb_spec k (Z.to_nat m)); [|lia].
  apply nth_error_skipn.
Qed.

End Blocks.

(** ** Cells and rows *)

Section Cells.
Local Open Scope Z_scope.

Lemma export_to_excel_split records max_per_table :
  export_to_excel records max_per_table
  = (blocks <~ _record_blocks records max_per_table ;;
     sheet <~ for_enumerate 0 blocks write_block empty_sheet ;;
     done <~ save sheet ;;
     Returns sheet).
Proof. reflexivity. Qed.

Lemma add_cells_app sheet cells1 cells2 :
  add_cells (add_cells sheet cells1) cells2 = add_cells sheet (cells1 ++ cells2).
Proof. unfold add_cells. cbn. rewrite <- app_assoc. reflexivity. Qed.

Lemma add_cells_nil sheet : add_cells sheet [] = sheet.
Proof. destruct sheet. unfold add_cells. cbn. rewrite app_nil_r. reflexivity. Qed.

Lemma set_cell_in_range sheet row column value :
  1 <= row <= 1048576 -> 1 <= column ->
  set_cell sheet row column value
  = (v <~ bind_value value ;; Returns (add_cells sheet [(row, column, v)])).
Proof.
  intros Hr Hc. unfold set_cell.
  destruct ((row <? 1) || (column <? 1) || (1048576 <? row)) eqn:H;
    [exfalso | reflexivity].
  apply orb_true_iff in H. destruct H as [H|H];
    [apply orb_true_iff in H; destruct H as [H|H]|];
    apply Z.ltb_lt in H; lia.
Qed.

Lemma set_cell_returns sheet row column value sheet' :
  set_cell sheet row column value = Returns sheet' ->
  1 <= row <= 1048576 /\ 1 <= column.
Proof.
  unfold set_cell.
  destruct ((row <? 1) || (column <? 1) || (1048576 <? row)) eqn:H;
    [discriminate|].
  intros _. apply orb_false_iff in H. destruct H as [H H3].
  apply orb_false_iff in H. destruct H as [H1 H2].
  apply Z.ltb_ge in H1, H2, H3. lia.
Qed.

Lemma bind_value_text s :
  bind_value (Text s)
  = if legal_text s then Returns (Text (kept s))
    else Raises (IllegalCharacterError (kept s)).
Proof.
  unfold bind_value, check_string, legal_text, kept.
  destruct (existsb _ _); reflexivity.
Qed.

Lemma write_row_in_range sc sheet row r :
  1 <= row <= 1048576 -> 1 <= sc ->
  write_row sc sheet row r
  = match adjusted_iso r with
    | Raise e => Raises (Raised e)
    | Ok value =>
        if legal_text value then
          if legal_text (company r)
          then Returns (add_cells sheet (data_cells row sc r))
          else Raises (IllegalCharacterError (kept (company r)))
        else Raises (IllegalCharacterError (kept value))
    end.
Proof.
  intros Hr Hc. unfold write_row, data_cells, adjusted_text.
  destruct (adjusted_iso r) as [value|e]; [|reflexivity].
  cbn [lift and_then].
  rewrite set_cell_in_range, bind_value_text by lia.
  destruct (legal_text value); [|reflexivity]. cbn [and_then].
  rewrite set_cell_in_range, bind_value_text by lia.
  destruct (legal_text (company r)); [|reflexivity]. cbn [and_then].
  rewrite set_cell_in_range by lia. cbn [bind_value and_then].
  rewrite !add_cells_app. reflexivity.
Qed.

Lemma write_row_returns sc sheet row r sheet' :
  write_row sc sheet row r = Returns sheet' ->
  1 <= row <= 1048576 /\ 1 <= sc.
Proof.
  unfold write_row. destruct (adjusted_iso r) as [value|e]; [|discriminate].
  cbn [lift and_then].
  destruct (set_cell sheet row sc (Text value)) as [sheet1|] eqn:H1;
    [|discriminate].
  intros _. apply (set_cell_returns _ _ _ _ H1).
Qed.

Lemma write_row_inv sc sheet row r sheet' :
  write_row sc sheet row r = Returns sheet' ->
  (1 <= row <= 1048576 /\ 1 <= sc) /\ exportable r
  /\ sheet' = add_cells sheet (data_cells row sc r).
Proof.
  intros H. pose proof (write_row_returns _ _ _ _ H) as [Hr Hc].
  split; [auto|]. rewrite write_row_in_range in H by assumption.
  unfold exportable.
  destruct (adjusted_iso r) as [value|e]; [|discriminate].
  destruct (legal_text value) eqn:H1; [|discriminate].
  destruct (legal_text (company r)) eqn:H2; [|discriminate].
  injection H as <-. split; [|reflexivity]. split; [|reflexivity].
  exists value. auto.
Qed.


Lemma write_rows_inv sc : forall block row sheet sheet',
  for_enumerate row block (write_row sc) sheet = Returns sheet' ->
  Forall exportable block
  /\ (block <> [] ->
      1 <= row /\ row + Z.of_nat (List.length block) - 1 <= 1048576
      /\ 1 <= sc)
  /\ sheet' = add_cells sheet (rows_cells row sc block).
Proof.
  induction block as [|r block IH]; intros row sheet sheet' H.
  - injection H as <-. split; [constructor|]. split; [congruence|].
    symmetry. apply add_cells_nil.
  - cbn [for_enumerate] in H.
    destruct (write_row sc sheet row r) as [sheet1|] eqn:H1; [|discriminate].
    cbn [and_then] in H.
    apply write_row_inv in H1. destruct H1 as ((Hr & Hc) & Hex & ->).
    apply IH in H. destruct H as (Hall & Hrange & ->).
    split; [constructor; assumption|]. split.
    + intros _. cbn [List.length].
      destruct block as [|r' block]; [cbn; lia|].
      destruct Hrange as (? & ? & ?); [discriminate|]. lia.
    + cbn [rows_cells]. apply add_cells_app.
Qed.


Lemma write_headers_in_range sheet sc :
  1 <= sc ->
  write_headers sheet sc = Returns (add_cells sheet (header_cells sc)).
Proof.
  intros Hc. unfold write_headers, headers. cbn [for_enumerate].
  rewrite set_cell_in_range, bind_value_text by lia.
  change (legal_text (lit "Data/Hora (UTC)")) with true.
  cbn [and_then].
  rewrite set_cell_in_range, bind_value_text by lia.
  change (legal_text (lit "Empresa")) with true.
  cbn [and_then].
  rewrite set_cell_in_range, bind_value_text by lia.
  change (legal_text (lit "Excedido (%)")) with true.
  cbn [and_then]. rewrite !add_cells_app. cbn [app].
  change (kept (lit "Data/Hora (UTC)")) with (lit "Data/Hora (UTC)").
  change (kept (lit "Empresa")) with (lit "Empresa").
  change (kept (lit "Excedido (%)")) with (lit "Excedido (%)").
  unfold header_cells. rewrite Z.add_0_r.
  replace (sc + (0 + 1)) with (sc + 1) by lia.
  replace (sc + (0 + 1 + 1)) with (sc + 2) by lia.
  reflexivity.
Qed.

Lemma get_column_letter_spec idx :
  get_column_letter idx
  = if (1 <=? idx) && (idx <=? 18278)
    then Returns (column_letters 3 idx [])
    else Raises (ValueError_column idx).
Proof. reflexivity. Qed.

(** ** One table *)

Lemma write_block_inv sheet j block sheet' :
  0 <= j ->
  write_block sheet j block = Returns sheet' ->
  j <= 4568
  /\ Z.of_nat (List.length block) <= 1048575
  /\ Forall exportable block
  /\ sheet' = with_table sheet j block.
Proof.
  intros Hj. unfold write_block.
  change (Z.of_nat (List.length headers)) with 3. cbn zeta.
  replace (j * (3 + 1) + 1) with (4 * j + 1) by lia.
  rewrite write_headers_in_range by lia. cbn [and_then].
  destruct (for_enumerate 2 block _ _) as [sheet1|] eqn:Hrows; [|discriminate].
  cbn [and_then]. apply write_rows_inv in Hrows.
  destruct Hrows as (Hall & Hrange & ->).
  rewrite get_column_letter_spec.
  replace (4 * j + 1 + 3) with (4 * j + 4) by lia.
  destruct ((1 <=? 4 * j + 4) && (4 * j + 4 <=? 18278)) eqn:Hcol;
    [|discriminate].
  cbn [and_then]. intros H. injection H as <-.
  apply andb_true_iff in Hcol. destruct Hcol as [_ Hcol].
  apply Z.leb_le in Hcol.
  split; [lia|]. split; [|split; [exact Hall|]].
  - destruct block as [|r block]; [cbn; lia|].
    destruct Hrange as (_ & ? & _); [discriminate|]. lia.
  - unfold with_table, table_cells. rewrite add_cells_app. reflexivity.
Qed.



(** ** Table after table *)

Lemma with_tables_cons sheet j block blocks :
  with_tables (with_table sheet j block) (j + 1) blocks
  = with_tables sheet j (block :: blocks).
Proof.
  unfold with_tables, with_table, set_width, add_cells. cbn.
  rewrite <- !app_assoc. reflexivity.
Qed.

Lemma write_blocks_inv : forall blocks j sheet sheet',
  0 <= j ->
  for_enumerate j blocks write_block sheet = Returns sheet' ->
  (blocks <> [] -> j + Z.of_nat (List.length blocks) - 1 <= 4568)
  /\ Forall (fun block => Z.of_nat (List.length block) <= 1048575) blocks
  /\ Forall (Forall exportable) blocks
  /\ sheet' = with_tables sheet j blocks.
Proof.
  induction blocks as [|block blocks IH]; intros j sheet sheet' Hj H.
  - injection H as <-. split; [congruence|]. repeat split; try constructor.
    unfold with_tables. destruct sheet. cbn. rewrite !app_nil_r. reflexivity.
  - cbn [for_enumerate] in H.
    destruct (write_block sheet j block) as [sheet1|] eqn:H1; [|discriminate].
    cbn [and_then] in H. apply write_block_inv in H1; [|exact Hj].
    destruct H1 as (Hj' & Hlen & Hall & ->).
    apply IH in H; [|lia]. destruct H as (Hlast & Hlens & Halls & ->).
    split; [|split; [|split]].
    + intros _. cbn [List.length]. destruct blocks as [|b bs]; [cbn; lia|].
      specialize (Hlast ltac:(discriminate)). cbn [List.length] in *. lia.
    + constructor; assumption.
    + constructor; assumption.
    + apply with_tables_cons.
Qed.


End Cells.

(** ** The cells of the tables *)

Section Tables.
Local Open Scope Z_scope.

Lemma nth_error_map_seq (A : Type) (f : nat -> A) n j :
  nth_error (map f (List.seq 0 n)) j
  = if (j <? n)%nat then Some (f j) else None.
Proof.
  rewrite nth_error_map.
  destruct (Nat.ltb_spec j n) as [Hlt|Hge].
  - rewrite nth_error_nth' with (d := 0%nat) by (rewrite length_seq; lia).
    rewrite seq_nth by lia. reflexivity.
  - replace (nth_error (List.seq 0 n) j) with (@None nat); [reflexivity|].
    symmetry. apply nth_error_None. rewrite length_seq. lia.
Qed.

Lemma in_rows_cells sc c : forall block row,
  In c (rows_cells row sc block)
  <-> exists k r,
        nth_error block k = Some r
        /\ In c (data_cells (row + Z.of_nat k) sc r).
Proof.
  induction block as [|r0 block IH]; intros row; cbn [rows_cells].
  - split; [intros []|]. intros ([|k] & r & Hk & _); discriminate.
  - rewrite in_app_iff, IH. split.
    + intros [H|(k & r & Hk & H)].
      * exists 0%nat, r0. rewrite Z.add_0_r. auto.
      * exists (S k), r. split; [exact Hk|].
        replace (row + Z.of_nat (S k)) with (row + 1 + Z.of_nat k) by lia.
        exact H.
    + intros ([|k] & r & Hk & H).
      * injection Hk as <-. rewrite Z.add_0_r in H. auto.
      * right. exists k, r. split; [exact Hk|].
        replace (row + 1 + Z.of_nat k) with (row + Z.of_nat (S k)) by lia.
        exact H.
Qed.

Lemma in_tables_cells c : forall blocks j,
  In c (tables_cells j blocks)
  <-> exists jj block,
        nth_error blocks jj = Some block
        /\ In c (table_cells (j + Z.of_nat jj) block).
Proof.
  induction blocks as [|b0 blocks IH]; intros j; cbn [tables_cells].
  - split; [intros []|]. intros ([|jj] & b & Hj & _); discriminate.
  - rewrite in_app_iff, IH. split.
    + intros [H|(jj & b & Hj & H)].
      * exists 0%nat, b0. rewrite Z.add_0_r. auto.
      * exists (S jj), b. split; [exact Hj|].
        replace (j + Z.of_nat (S jj)) with (j + 1 + Z.of_nat jj) by lia.
        exact H.
    + intros ([|jj] & b & Hj & H).
      * injection Hj as <-. rewrite Z.add_0_r in H. auto.
      * right. exists jj, b. split; [exact Hj|].
        replace (j + 1 + Z.of_nat jj) with (j + Z.of_nat (S jj)) by lia.
        exact H.
Qed.

Lemma rows_cells_length sc : forall block row,
  List.length (rows_cells row sc block) = (3 * List.length block)%nat.
Proof.
  induction block as [|r block IH]; intros row; [reflexivity|].
  cbn [rows_cells]. rewrite length_app, IH. cbn [data_cells List.length]. lia.
Qed.

Lemma tables_cells_length : forall blocks j,
  List.length (tables_cells j blocks)
  = (3 * List.length blocks + 3 * List.length (List.concat blocks))%nat.
Proof.
  induction blocks as [|b blocks IH]; intros j; [reflexivity|].
  cbn [tables_cells List.concat]. unfold table_cells.
  rewrite !length_app, IH, rows_cells_length.
  cbn [header_cells List.length]. lia.
Qed.

Lemma spacer_widths_spec : forall n j,
  spacer_widths j n
  = map (fun k => (column_letters 3 (4 * (j + Z.of_nat k) + 4) [], 2))
      (List.seq 0 n).
Proof.
  induction n as [|n IH]; intros j; [reflexivity|].
  cbn [spacer_widths List.seq map]. rewrite Z.add_0_r. f_equal.
  rewrite IH, <- seq_shift, map_map. apply map_ext. intros k.
  replace (j + 1 + Z.of_nat k) with (j + Z.of_nat (S k)) by lia. reflexivity.
Qed.

(** The index of a record and its place in the blocks. *)
Lemma index_in_blocks m i :
  0 < m ->
  let j := Z.to_nat (Z.of_nat i / m) in
  let k := Z.to_nat (Z.of_nat i mod m) in
  (j * Z.to_nat m + k)%nat = i /\ (k < Z.to_nat m)%nat
  /\ Z.of_nat j = Z.of_nat i / m /\ Z.of_nat k = Z.of_nat i mod m.
Proof.
  intros Hm j k.
  pose proof (Z.div_mod (Z.of_nat i) m ltac:(lia)) as Hdm.
  pose proof (Z.mod_pos_bound (Z.of_nat i) m Hm) as Hmod.
  assert (Hq : 0 <= Z.of_nat i / m) by (apply Z.div_pos; lia).
  assert (Hj : Z.of_nat j = Z.of_nat i / m) by (unfold j; lia).
  assert (Hk : Z.of_nat k = Z.of_nat i mod m) by (unfold k; lia).
  repeat split; try assumption; lia.
Qed.

Lemma place_in_blocks m j k :
  0 < m -> (k < Z.to_nat m)%nat ->
  Z.of_nat (j * Z.to_nat m + k) / m = Z.of_nat j
  /\ Z.of_nat (j * Z.to_nat m + k) mod m = Z.of_nat k.
Proof.
  intros Hm Hk.
  assert (H : Z.of_nat (j * Z.to_nat m + k) = Z.of_nat j * m + Z.of_nat k).
  { rewrite Nat2Z.inj_add, Nat2Z.inj_mul, Z2Nat.id by lia. reflexivity. }
  rewrite H. split.
  - symmetry. apply (Z.div_unique _ m _ (Z.of_nat k)); lia.
  - symmetry. apply (Z.mod_unique _ m (Z.of_nat j)); lia.
Qed.

(** What a run of the export that returns has done. *)
Lemma export_returns_inv records m sheet :
  0 < m ->
  export_to_excel records m = Returns sheet ->
  let blocks :=
    map (block_at records m)
      (List.seq 0 (block_count (List.length records) m)) in
  sheet = with_tables empty_sheet 0 blocks
  /\ (block_count (List.length records) m <= 4569)%nat
  /\ Forall (fun block => Z.of_nat (List.length block) <= 1048575) blocks
  /\ Forall exportable records.
Proof.
  intros Hm H blocks. rewrite export_to_excel_split in H.
  rewrite (record_blocks_spec records Hm) in H. cbn [and_then] in H.
  fold blocks in H.
  destruct (for_enumerate 0 blocks write_block empty_sheet)
    as [built|] eqn:Hloop; [|discriminate].
  cbn [and_then] in H. destruct (save built); [|discriminate].
  cbn [and_then] in H. injection H as <-.
  apply write_blocks_inv in Hloop; [|lia].
  destruct Hloop as (Hlast & Hlens & Halls & ->).
  split; [reflexivity|]. split; [|split; [exact Hlens|]].
  - assert (Hlen : List.length blocks
                   = block_count (List.length records) m).
    { unfold blocks. rewrite length_map, length_seq. reflexivity. }
    destruct blocks as [|b bs] eqn:Hb; [cbn in Hlen; lia|].
    specialize (Hlast ltac:(discriminate)). lia.
  - apply Forall_concat in Halls. unfold blocks in Halls.
    rewrite concat_blocks in Halls. rewrite firstn_all2 in Halls; [exact Halls|].
    pose proof (block_count_lt (List.length records)
                  (block_count (List.length records) m) Hm) as Hc.
    destruct (Z.lt_ge_cases
                (Z.of_nat (block_count (List.length records) m) * m)
                (Z.of_nat (List.length records))) as [Hlt|Hge].
    + apply Hc in Hlt. lia.
    + apply Nat2Z.inj_le. rewrite Nat2Z.inj_mul, Z2Nat.id by lia. lia.
Qed.

End Tables.

Section Layout.
Local Open Scope Z_scope.

Lemma in_header_cells row column v sc :
  In (row, column, v) (header_cells sc) ->
  row = 1
  /\ exists offset header,
       nth_error headers offset = Some header
       /\ column = sc + Z.of_nat offset /\ (offset < 3)%nat
       /\ v = Text header.
Proof.
  unfold header_cells.
  intros [H|[H|[H|[]]]]; injection H as <- <- <-; (split; [reflexivity|]);
    [exists 0%nat | exists 1%nat | exists 2%nat];
    eexists; (split; [reflexivity|]);
    (split; [|split; [lia|reflexivity]]); cbn [Z.of_nat Pos.of_succ_nat]; lia.
Qed.

Lemma in_data_cells row column v row' sc r :
  In (row, column, v) (data_cells row' sc r) ->
  row = row'
  /\ ((column = sc /\ v = Text (kept (adjusted_text r)))
      \/ (column = sc + 1 /\ v = Text (kept (company r)))
      \/ (column = sc + 2 /\ v = Number (exceeded_percent r))).
Proof.
  unfold data_cells.
  intros [H|[H|[H|[]]]]; injection H as <- <- <-; (split; [reflexivity|]);
    auto.
Qed.

Lemma block_count_lt_nat len m j :
  0 < m -> (j < block_count len m)%nat <-> (j * Z.to_nat m < len)%nat.
Proof.
  intros Hm. rewrite (block_count_lt len j Hm). split; intros H.
  - apply Nat2Z.inj_lt. rewrite Nat2Z.inj_mul, Z2Nat.id by lia. exact H.
  - apply Nat2Z.inj_lt in H. rewrite Nat2Z.inj_mul, Z2Nat.id in H by lia.
    exact H.
Qed.

Lemma concat_blocks_all (A : Type) (records : list A) m :
  0 < m ->
  List.concat (map (block_at records m)
                 (List.seq 0 (block_count (List.length records) m)))
  = records.
Proof.
  intros Hm. rewrite concat_blocks. apply firstn_all2.
  destruct (Nat.le_gt_cases (List.length records)
              (block_count (List.length records) m * Z.to_nat m))
    as [Hle|Hgt]; [exact Hle|].
  apply (block_count_lt_nat _ _ Hm) in Hgt. lia.
Qed.

Lemma in_export_cells records m sheet c :
  0 < m ->
  export_to_excel records m = Returns sheet ->
  In c (ws_cells sheet)
  <-> (exists j,
          (j < block_count (List.length records) m)%nat
          /\ In c (header_cells (4 * Z.of_nat j + 1)))
      \/ (exists i r,
             nth_error records i = Some r
             /\ In c (data_cells (2 + Z.of_nat i mod m)
                        (4 * (Z.of_nat i / m) + 1) r)).
Proof.
  intros Hm Hret.
  destruct (export_returns_inv _ Hm Hret) as (-> & _ & _ & _).
  unfold with_tables, empty_sheet. cbn [ws_cells app].
  rewrite in_tables_cells. split.
  - intros (jj & block & Hjj & Hin). rewrite nth_error_map_seq in Hjj.
    destruct (Nat.ltb_spec jj (block_count (List.length records) m))
      as [Hlt|]; [|discriminate].
    injection Hjj as <-. unfold table_cells in Hin. rewrite Z.add_0_l in Hin.
    apply in_app_iff in Hin. destruct Hin as [Hin|Hin].
    + left. exists jj. auto.
    + right. apply in_rows_cells in Hin. destruct Hin as (k & r & Hk & Hin).
      assert (Hkm : (k < Z.to_nat m)%nat).
      { assert (Hsome : nth_error (block_at records m jj) k <> None)
          by congruence.
        apply nth_error_Some in Hsome. rewrite block_at_length in Hsome. lia. }
      rewrite (block_at_nth _ _ _ Hkm) in Hk.
      destruct (@place_in_blocks m jj k Hm Hkm) as [Hdiv Hmod].
      exists (jj * Z.to_nat m + k)%nat, r. split; [exact Hk|].
      rewrite Hdiv, Hmod. exact Hin.
  - intros [(j & Hj & Hin)|(i & r & Hi & Hin)].
    + exists j, (block_at records m j). rewrite nth_error_map_seq.
      destruct (Nat.ltb_spec j (block_count (List.length records) m));
        [|lia].
      split; [reflexivity|]. unfold table_cells. rewrite Z.add_0_l.
      apply in_app_iff. left. exact Hin.
    + destruct (@index_in_blocks m i Hm) as (Hsum & Hk & Hj & Hkk).
      set (j := Z.to_nat (Z.of_nat i / m)) in *.
      set (k := Z.to_nat (Z.of_nat i mod m)) in *.
      assert (Hlen : (i < List.length records)%nat).
      { apply nth_error_Some. congruence. }
      exists j, (block_at records m j). rewrite nth_error_map_seq.
      destruct (Nat.ltb_spec j (block_count (List.length records) m))
        as [|Hge].
      2:{ exfalso.
          assert (H : ~ (j < block_count (List.length records) m)%nat) by lia.
          apply H. apply (block_count_lt_nat _ _ Hm). lia. }
      split; [reflexivity|]. unfold table_cells. rewrite Z.add_0_l.
      apply in_app_iff. right. apply in_rows_cells. exists k, r.
      rewrite (block_at_nth _ _ _ Hk), Hsum. split; [exact Hi|].
      rewrite Hj, Hkk. exact Hin.
Qed.



End Layout.

(** ** The texts of the records *)

Section Texts.

Lemma in_firstn (A : Type) (x : A) n l : In x (firstn n l) -> In x l.
Proof.
  intros H. rewrite <- (firstn_skipn n l). apply in_app_iff. left. exact H.
Qed.

Lemma legal_character c : (0x20 <= c)%N -> is_illegal_character c = false.
Proof.
  intros H. unfold is_illegal_character, in_ranges.
  cbn [existsb fst snd].
  destruct (N.leb_spec c 0x8), (N.leb_spec c 0xc), (N.leb_spec c 0x1f);
    lia.
Qed.

Lemma legal_from_space s :
  Forall (fun c => (0x20 <= c)%N) s -> legal_text s = true.
Proof.
  intros H. unfold legal_text. apply negb_true_iff.
  destruct (existsb is_illegal_character (kept s)) eqn:He; [|reflexivity].
  apply existsb_exists in He. destruct He as (c & Hin & Hc).
  apply in_firstn in Hin. rewrite Forall_forall in H.
  rewrite (legal_character (H c Hin)) in Hc. discriminate.
Qed.

Lemma kept_short s : (Z.of_nat (List.length s) <= 32767)%Z -> kept s = s.
Proof. intros H. unfold kept. apply firstn_all2. lia. Qed.

Lemma numeral_aux_chars fuel : forall n acc,
  Forall (fun c => (0x20 <= c)%N) acc ->
  Forall (fun c => (0x20 <= c)%N) (numeral_aux fuel n acc)
  /\ (List.length (numeral_aux fuel n acc) <= fuel + List.length acc)%nat.
Proof.
  induction fuel as [|fuel IH]; intros n acc Hacc; cbn [numeral_aux].
  - split; [exact Hacc | apply Nat.le_refl].
  - assert (Hacc' : Forall (fun c => (0x20 <= c)%N)
                      ((0x30 + n mod 10)%N :: acc)).
    { constructor; [|exact Hacc].
      apply N.le_trans with 0x30%N; [lia | apply N.le_add_r]. }
    destruct (n / 10 =? 0)%N.
    + split; [exact Hacc'|]. cbn [List.length Nat.add].
      apply le_n_S, Nat.le_add_l.
    + destruct (IH (n / 10)%N _ Hacc') as [H1 H2].
      split; [exact H1|]. cbn [List.length] in H2.
      rewrite Nat.add_succ_r in H2. exact H2.
Qed.

Lemma size_nat_le n : (n <= 9999)%N -> (N.size_nat n <= 14)%nat.
Proof.
  destruct n as [|p]; [cbn; lia|]. intros H. cbn [N.size_nat].
  destruct (Pos.eq_dec p 9999) as [->|Hne]; [cbn; lia|].
  change 14%nat with (Pos.size_nat 9999).
  apply Pos.size_nat_monotone. lia.
Qed.

Lemma strftime_chars dt :
  Forall (fun c => (0x20 <= c)%N) (strftime_minutes_Z dt)
  /\ ((year (dt_date dt) <= 9999)%Z ->
      (List.length (strftime_minutes_Z dt) <= 28)%nat).
Proof.
  unfold strftime_minutes_Z, numeral.
  destruct (@numeral_aux_chars
              (S (N.size_nat (Z.to_N (year (dt_date dt)))))
              (Z.to_N (year (dt_date dt))) [] (Forall_nil _)) as [Hc Hl].
  split.
  - repeat (apply Forall_app; split); try exact Hc;
      unfold two_digits;
      repeat (constructor; try lia);
      vm_compute; discriminate.
  - intros Hy.
    assert (Hs : (N.size_nat (Z.to_N (year (dt_date dt))) <= 14)%nat)
      by (apply size_nat_le; lia).
    rewrite !length_app. cbn [List.length] in Hl.
    change (List.length (lit "-")) with 1%nat.
    change (List.length (lit "T")) with 1%nat.
    change (List.length (lit ":")) with 1%nat.
    change (List.length (lit "Z")) with 1%nat.
    unfold two_digits. cbn [List.length].
    set (k := N.size_nat _) in *. set (len := List.length _) in *.
    clearbody k len. lia.
Qed.


Lemma adjusted_text_clean r value :
  adjusted_iso r = Ok value ->
  legal_text value = true /\ kept value = value.
Proof.
  unfold adjusted_iso, datetime_add.
  set (days := (toordinal (dt_date (timestamp r)) + _ + _)%Z).
  destruct ((0 <? days)%Z && (days <=? MAXORDINAL)%Z)%bool eqn:Hd;
    cbn [bind]; [|discriminate].
  intros H. injection H as <-.
  apply andb_true_iff in Hd. destruct Hd as [H0 H1].
  apply Z.ltb_lt in H0. apply Z.leb_le in H1.
  destruct (@Calendar.fromordinal_spec days ltac:(lia)) as [Hv _].
  match goal with |- context [strftime_minutes_Z ?dt] =>
    destruct (strftime_chars dt) as [Hc Hl] end.
  split; [apply legal_from_space; exact Hc|].
  apply kept_short. cbn [combine dt_date] in Hl.
  destruct Hv as ((_ & Hy) & _). specialize (Hl Hy). lia.
Qed.

Lemma upper_company_clean company :
  List.length company = 3%nat -> forallb is_upper company = true ->
  legal_text company = true /\ kept company = company.
Proof.
  intros Hl Hu. split; [|apply kept_short; lia].
  apply legal_from_space. apply Forall_forall. intros c Hc.
  rewrite forallb_forall in Hu. specialize (Hu c Hc).
  unfold is_upper in Hu. apply andb_true_iff in Hu. destruct Hu as [Hu _].
  apply N.leb_le in Hu. lia.
Qed.

Lemma parsed_company_clean lim lines shift_date rs r :
  parse_records lim lines shift_date = Ok rs -> In r rs ->
  legal_text (company r) = true /\ kept (company r) = company r.
Proof.
  intros H Hin. unfold parse_records in H.
  destruct (loop lim 1 lines _) as [st'|] eqn:Hloop; [|discriminate].
  cbn [bind] in H. injection H as <-.
  destruct (@loop_events lim lines 1%nat _ _ Hloop) as (es & Hdec & Hev & _).
  cbn [records map app] in Hev.
  pose proof (@decode_lines_valid lim lines 1%nat es Hdec) as Hes.
  rewrite Forall_forall in Hes.
  assert (He : In (event_of r) es).
  { rewrite <- Hev. apply in_map. exact Hin. }
  destruct (Hes _ He) as (_ & Hl & Hu & _).
  apply upper_company_clean; assumption.
Qed.

End Texts.

(** ** What the export can raise *)

Section Failures.
Local Open Scope Z_scope.






End Failures.

(** ** Lines of text *)

Lemma splitlines_from_line : forall line acc rest,
  no_linebreak line ->
  splitlines_from acc (line ++ rest) = splitlines_from (rev line ++ acc) rest.
Proof.
  unfold no_linebreak.
  induction line as [|c line IH]; intros acc rest H; [reflexivity|].
  cbn [forallb] in H. apply andb_true_iff in H. destruct H as [Hc H].
  apply negb_true_iff in Hc.
  cbn [app splitlines_from rev]. rewrite Hc, (IH _ _ H), <- app_assoc.
  reflexivity.
Qed.

Lemma splitlines_from_eol eol acc rest :
  eol = [LINE_FEED] \/ eol = [0xd%N; LINE_FEED] ->
  splitlines_from acc (eol ++ rest) = rev acc :: splitlines_from [] rest.
Proof.
  intros [-> | ->]; cbn [app splitlines_from].
  - change (is_linebreak 0xa%N) with true. cbv iota.
    change (N.eqb 0xa 0xd) with false. cbn [andb].
    destruct rest; reflexivity.
  - change (is_linebreak 0xd%N) with true. cbv iota.
    change (N.eqb 0xd 0xd && N.eqb 0xa 0xa) with true. reflexivity.
Qed.

Lemma splitlines_join eol last : forall lines,
  eol = [LINE_FEED] \/ eol = [0xd%N; LINE_FEED] ->
  Forall no_linebreak lines -> no_linebreak last ->
  splitlines (join_lines eol lines ++ last) = lines ++ tail_line last.
Proof.
  intros lines Heol. unfold splitlines.
  induction lines as [|line lines IH]; intros Hlines Hlast.
  - cbn [join_lines map List.concat app].
    rewrite <- (app_nil_r last) at 1.
    rewrite (@splitlines_from_line last [] [] Hlast), app_nil_r.
    cbn [splitlines_from]. unfold tail_line.
    destruct last as [|c last]; [reflexivity|].
    destruct (rev (c :: last)) as [|x l] eqn:Hrev.
    + apply (f_equal (@List.length char)) in Hrev.
      rewrite length_rev in Hrev. discriminate.
    + rewrite <- Hrev, rev_involutive. reflexivity.
  - inversion Hlines as [|? ? Hline Hlines']; subst.
    unfold join_lines. cbn [map List.concat]. fold (join_lines eol lines).
    rewrite <- !app_assoc.
    rewrite (@splitlines_from_line line [] _ Hline), app_nil_r.
    rewrite (@splitlines_from_eol eol _ _ Heol), rev_involutive.
    cbn [app]. f_equal. apply IH; assumption.
Qed.

(** ** The export as a whole *)

Section Whole.
Local Open Scope Z_scope.

Lemma record_blocks_negative (A : Type) (records : list A) m :
  m < 0 -> _record_blocks records m = Returns [].
Proof.
  intros Hneg. unfold _record_blocks, range_list.
  destruct (m =? 0) eqn:H0; [apply Z.eqb_eq in H0; lia|].
  destruct (0 <? m) eqn:H1; [apply Z.ltb_lt in H1; lia|].
  replace (Z.to_nat (0 - Z.of_nat (List.length records))) with 0%nat by lia.
  reflexivity.
Qed.











Lemma export_record_cells records m sheet i r :
  0 < m ->
  export_to_excel records m = Returns sheet ->
  nth_error records i = Some r ->
  exists value,
    adjusted_iso r = Ok value
    /\ incl [ (2 + Z.of_nat i mod m, 4 * (Z.of_nat i / m) + 1,
               Text (kept value));
              (2 + Z.of_nat i mod m, 4 * (Z.of_nat i / m) + 1 + 1,
               Text (kept (company r)));
              (2 + Z.of_nat i mod m, 4 * (Z.of_nat i / m) + 1 + 2,
               Number (exceeded_percent r)) ]
         (ws_cells sheet).
Proof.
  intros Hm Hret Hi.
  destruct (export_returns_inv _ Hm Hret) as (_ & _ & _ & Hall).
  rewrite Forall_forall in Hall.
  destruct (Hall r (nth_error_In _ _ Hi)) as [(value & Hv & _) _].
  exists value. split; [exact Hv|].
  intros c Hc. apply (in_export_cells _ c Hm Hret). right.
  exists i, r. split; [exact Hi|].
  unfold data_cells, adjusted_text. rewrite Hv. exact Hc.
Qed.

Lemma export_cells_length records m sheet :
  0 < m ->
  export_to_excel records m = Returns sheet ->
  List.length (ws_cells sheet)
  = (3 * block_count (List.length records) m
     + 3 * List.length records)%nat.
Proof.
  intros Hm Hret.
  destruct (export_returns_inv _ Hm Hret) as (-> & _ & _ & _).
  unfold with_tables, empty_sheet. cbn [ws_cells app].
  rewrite tables_cells_length, length_map, length_seq.
  rewrite (concat_blocks_all records Hm). reflexivity.
Qed.

Lemma export_negative records m :
  m < 0 -> export_to_excel records m = Returns empty_sheet.
Proof.
  intros Hneg. rewrite export_to_excel_split.
  rewrite (record_blocks_negative records Hneg). reflexivity.
Qed.

Lemma parse_records_length lim lines shift_date rs :
  parse_records lim lines shift_date = Ok rs ->
  List.length rs
  = List.length (filter (fun l => negb (is_blank l)) lines).
Proof.
  intros H. unfold parse_records in H.
  destruct (loop lim 1 lines _) as [st'|] eqn:Hloop; [|discriminate].
  cbn [bind] in H. injection H as <-.
  destruct (@loop_events lim lines 1%nat _ _ Hloop) as (es & _ & Hev & Hlen).
  cbn [records map app] in Hev.
  rewrite <- Hlen, <- Hev, length_map. reflexivity.
Qed.

End Whole.

(** * Further properties *)

(** X1. Whatever ends [parse_records] early is one of four things: the
    [ParseError] for a line that is not blank and that the grammar does not
    match, with the 1-based number and the raw text of that line; the
    [ValueError] of [int] for a percent of more than 640 digits and more
    digits than the interpreter converts; the [ValueError] of [strptime]
    for a normalised clock whose hour or minute field the format refuses;
    or the [OverflowError] of the date arithmetic. The [ParseError] with
    the invalid-clock message of [_normalize_clock] is never raised: the
    clocks the grammar captures all normalise. *)
Theorem parse_records_errors lim lines shift_date e :
  parse_records lim lines shift_date = Raise e ->
  (forall clock, e <> ParseError (Horario_invalido clock))
  /\ ((exists k raw,
          nth_error lines k = Some raw
          /\ e = ParseError (Linha_nao_corresponde (S k) raw)
          /\ is_blank raw = false
          /\ re_match LOG_PATTERN (strip raw) = None)
      \/ (exists digits,
             e = ValueError_int digits
             /\ (640 < digits)%nat /\ (0 < lim < digits)%nat)
      \/ (exists a b c d,
             e = ValueError_strptime [a; b; COLON; c; d]
             /\ is_decimal a = true /\ is_decimal b = true
             /\ is_decimal c = true /\ is_decimal d = true
             /\ hour_field_ok a b && minute_field_ok c = false)
      \/ e = OverflowError).
Proof.
  unfold parse_records. intros H.
  destruct (loop lim 1 lines _) as [st|e'] eqn:Hloop; [discriminate|].
  cbn [bind] in H. injection H as <-. apply loop_raises in Hloop.
  split; [|exact Hloop].
  intros clock.
  destruct Hloop as [(k & raw & _ & -> & _)
                    |[(digits & -> & _)
                     |[(a & b & c & d & -> & _)| ->]]];
    discriminate.
Qed.

Lemma parse_records_errors_witness :
  (forall clock,
      ParseError (Linha_nao_corresponde 2 (lit "Despacho iniciado"))
      <> ParseError (Horario_invalido clock))
  /\ ((exists k raw,
          nth_error [example_line "10:00"; lit "Despacho iniciado"] k
          = Some raw
          /\ ParseError (Linha_nao_corresponde 2 (lit "Despacho iniciado"))
             = ParseError (Linha_nao_corresponde (S k) raw)
          /\ is_blank raw = false
          /\ re_match LOG_PATTERN (strip raw) = None)
      \/ (exists digits,
             ParseError (Linha_nao_corresponde 2 (lit "Despacho iniciado"))
             = ValueError_int digits
             /\ (640 < digits)%nat /\ (0 < 4300 < digits)%nat)
      \/ (exists a b c d,
             ParseError (Linha_nao_corresponde 2 (lit "Despacho iniciado"))
             = ValueError_strptime [a; b; COLON; c; d]
             /\ is_decimal a = true /\ is_decimal b = true
             /\ is_decimal c = true /\ is_decimal d = true
             /\ hour_field_ok a b && minute_field_ok c = false)
      \/ ParseError (Linha_nao_corresponde 2 (lit "Despacho iniciado"))
         = OverflowError).
Proof.
  apply (@parse_records_errors 4300
           [example_line "10:00"; lit "Despacho iniciado"] (ymd 2024 1 1)).
  vm_compute. reflexivity.
Defined.

(** X2. Parsing works line by line and never goes back: the records of the
    first lines of an input are the first records of the whole input, and
    an exception raised on the first lines is the exception of the whole
    input. *)
Theorem parse_records_prefix lim pre post shift_date :
  (forall rs,
      parse_records lim (pre ++ post) shift_date = Ok rs ->
      exists rs1 rs2,
        parse_records lim pre shift_date = Ok rs1 /\ rs = rs1 ++ rs2)
  /\ (forall e,
         parse_records lim pre shift_date = Raise e ->
         parse_records lim (pre ++ post) shift_date = Raise e).
Proof.
  unfold parse_records. rewrite loop_app.
  destruct (loop lim 1 pre _) as [st|e'] eqn:Hpre; cbn [bind].
  - split; [|discriminate]. intros rs H.
    destruct (loop lim (1 + List.length pre) post st) as [st'|] eqn:Hpost;
      [|discriminate].
    cbn [bind] in H. injection H as <-.
    apply loop_grows in Hpost. destruct Hpost as [new Hnew].
    exists (records st), new. split; [reflexivity | exact Hnew].
  - split; [discriminate|]. intros e H. exact H.
Qed.

Lemma parse_records_prefix_witness :
  exists rs1 rs2,
    parse_records 4300 [example_line "23:50"] (ymd 2024 1 1) = Ok rs1
    /\ [ example_record (ymd 2024 1 1) (hm 23 50);
         example_record (ymd 2024 1 2) (hm 0 10) ] = rs1 ++ rs2.
Proof.
  apply (proj1 (@parse_records_prefix 4300 [example_line "23:50"]
                  [example_line "00:10"] (ymd 2024 1 1))).
  vm_compute. reflexivity.
Defined.

(** X3. For a shift date the calendar holds, the records come out in the
    order of time: every timestamp is a date and time the calendar holds,
    the first one is on the shift date, and each one is at or after the one
    before it and less than 24 hours after it. *)
Theorem timestamps_in_order lim lines shift_date rs :
  valid_date shift_date ->
  parse_records lim lines shift_date = Ok rs ->
  chained within_a_day (map timestamp rs)
  /\ Forall (fun r => valid_datetime (timestamp r)) rs
  /\ (forall r, hd_error rs = Some r -> dt_date (timestamp r) = shift_date).
Proof.
  intros Hv H. unfold parse_records in H.
  destruct (loop lim 1 lines _) as [st'|] eqn:Hloop; [|discriminate].
  cbn [bind] in H. injection H as <-.
  destruct (@loop_events lim lines 1%nat _ _ Hloop) as (es & Hdec & _ & _).
  rewrite (@loop_decoded lim lines 1%nat _ es Hdec) in Hloop.
  pose proof (@decode_lines_valid lim lines 1%nat es Hdec) as Hes.
  set (st0 := {| records := []; current_date := shift_date;
                 previous_clock := None |}) in Hloop.
  assert (Hprev : forall previous, previous_clock st0 = Some previous ->
                                   on_the_minute previous) by discriminate.
  destruct (@sequence_events_chained es st0 st' Hv Hprev Hes Hloop)
    as (new & Hnew & Hch & Hhd).
  destruct (@sequence_events_dates es st0 st' Hv Hloop)
    as (new' & Hnew' & Hev & Hdates).
  cbn [st0 records app] in Hnew, Hnew'. rewrite Hnew in Hnew'. subst new'.
  rewrite Hnew. split; [exact Hch|]. split; [|apply Hhd; reflexivity].
  apply Forall_forall. intros r Hin.
  assert (He : In (event_of r) es).
  { rewrite <- Hev. apply in_map. exact Hin. }
  apply In_nth_error in Hin. destruct Hin as [k Hk].
  split; [apply (Hdates _ _ Hk)|].
  rewrite Forall_forall in Hes. apply Hes in He.
  destruct He as [(Hh & Hm & Hs & Hu) _]. cbn [event_of clock_time] in *.
  unfold valid_time. rewrite Hs, Hu. lia.
Qed.

Lemma timestamps_in_order_witness :
  chained within_a_day
    (map timestamp [ example_record (ymd 2024 1 1) (hm 23 50);
                     example_record (ymd 2024 1 2) (hm 0 10) ])
  /\ Forall (fun r => valid_datetime (timestamp r))
       [ example_record (ymd 2024 1 1) (hm 23 50);
         example_record (ymd 2024 1 2) (hm 0 10) ]
  /\ (forall r,
         hd_error [ example_record (ymd 2024 1 1) (hm 23 50);
                    example_record (ymd 2024 1 2) (hm 0 10) ] = Some r ->
         dt_date (timestamp r) = ymd 2024 1 1).
Proof.
  apply (@timestamps_in_order 4300
           [example_line "23:50"; example_line "00:10"] (ymd 2024 1 1)).
  - repeat split; apply Z.leb_le; reflexivity.
  - vm_compute. reflexivity.
Defined.

(** X4. When every line of an input can be read, the run fails only by
    running out of calendar. The ordinal of the date of a record is the
    ordinal of the shift date plus the number of times, up to that record,
    that a clock time is earlier than the one before; the run gives one
    record for each event when that count stays within the last day of the
    calendar for the whole input, and raises [OverflowError] otherwise. *)
Theorem dates_count_rollovers lim lines shift_date es :
  valid_date shift_date ->
  decode_lines lim 1 lines = Ok es ->
  ((toordinal shift_date + descents (map clock_time es) <= MAXORDINAL)%Z ->
   exists rs,
     parse_records lim lines shift_date = Ok rs
     /\ map event_of rs = es
     /\ forall k r,
          nth_error rs k = Some r ->
          toordinal (dt_date (timestamp r))
          = (toordinal shift_date
             + descents (map clock_time (firstn (S k) es)))%Z)
  /\ ((MAXORDINAL < toordinal shift_date + descents (map clock_time es))%Z ->
      parse_records lim lines shift_date = Raise OverflowError).
Proof.
  intros Hv Hdec. unfold parse_records.
  rewrite (@loop_decoded lim lines 1%nat _ es Hdec).
  set (st0 := {| records := []; current_date := shift_date;
                 previous_clock := None |}).
  destruct (@sequence_events_spec es st0 Hv) as [Hok Hover].
  cbn [st0 current_date previous_clock trail] in Hok, Hover.
  split.
  - intros Hle. destruct (Hok Hle) as (st' & Hrun & _ & _).
    rewrite Hrun. cbn [bind].
    destruct (@sequence_events_dates es st0 st' Hv Hrun)
      as (new & Hnew & Hev & Hdates).
    cbn [st0 records app current_date previous_clock trail] in Hnew, Hdates.
    exists new. rewrite Hnew. split; [reflexivity|]. split; [exact Hev|].
    intros k r Hk. apply (Hdates _ _ Hk).
  - intros Hgt. rewrite (Hover Hgt). reflexivity.
Qed.

Lemma dates_count_rollovers_witness :
  ((toordinal (ymd 2024 1 1)
    + descents (map clock_time
                  [ {| clock_time := hm 23 50; ev_company := lit "ABC";
                       ev_percent := 10 |};
                    {| clock_time := hm 0 10; ev_company := lit "ABC";
                       ev_percent := 10 |} ]) <= MAXORDINAL)%Z ->
   exists rs,
     parse_records 4300 [example_line "23:50"; example_line "00:10"]
       (ymd 2024 1 1) = Ok rs
     /\ map event_of rs
        = [ {| clock_time := hm 23 50; ev_company := lit "ABC";
               ev_percent := 10 |};
            {| clock_time := hm 0 10; ev_company := lit "ABC";
               ev_percent := 10 |} ]
     /\ forall k r,
          nth_error rs k = Some r ->
          toordinal (dt_date (timestamp r))
          = (toordinal (ymd 2024 1 1)
             + descents
                 (map clock_time
                    (firstn (S k)
                       [ {| clock_time := hm 23 50; ev_company := lit "ABC";
                            ev_percent := 10 |};
                         {| clock_time := hm 0 10; ev_company := lit "ABC";
                            ev_percent := 10 |} ])))%Z)
  /\ ((MAXORDINAL
       < toordinal (ymd 2024 1 1)
         + descents (map clock_time
                       [ {| clock_time := hm 23 50; ev_company := lit "ABC";
                            ev_percent := 10 |};
                         {| clock_time := hm 0 10; ev_company := lit "ABC";
                            ev_percent := 10 |} ]))%Z ->
      parse_records 4300 [example_line "23:50"; example_line "00:10"]
        (ymd 2024 1 1) = Raise OverflowError).
Proof.
  apply (@dates_count_rollovers 4300
           [example_line "23:50"; example_line "00:10"] (ymd 2024 1 1)).
  - repeat split; apply Z.leb_le; reflexivity.
  - vm_compute. reflexivity.
Defined.

(** X5. A normalised clock is in normal form: it is two digits, a colon
    and two digits, and normalising it again gives it back unchanged. *)
Theorem normalize_clock_idempotent clock normalized :
  _normalize_clock clock = Ok normalized ->
  is_HH_MM normalized = true
  /\ _normalize_clock normalized = Ok normalized.
Proof.
  rewrite normalize_clock_spec.
  destruct (is_HH_MM (trimmed_clock clock)) eqn:Hshape; [|discriminate].
  intros H. injection H as <-. split; [exact Hshape|].
  destruct (trimmed_clock clock) as [|a [|b [|sep [|c [|d [|x l]]]]]];
    try discriminate.
  cbn [is_HH_MM] in Hshape.
  repeat (apply andb_true_iff in Hshape; destruct Hshape as [Hshape ?]).
  match goal with H : N.eqb COLON sep = true |- _ =>
    apply N.eqb_eq in H; subst sep end.
  apply (@normalize_clock_token a b COLON c d []); auto.
Qed.

Lemma normalize_clock_idempotent_witness :
  is_HH_MM (lit "08:30") = true
  /\ _normalize_clock (lit "08:30") = Ok (lit "08:30").
Proof.
  apply (@normalize_clock_idempotent (lit " 08H30h ")).
  vm_compute. reflexivity.
Defined.

(** X6. White space around a line and blank lines between lines change
    nothing but the line numbers and the raw texts in the messages: the
    input with its blank lines dropped and its other lines stripped gives
    the same records, or the same exception up to the message of a
    [ParseError]. *)
Theorem surrounding_space_is_immaterial lim lines shift_date :
  same_but_message (parse_records lim lines shift_date)
    (parse_records lim
       (map strip (filter (fun l => negb (is_blank l)) lines)) shift_date).
Proof.
  unfold parse_records.
  pose proof (@loop_stripped lim lines 1 1
                {| records := []; current_date := shift_date;
                   previous_clock := None |}) as H.
  destruct (loop lim 1 lines _) as [st1|e1];
    destruct (loop lim 1 (map strip _) _) as [st2|e2];
    cbn [bind].
  - cbn in H. subst st2. reflexivity.
  - contradiction.
  - destruct e1; contradiction.
  - exact H.
Qed.

(** X7. For a positive block size [_record_blocks] cuts the records into
    consecutive blocks: put end to end the blocks are the records; the
    [j]-th block is the [j]-th run of [block_size] records; there are as
    many blocks as the size goes into the number of records, rounded up;
    no block is empty or longer than the size, and every block but the
    last has exactly the size. *)
Theorem record_blocks_partition (A : Type) (records : list A) block_size :
  (0 < block_size)%Z ->
  exists blocks,
    _record_blocks records block_size = Returns blocks
    /\ List.concat blocks = records
    /\ List.length blocks = block_count (List.length records) block_size
    /\ forall j b,
         nth_error blocks j = Some b ->
         b = block_at records block_size j
         /\ (1 <= List.length b)%nat
         /\ (Z.of_nat (List.length b) <= block_size)%Z
         /\ (S j < List.length blocks ->
             Z.of_nat (List.length b) = block_size).
Proof.
  intros Hm. rewrite (record_blocks_spec records Hm).
  eexists. split; [reflexivity|].
  pose proof (fun j => block_count_lt_nat (List.length records) j Hm) as Hc.
  split; [|split].
  - apply (concat_blocks_all records Hm).
  - rewrite length_map, length_seq. reflexivity.
  - intros j b Hj. rewrite nth_error_map_seq in Hj.
    destruct (Nat.ltb_spec j (block_count (List.length records) block_size))
      as [Hlt|]; [|discriminate].
    injection Hj as <-. split; [reflexivity|].
    rewrite block_at_length, length_map, length_seq.
    apply Hc in Hlt. split; [lia|]. split; [lia|].
    intros Hnext. apply Hc in Hnext. lia.
Qed.

Lemma record_blocks_partition_witness :
  exists blocks,
    _record_blocks [1; 2; 3; 4; 5; 6; 7]%Z 3 = Returns blocks
    /\ List.concat blocks = [1; 2; 3; 4; 5; 6; 7]%Z
    /\ List.length blocks
       = block_count (List.length [1; 2; 3; 4; 5; 6; 7]%Z) 3
    /\ forall j b,
         nth_error blocks j = Some b ->
         b = block_at [1; 2; 3; 4; 5; 6; 7]%Z 3 j
         /\ (1 <= List.length b)%nat
         /\ (Z.of_nat (List.length b) <= 3)%Z
         /\ (S j < List.length blocks -> Z.of_nat (List.length b) = 3%Z).
Proof.
  apply (@record_blocks_partition Z [1; 2; 3; 4; 5; 6; 7]%Z 3). lia.
Defined.

(** X8. A block size of zero makes [_record_blocks] raise the
    [ValueError] of [range], also when there are no records; a negative
    block size gives no block at all, so that the records are dropped
    without an exception. *)
Theorem record_blocks_degenerate (A : Type) (records : list A) block_size :
  (block_size = 0%Z ->
   _record_blocks records block_size = Raises ValueError_range_step)
  /\ ((block_size < 0)%Z -> _record_blocks records block_size = Returns []).
Proof.
  split.
  - intros ->. reflexivity.
  - intros Hneg. unfold _record_blocks, range_list.
    destruct (block_size =? 0)%Z eqn:H0; [apply Z.eqb_eq in H0; lia|].
    destruct (0 <? block_size)%Z eqn:H1; [apply Z.ltb_lt in H1; lia|].
    replace (Z.to_nat (0 - Z.of_nat (List.length records))) with 0%nat by lia.
    reflexivity.
Qed.

Lemma record_blocks_degenerate_witness :
  _record_blocks [1; 2; 3]%Z 0 = Raises ValueError_range_step
  /\ _record_blocks [1; 2; 3]%Z (-2) = Returns [].
Proof.
  split.
  - apply (proj1 (@record_blocks_degenerate Z [1; 2; 3]%Z 0)). reflexivity.
  - apply (proj2 (@record_blocks_degenerate Z [1; 2; 3]%Z (-2))). lia.
Defined.

(** X9. When the export returns, for a positive table size [m], the
    record of index [i] (from 0) is in the table of index [i / m], in the
    row [2 + i mod m]: its adjusted text is in the first column of the
    table, column [4 * (i / m) + 1], its company in the next column and
    its percent, as a number, in the one after. *)
Theorem export_places_records records max_per_table sheet i r :
  (0 < max_per_table)%Z ->
  export_to_excel records max_per_table = Returns sheet ->
  nth_error records i = Some r ->
  let row := (2 + Z.of_nat i mod max_per_table)%Z in
  let column := (4 * (Z.of_nat i / max_per_table) + 1)%Z in
  exists value,
    adjusted_iso r = Ok value
    /\ In (row, column, Text (kept value)) (ws_cells sheet)
    /\ In (row, (column + 1)%Z, Text (kept (company r))) (ws_cells sheet)
    /\ In (row, (column + 2)%Z, Number (exceeded_percent r))
         (ws_cells sheet).
Proof.
  intros Hm Hret Hi row column.
  destruct (export_returns_inv _ Hm Hret) as (_ & _ & _ & Hall).
  rewrite Forall_forall in Hall.
  destruct (Hall r (nth_error_In _ _ Hi)) as [(value & Hv & _) _].
  exists value. split; [exact Hv|].
  assert (Hcells : forall c,
             In c (data_cells row column r) -> In c (ws_cells sheet)).
  { intros c Hc. apply (in_export_cells _ c Hm Hret). right.
    exists i, r. split; [exact Hi | exact Hc]. }
  unfold data_cells, adjusted_text in Hcells. rewrite Hv in Hcells.
  repeat split; apply Hcells; cbn [In]; auto.
Qed.

Lemma export_places_records_witness :
  exists value,
    adjusted_iso (example_record (ymd 2024 1 2) (hm 0 10)) = Ok value
    /\ In ((2 + Z.of_nat 2 mod 2)%Z, (4 * (Z.of_nat 2 / 2) + 1)%Z,
           Text (kept value))
         (ws_cells
            (with_tables empty_sheet 0
               [ [ example_record (ymd 2024 1 1) (hm 23 50);
                   example_record (ymd 2024 1 1) (hm 23 55) ];
                 [ example_record (ymd 2024 1 2) (hm 0 10) ] ]))
    /\ In ((2 + Z.of_nat 2 mod 2)%Z, (4 * (Z.of_nat 2 / 2) + 1 + 1)%Z,
           Text (kept (company (example_record (ymd 2024 1 2) (hm 0 10)))))
         (ws_cells
            (with_tables empty_sheet 0
               [ [ example_record (ymd 2024 1 1) (hm 23 50);
                   example_record (ymd 2024 1 1) (hm 23 55) ];
                 [ example_record (ymd 2024 1 2) (hm 0 10) ] ]))
    /\ In ((2 + Z.of_nat 2 mod 2)%Z, (4 * (Z.of_nat 2 / 2) + 1 + 2)%Z,
           Number
             (exceeded_percent (example_record (ymd 2024 1 2) (hm 0 10))))
         (ws_cells
            (with_tables empty_sheet 0
               [ [ example_record (ymd 2024 1 1) (hm 23 50);
                   example_record (ymd 2024 1 1) (hm 23 55) ];
                 [ example_record (ymd 2024 1 2) (hm 0 10) ] ])).
Proof.
  apply (@export_places_records
           [ example_record (ymd 2024 1 1) (hm 23 50);
             example_record (ymd 2024 1 1) (hm 23 55);
             example_record (ymd 2024 1 2) (hm 0 10) ] 2).
  - lia.
  - vm_compute. reflexivity.
  - reflexivity.
Defined.

(** X10. When the export returns, for a positive table size [m], every
    cell that was given a value is either a header, in row 1 of one of
    the tables, or one of the three fields of a record, in the row and the
    table of that record. So nothing is written below row [m + 1], and
    nothing in the spacer columns 4, 8, 12 and so on. *)
Theorem export_writes_tables_only records max_per_table sheet row column v :
  (0 < max_per_table)%Z ->
  export_to_excel records max_per_table = Returns sheet ->
  In (row, column, v) (ws_cells sheet) ->
  ((row = 1%Z
    /\ exists j offset header,
         (j < block_count (List.length records) max_per_table)%nat
         /\ nth_error headers offset = Some header
         /\ column = (4 * Z.of_nat j + 1 + Z.of_nat offset)%Z
         /\ v = Text header)
   \/ (exists i r value,
          nth_error records i = Some r
          /\ adjusted_iso r = Ok value
          /\ row = (2 + Z.of_nat i mod max_per_table)%Z
          /\ ((column = (4 * (Z.of_nat i / max_per_table) + 1)%Z
               /\ v = Text (kept value))
              \/ (column = (4 * (Z.of_nat i / max_per_table) + 2)%Z
                  /\ v = Text (kept (company r)))
              \/ (column = (4 * (Z.of_nat i / max_per_table) + 3)%Z
                  /\ v = Number (exceeded_percent r)))))
  /\ (1 <= row <= max_per_table + 1)%Z
  /\ (column mod 4 <> 0)%Z.
Proof.
  intros Hm Hret Hin.
  destruct (export_returns_inv _ Hm Hret) as (_ & _ & _ & Hall).
  apply (in_export_cells _ _ Hm Hret) in Hin.
  destruct Hin as [(j & Hj & Hin)|(i & r & Hi & Hin)].
  - apply in_header_cells in Hin.
    assert (Hcase := Hin). clear Hin.
    destruct Hcase as (-> & offset & header & Hh & -> & Ho & ->).
    split; [|split; [lia|]].
    + left. split; [reflexivity|]. exists j, offset, header. auto.
    + intros Hz. apply Z.mod_divide in Hz; [|lia].
      destruct Hz as [q Hq]. lia.
  - rewrite Forall_forall in Hall.
    destruct (Hall r (nth_error_In _ _ Hi)) as [(value & Hv & _) _].
    pose proof (Z.mod_pos_bound (Z.of_nat i) max_per_table Hm) as Hmod.
    apply in_data_cells in Hin. unfold adjusted_text in Hin.
    rewrite Hv in Hin. assert (Hcase := Hin). clear Hin.
    destruct Hcase as (-> & Hcol).
    split; [|split; [lia|]].
    + right. exists i, r, value. split; [exact Hi|]. split; [exact Hv|].
      split; [reflexivity|].
      destruct Hcol as [[-> ->]|[[-> ->]|[-> ->]]]; [left|right; left|right; right];
        (split; [lia | reflexivity]).
    + intros Hz. apply Z.mod_divide in Hz; [|lia].
      destruct Hz as [q Hq].
      destruct Hcol as [[-> _]|[[-> _]|[-> _]]]; lia.
Qed.

Lemma export_writes_tables_only_witness :
  ((2%Z = 1%Z
    /\ exists j offset header,
         (j < block_count
                (List.length [example_record (ymd 2024 1 1) (hm 23 50)])
                256)%nat
         /\ nth_error headers offset = Some header
         /\ 2%Z = (4 * Z.of_nat j + 1 + Z.of_nat offset)%Z
         /\ Text (lit "ABC") = Text header)
   \/ (exists i r value,
          nth_error [example_record (ymd 2024 1 1) (hm 23 50)] i = Some r
          /\ adjusted_iso r = Ok value
          /\ 2%Z = (2 + Z.of_nat i mod 256)%Z
          /\ ((2%Z = (4 * (Z.of_nat i / 256) + 1)%Z
               /\ Text (lit "ABC") = Text (kept value))
              \/ (2%Z = (4 * (Z.of_nat i / 256) + 2)%Z
                  /\ Text (lit "ABC") = Text (kept (company r)))
              \/ (2%Z = (4 * (Z.of_nat i / 256) + 3)%Z
                  /\ Text (lit "ABC") = Number (exceeded_percent r)))))
  /\ (1 <= 2 <= 256 + 1)%Z
  /\ (2 mod 4 <> 0)%Z.
Proof.
  apply (@export_writes_tables_only
           [example_record (ymd 2024 1 1) (hm 23 50)] 256
           (with_tables empty_sheet 0
              [[example_record (ymd 2024 1 1) (hm 23 50)]])).
  - lia.
  - vm_compute. reflexivity.
  - vm_compute. tauto.
Defined.

(** X11. When the export returns, for a positive table size, no cell is
    given two values: the tables do not overlap, and the worksheet does
    not depend on the order of the assignments. *)
Theorem export_cells_single_valued records max_per_table sheet row column
    v v' :
  (0 < max_per_table)%Z ->
  export_to_excel records max_per_table = Returns sheet ->
  In (row, column, v) (ws_cells sheet) ->
  In (row, column, v') (ws_cells sheet) ->
  v = v'.
Proof.
  intros Hm Hret Hin Hin'.
  apply (in_export_cells _ _ Hm Hret) in Hin, Hin'.
  destruct Hin as [(j & _ & Hin)|(i & r & Hi & Hin)];
    destruct Hin' as [(j' & _ & Hin')|(i' & r' & Hi' & Hin')].
  - apply in_header_cells in Hin, Hin'.
    destruct Hin as (_ & o & h & Hh & Hc & Ho & ->).
    destruct Hin' as (_ & o' & h' & Hh' & Hc' & Ho' & ->).
    assert (o = o') by lia. subst o'. congruence.
  - apply in_header_cells in Hin. apply in_data_cells in Hin'.
    pose proof (Z.mod_pos_bound (Z.of_nat i') max_per_table Hm).
    destruct Hin as (? & _). destruct Hin' as (? & _). lia.
  - apply in_header_cells in Hin'. apply in_data_cells in Hin.
    pose proof (Z.mod_pos_bound (Z.of_nat i) max_per_table Hm).
    destruct Hin as (? & _). destruct Hin' as (? & _). lia.
  - apply in_data_cells in Hin, Hin'.
    destruct Hin as (Hrow & Hcol). destruct Hin' as (Hrow' & Hcol').
    pose proof (Z.div_mod (Z.of_nat i) max_per_table ltac:(lia)) as Hdm.
    pose proof (Z.div_mod (Z.of_nat i') max_per_table ltac:(lia)) as Hdm'.
    assert (Hmod : (Z.of_nat i mod max_per_table
                    = Z.of_nat i' mod max_per_table)%Z) by lia.
    assert (Hsame : (Z.of_nat i / max_per_table
                     = Z.of_nat i' / max_per_table)%Z
                    -> r = r').
    { intros Hdiv. rewrite Hdiv, Hmod in Hdm. rewrite <- Hdm' in Hdm.
      apply Nat2Z.inj in Hdm. subst i'. congruence. }
    destruct Hcol as [[Hc ->]|[[Hc ->]|[Hc ->]]];
      destruct Hcol' as [[Hc' ->]|[[Hc' ->]|[Hc' ->]]];
      try (exfalso; lia);
      rewrite (Hsame ltac:(lia)); reflexivity.
Qed.

Lemma export_cells_single_valued_witness :
  Text (lit "ABC") = Text (lit "ABC").
Proof.
  apply (@export_cells_single_valued
           [example_record (ymd 2024 1 1) (hm 23 50)] 256
           (with_tables empty_sheet 0
              [[example_record (ymd 2024 1 1) (hm 23 50)]]) 2 2).
  - lia.
  - vm_compute. reflexivity.
  - vm_compute. tauto.
  - vm_compute. tauto.
Defined.

(** X12. When the export returns, for a positive table size, the sheet is
    titled ["Despacho"]; it holds one table for each block, 4569 at most,
    with the three headers in row 1 of its three columns, and to the right
    of each table a spacer column, the columns 4, 8, 12 and so on, whose
    width was set to 2; three cells were written for each table and three
    for each record. *)
Theorem export_tables_and_spacers records max_per_table sheet :
  (0 < max_per_table)%Z ->
  export_to_excel records max_per_table = Returns sheet ->
  let tables := block_count (List.length records) max_per_table in
  ws_title sheet = lit "Despacho"
  /\ (forall j, (j < tables)%nat ->
                incl (header_cells (4 * Z.of_nat j + 1)) (ws_cells sheet))
  /\ ws_widths sheet
     = map (fun j => (column_letters 3 (4 * Z.of_nat j + 4)%Z [], 2%Z))
         (List.seq 0 tables)
  /\ List.length (ws_cells sheet)
     = (3 * tables + 3 * List.length records)%nat
  /\ (tables <= 4569)%nat.
Proof.
  intros Hm Hret tables.
  destruct (export_returns_inv _ Hm Hret) as (Hsheet & Htables & _ & _).
  split; [rewrite Hsheet; reflexivity|]. split; [|split; [|split]].
  - intros j Hj c Hc. apply (in_export_cells _ c Hm Hret). left.
    exists j. auto.
  - rewrite Hsheet. unfold with_tables, empty_sheet. cbn [ws_widths app].
    rewrite length_map, length_seq, spacer_widths_spec.
    apply map_ext. intros j. rewrite Z.add_0_l. reflexivity.
  - rewrite Hsheet. unfold with_tables, empty_sheet. cbn [ws_cells app].
    rewrite tables_cells_length, length_map, length_seq.
    rewrite (concat_blocks_all records Hm). reflexivity.
  - exact Htables.
Qed.

Lemma export_tables_and_spacers_witness :
  ws_widths
    (with_tables empty_sheet 0
       [ [ example_record (ymd 2024 1 1) (hm 23 50);
           example_record (ymd 2024 1 1) (hm 23 55) ];
         [ example_record (ymd 2024 1 2) (hm 0 10) ] ])
  = map (fun j => (column_letters 3 (4 * Z.of_nat j + 4)%Z [], 2%Z))
      (List.seq 0
         (block_count
            (List.length
               [ example_record (ymd 2024 1 1) (hm 23 50);
                 example_record (ymd 2024 1 1) (hm 23 55);
                 example_record (ymd 2024 1 2) (hm 0 10) ]) 2)).
Proof.
  apply (@export_tables_and_spacers
           [ example_record (ymd 2024 1 1) (hm 23 50);
             example_record (ymd 2024 1 1) (hm 23 55);
             example_record (ymd 2024 1 2) (hm 0 10) ] 2).
  - lia.
  - vm_compute. reflexivity.
Defined.

(** X13. The export of no records, whatever the table size other than
    zero, and the export of any records with a negative table size, write
    nothing at all, not even headers: the sheet that is saved has the title
    and no cell. With a table size of zero the export raises the
    [ValueError] of [range], with or without records, before anything is
    saved. *)
Theorem export_degenerate records max_per_table :
  (max_per_table = 0%Z ->
   export_to_excel records max_per_table = Raises ValueError_range_step)
  /\ ((max_per_table < 0)%Z ->
      export_to_excel records max_per_table = Returns empty_sheet)
  /\ (records = [] -> max_per_table <> 0%Z ->
      export_to_excel records max_per_table = Returns empty_sheet).
Proof.
  rewrite export_to_excel_split. split; [|split].
  - intros ->. reflexivity.
  - intros Hneg. unfold _record_blocks, range_list.
    destruct (max_per_table =? 0)%Z eqn:H0; [apply Z.eqb_eq in H0; lia|].
    destruct (0 <? max_per_table)%Z eqn:H1; [apply Z.ltb_lt in H1; lia|].
    replace (Z.to_nat (0 - Z.of_nat (List.length records))) with 0%nat by lia.
    reflexivity.
  - intros -> Hne. unfold _record_blocks, range_list.
    destruct (max_per_table =? 0)%Z eqn:H0; [apply Z.eqb_eq in H0; lia|].
    destruct (0 <? max_per_table)%Z; reflexivity.
Qed.

Lemma export_degenerate_witness :
  export_to_excel [example_record (ymd 2024 1 1) (hm 23 50)] 0
  = Raises ValueError_range_step
  /\ export_to_excel [example_record (ymd 2024 1 1) (hm 23 50)] (-1)
     = Returns empty_sheet
  /\ export_to_excel [] 256 = Returns empty_sheet.
Proof.
  split; [|split].
  - apply (proj1 (@export_degenerate
                    [example_record (ymd 2024 1 1) (hm 23 50)] 0)).
    reflexivity.
  - apply (proj1 (proj2 (@export_degenerate
                           [example_record (ymd 2024 1 1) (hm 23 50)] (-1)))).
    lia.
  - apply (proj2 (proj2 (@export_degenerate [] 256))); [reflexivity | lia].
Defined.





(** X16. [main] reads its input line by line whatever the line ends: for
    lines that hold no line break, each ended by a line feed or by a
    carriage return and a line feed, and followed or not by a last line
    without a line end, [splitlines] gives back the lines, and [main] does
    with the text what it does with the same lines ended by line feeds. *)
Theorem main_reads_lines lim lines last eol shift_date max_per_table :
  eol = [LINE_FEED] \/ eol = [0xd%N; LINE_FEED] ->
  Forall no_linebreak lines -> no_linebreak last ->
  splitlines (join_lines eol lines ++ last) = lines ++ tail_line last
  /\ main lim (join_lines eol lines ++ last) shift_date max_per_table
     = main lim (join_lines [LINE_FEED] (lines ++ tail_line last))
         shift_date max_per_table.
Proof.
  intros Heol Hlines Hlast.
  pose proof (@splitlines_join eol last lines Heol Hlines Hlast) as H1.
  split; [exact H1|]. unfold main. rewrite H1.
  rewrite <- (app_nil_r (join_lines [LINE_FEED] (lines ++ tail_line last))).
  rewrite (@splitlines_join [LINE_FEED] [] (lines ++ tail_line last)).
  - cbn [tail_line]. rewrite app_nil_r. reflexivity.
  - left. reflexivity.
  - apply Forall_app. split; [exact Hlines|].
    unfold tail_line. destruct last; repeat constructor. exact Hlast.
  - reflexivity.
Qed.

Lemma main_reads_lines_witness :
  splitlines
    (join_lines [0xd%N; LINE_FEED] [example_line "23:50"]
     ++ example_line "00:10")
  = [example_line "23:50"] ++ tail_line (example_line "00:10")
  /\ main 4300
       (join_lines [0xd%N; LINE_FEED] [example_line "23:50"]
        ++ example_line "00:10") (ymd 2024 1 1) 256
     = main 4300
         (join_lines [LINE_FEED]
            ([example_line "23:50"] ++ tail_line (example_line "00:10")))
         (ymd 2024 1 1) 256.
Proof.
  apply (@main_reads_lines 4300 [example_line "23:50"]
           (example_line "00:10") [0xd%N; LINE_FEED] (ymd 2024 1 1) 256).
  - right. reflexivity.
  - repeat constructor.
  - reflexivity.
Defined.

(** X17. When [main] returns, the number of records it reports is the
    number of lines of the text that are not blank. For a positive table
    size the sheet then holds three cells for each of these records and
    three for each table; for a negative table size it holds no cell at
    all, whatever number is reported. *)
Theorem main_reports_parsed_count lim text shift_date max_per_table sheet n :
  main lim text shift_date max_per_table = Returns (sheet, n) ->
  n = List.length (filter (fun l => negb (is_blank l)) (splitlines text))
  /\ ((0 < max_per_table)%Z ->
      List.length (ws_cells sheet)
      = (3 * block_count n max_per_table + 3 * n)%nat)
  /\ ((max_per_table < 0)%Z -> sheet = empty_sheet).
Proof.
  unfold main.
  destruct (parse_records lim (splitlines text) shift_date) as [rs|]
    eqn:Hparse; [|discriminate].
  destruct (export_to_excel rs max_per_table) as [sheet'|] eqn:Hexport;
    [|discriminate].
  intros H. injection H as <- <-.
  split; [apply (@parse_records_length _ _ _ _ Hparse)|]. split.
  - intros Hm. apply (@export_cells_length _ _ _ Hm Hexport).
  - intros Hm. rewrite (@export_negative rs _ Hm) in Hexport.
    injection Hexport as <-. reflexivity.
Qed.

Lemma main_reports_parsed_count_witness :
  1%nat
  = List.length
      (filter (fun l => negb (is_blank l))
         (splitlines (example_line "23:50" ++ [LINE_FEED; LINE_FEED])))
  /\ ((0 < -1)%Z ->
      List.length (ws_cells empty_sheet)
      = (3 * block_count 1 (-1) + 3 * 1)%nat)
  /\ ((-1 < 0)%Z -> empty_sheet = empty_sheet).
Proof.
  apply (@main_reports_parsed_count 4300
           (example_line "23:50" ++ [LINE_FEED; LINE_FEED]) (ymd 2024 1 1)
           (-1)).
  vm_compute. reflexivity.
Defined.



(** X19. The records that parsing produces go into the worksheet as they
    are: when they are exported, for a positive table size, the row of
    each record holds its adjusted text and its company uncut, beside its
    percent. *)
Theorem parsed_records_exported_whole lim lines shift_date rs max_per_table
    sheet i r :
  parse_records lim lines shift_date = Ok rs ->
  (0 < max_per_table)%Z ->
  export_to_excel rs max_per_table = Returns sheet ->
  nth_error rs i = Some r ->
  let row := (2 + Z.of_nat i mod max_per_table)%Z in
  let column := (4 * (Z.of_nat i / max_per_table) + 1)%Z in
  exists value,
    adjusted_iso r = Ok value
    /\ In (row, column, Text value) (ws_cells sheet)
    /\ In (row, (column + 1)%Z, Text (company r)) (ws_cells sheet)
    /\ In (row, (column + 2)%Z, Number (exceeded_percent r))
         (ws_cells sheet).
Proof.
  intros Hparse Hm Hexport Hi row column.
  destruct (@export_record_cells _ _ _ _ _ Hm Hexport Hi)
    as (value & Hv & Hcells).
  destruct (@adjusted_text_clean _ _ Hv) as [_ Hkept].
  destruct (@parsed_company_clean _ _ _ _ _ Hparse (nth_error_In _ _ Hi))
    as [_ Hcompany].
  rewrite Hkept, Hcompany in Hcells.
  exists value. split; [exact Hv|].
  repeat split; apply Hcells.
  - left. reflexivity.
  - right. left. reflexivity.
  - right. right. left. reflexivity.
Qed.

Lemma parsed_records_exported_whole_witness :
  exists value,
    adjusted_iso (example_record (ymd 2024 1 2) (hm 0 10)) = Ok value
    /\ In ((2 + Z.of_nat 1 mod 256)%Z, (4 * (Z.of_nat 1 / 256) + 1)%Z,
           Text value)
         (ws_cells
            (with_tables empty_sheet 0
               [ [ example_record (ymd 2024 1 1) (hm 23 50);
                   example_record (ymd 2024 1 2) (hm 0 10) ] ]))
    /\ In ((2 + Z.of_nat 1 mod 256)%Z, (4 * (Z.of_nat 1 / 256) + 1 + 1)%Z,
           Text (company (example_record (ymd 2024 1 2) (hm 0 10))))
         (ws_cells
            (with_tables empty_sheet 0
               [ [ example_record (ymd 2024 1 1) (hm 23 50);
                   example_record (ymd 2024 1 2) (hm 0 10) ] ]))
    /\ In ((2 + Z.of_nat 1 mod 256)%Z, (4 * (Z.of_nat 1 / 256) + 1 + 2)%Z,
           Number
             (exceeded_percent (example_record (ymd 2024 1 2) (hm 0 10))))
         (ws_cells
            (with_tables empty_sheet 0
               [ [ example_record (ymd 2024 1 1) (hm 23 50);
                   example_record (ymd 2024 1 2) (hm 0 10) ] ])).
Proof.
  apply (@parsed_records_exported_whole 4300
           [example_line "23:50"; example_line "00:10"] (ymd 2024 1 1)
           [ example_record (ymd 2024 1 1) (hm 23 50);
             example_record (ymd 2024 1 2) (hm 0 10) ] 256).
  - vm_compute. reflexivity.
  - lia.
  - vm_compute. reflexivity.
  - reflexivity.
Defined.
